(** * playwright-google-login: a shallow embedding and its properties

    The development follows the TypeScript sources:
    - [JS]: the fragment of JavaScript's strings and 32-bit integer
      operators the program relies on;
    - [BrowserManager]: [calculateWindowPosition] (browserManager.ts);
    - [AccountManager]: the account store (accountManager.ts);
    - [GoogleLogin]: the URL-driven login loop (googleLogin.ts);
    - [Index]: [main] (index.ts);
    - [Pool]: the task pool (pool.ts) and the logger it writes to;
    - [Utils], [BrowserStart]: port polling (utils.ts) and the wait for
      the browser (browserManager.ts);
    - [Setup]: the sample account file (setup.ts);
    - [LogText], [LogsScript]: the text of logs.txt (logger.ts) and the
      log script that reads it (scripts/logs.ts).

    The browser, the clock and the file system are the environment: their
    answers are explicit inputs of the embedded functions. *)

From Stdlib Require Import ZArith NArith List Bool Lia String Ascii.
From Stdlib Require Import DecimalN DecimalFacts.
From stdpp Require Import base tactics option list gmap sets.

Local Open Scope Z_scope.

(** ** JavaScript fragments *)
Module JS.

(** A JavaScript string is a sequence of UTF-16 code units. *)
Definition jschar := N.
Definition jsstring := list N.

(** String literals of the sources (all of them ASCII). *)
Definition js (s : string) : jsstring :=
  map N_of_ascii (list_ascii_of_string s).

(** [String.prototype.startsWith]. *)
Fixpoint startsWith (s pat : jsstring) : bool :=
  match pat, s with
  | [], _ => true
  | _ :: _, [] => false
  | p :: pat', c :: s' => N.eqb p c && startsWith s' pat'
  end.

(** [String.prototype.includes]. *)
Fixpoint includes (s pat : jsstring) : bool :=
  startsWith s pat ||
  match s with
  | [] => false
  | _ :: s' => includes s' pat
  end.

(** [s.split(sep)] for a one-character separator: never empty, one more
    piece than there are separators. *)
Fixpoint split (sep : jschar) (s : jsstring) : list jsstring :=
  match s with
  | [] => [[]]
  | c :: s' =>
      if N.eqb c sep then [] :: split sep s'
      else match split sep s' with
           | [] => [[c]]
           | piece :: pieces => (c :: piece) :: pieces
           end
  end.

(** [s.split(sep)[0]]. *)
Definition split_head (sep : jschar) (s : jsstring) : jsstring :=
  match split sep s with
  | [] => []
  | piece :: _ => piece
  end.

(** ECMAScript WhiteSpace and LineTerminator code units: what [trim]
    strips and what the regular expression class [\s] matches. *)
Definition is_whitespace (c : jschar) : bool :=
  ((9 <=? c) && (c <=? 13))%N || (c =? 32)%N || (c =? 160)%N
  || (c =? 5760)%N || ((8192 <=? c) && (c <=? 8202))%N
  || (c =? 8232)%N || (c =? 8233)%N || (c =? 8239)%N || (c =? 8287)%N
  || (c =? 12288)%N || (c =? 65279)%N.

Fixpoint trimStart (s : jsstring) : jsstring :=
  match s with
  | [] => []
  | c :: s' => if is_whitespace c then trimStart s' else s
  end.

Definition trimEnd (s : jsstring) : jsstring := rev (trimStart (rev s)).

(** [String.prototype.trim]. *)
Definition trim (s : jsstring) : jsstring := trimEnd (trimStart s).

(** [s.replace(/\s/g, '')]. *)
Definition strip_whitespace (s : jsstring) : jsstring :=
  List.filter (fun c => negb (is_whitespace c)) s.

(** [s.replaceAll(a, b)] for one-character [a] and [b]. *)
Definition replaceAll (a b : jschar) (s : jsstring) : jsstring :=
  map (fun c => if N.eqb c a then b else c) s.

(** Decimal digits of a natural number, as [Number.prototype.toString]
    prints an integer. *)
Fixpoint digits_of_uint (d : Decimal.uint) : jsstring :=
  match d with
  | Decimal.Nil => []
  | Decimal.D0 d' => 48%N :: digits_of_uint d'
  | Decimal.D1 d' => 49%N :: digits_of_uint d'
  | Decimal.D2 d' => 50%N :: digits_of_uint d'
  | Decimal.D3 d' => 51%N :: digits_of_uint d'
  | Decimal.D4 d' => 52%N :: digits_of_uint d'
  | Decimal.D5 d' => 53%N :: digits_of_uint d'
  | Decimal.D6 d' => 54%N :: digits_of_uint d'
  | Decimal.D7 d' => 55%N :: digits_of_uint d'
  | Decimal.D8 d' => 56%N :: digits_of_uint d'
  | Decimal.D9 d' => 57%N :: digits_of_uint d'
  end.

Definition string_of_N (n : N) : jsstring := digits_of_uint (N.to_uint n).

Definition string_of_Z (z : Z) : jsstring :=
  if z <? 0 then 45%N :: string_of_N (Z.to_N (- z)) else string_of_N (Z.to_N z).

(** ToInt32: the signed 32-bit reading of an integer-valued Number. *)
Definition to_int32 (z : Z) : Z := (z + 2 ^ 31) mod 2 ^ 32 - 2 ^ 31.

(** [a << k], [a >> k] and [a & b] on Numbers holding integers. *)
Definition shl (a k : Z) : Z := to_int32 (Z.shiftl (to_int32 a) k).
Definition sar (a k : Z) : Z := Z.shiftr (to_int32 a) k.
Definition band (a b : Z) : Z := to_int32 (Z.land (to_int32 a) (to_int32 b)).

(** [a % b]: the sign follows the dividend. *)
Definition rem (a b : Z) : Z := Z.rem a b.

End JS.

(** ** utils.ts *)
Module Utils.

(** [Math.ceil(timeout / 1000)] for a whole number of milliseconds. *)
Definition maxAttempts (timeout : Z) : Z := - ((- timeout) / 1000).

(** The do-while loop of [checkPortAvailable]. [checkPort k] is what the
    call of [checkPort()] answers that comes after [k] failed ones (so
    [attempts] is also the index of the next call). The result is [None]
    when the fuel runs out, and otherwise the value returned together
    with the number of one-second sleeps. *)
Fixpoint poll_port (fuel : nat) (checkPort : nat -> bool)
    (maxAttempts attempts : Z) : option (bool * nat) :=
  match fuel with
  | O => None
  | S fuel' =>
      if checkPort (Z.to_nat attempts) then Some (true, 0%nat)
      else
        let attempts := attempts + 1 in
        if attempts <? maxAttempts then
          match poll_port fuel' checkPort maxAttempts attempts with
          | Some (r, sleeps) => Some (r, S sleeps)
          | None => None
          end
        else Some (false, 0%nat)
  end.

(** [checkPortAvailable(port, timeout)]. *)
Definition checkPortAvailable (fuel : nat) (checkPort : nat -> bool)
    (timeout : Z) : option (bool * nat) :=
  poll_port fuel checkPort (maxAttempts timeout) 0.

End Utils.

(** ** browserManager.ts *)
Module BrowserManager.
Import JS.

Record Position := { x : Z; y : Z }.

(** The [for] loop of [calculateWindowPosition]. *)
Definition hash_step (hash : Z) (c : jschar) : Z :=
  band (shl hash 5 - hash + Z.of_N c) 4294967295.

(** [calculateWindowPosition(port, email?)]. The port is an integer; an
    absent or empty [email] is falsy and leaves the hash at the port. *)
Definition calculateWindowPosition (port : Z) (email : option jsstring) : Position :=
  let hash :=
    match email with
    | Some (c :: e) => fold_left hash_step (c :: e) port
    | _ => port
    end in
  let xOffset := rem (Z.abs hash) 8 in
  let yOffset := rem (Z.abs (sar hash 8)) 6 in
  let baseX := 50 in
  let baseY := 50 in
  let xOffsetStep := 150 in
  let yOffsetStep := 120 in
  let x := baseX + xOffset * xOffsetStep in
  let y := baseY + yOffset * yOffsetStep in
  let maxX := 1920 - 1080 - 50 in
  let maxY := 1080 - 720 - 100 in
  {| x := Z.min x maxX; y := Z.min y maxY |}.

End BrowserManager.

(** ** browserManager.ts: waiting for the browser *)
Module BrowserStart.
Import Utils.

(** [configs.timeouts?.portCheck || 120000]: [portCheck] is [None] when
    the setting is missing. *)
Definition portCheck_timeout (portCheck : option Z) : Z :=
  match portCheck with
  | Some timeout => if timeout =? 0 then 120000 else timeout
  | None => 120000
  end.

(** [waitForBrowserReady(port, configs)]: [Some (false, _)] stands for
    the start-up timeout error. *)
Definition waitForBrowserReady (fuel : nat) (checkPort : nat -> bool)
    (portCheck : option Z) : option (bool * nat) :=
  checkPortAvailable fuel checkPort (portCheck_timeout portCheck).

End BrowserStart.

(** ** accountManager.ts *)
Module AccountManager.
Import JS.

Record AccountInfo := {
  email : jsstring;
  password : jsstring;
  twoStepCode : jsstring;
  isTotp : bool
}.

(** The character class [[A-Z0-9]]. *)
Definition upper_alnum (c : jschar) : bool :=
  ((65 <=? c) && (c <=? 90))%N || ((48 <=? c) && (c <=? 57))%N.

(** Greedy run of a character class: how many characters it takes and
    what is left. *)
Fixpoint class_run (cls : jschar -> bool) (s : jsstring) : nat * jsstring :=
  match s with
  | [] => (0%nat, [])
  | c :: s' =>
      if cls c then let '(n, rest) := class_run cls s' in (S n, rest)
      else (0%nat, s)
  end.

(** [/^[A-Z0-9]{16,}$/.test(s)]: from the start of the input, at least 16
    characters of the class, then the end of the input. *)
Definition totp_pattern_test (s : jsstring) : bool :=
  let '(n, rest) := class_run upper_alnum s in
  (16 <=? n)%nat && match rest with [] => true | _ :: _ => false end.

(** The body of the [for] loop of [parseAccounts] for one line. *)
Definition parse_line (line : jsstring) : option AccountInfo :=
  let parts := map trim (split 9%N line) in
  if (3 <=? length parts)%nat then
    match parts with
    | e :: p :: t :: _ =>
        Some {| email := e; password := p; twoStepCode := t;
                isTotp := totp_pattern_test (strip_whitespace t) |}
    | _ => None
    end
  else None.

(** [line => line.trim()] as a truth value: the trimmed line is not the
    empty string. *)
Definition truthy (s : jsstring) : bool :=
  match s with [] => false | _ :: _ => true end.

(** [parseAccounts(content)]. *)
Definition parseAccounts (content : jsstring) : list AccountInfo :=
  let lines := List.filter (fun line => truthy (trim line)) (split 10%N content) in
  omap parse_line lines.

(** The mutable fields of the [AccountManager] object. *)
Record Store := {
  accounts : list AccountInfo;
  usedAccounts : gset jsstring
}.

Definition empty_store : Store := {| accounts := []; usedAccounts := ∅ |}.

(** [loadAccounts()], given the text of accounts.txt: replaces the
    account list and leaves the used-set as it is. *)
Definition loadAccounts (content : jsstring) (st : Store) : Store :=
  {| accounts := parseAccounts content; usedAccounts := usedAccounts st |}.

Definition is_unused (used : gset jsstring) (a : AccountInfo) : bool :=
  negb (bool_decide (email a ∈ used)).

(** [getNextAccount()]: the returned account (or [None] for [null]) and
    the store afterwards. *)
Definition getNextAccount (st : Store) : option AccountInfo * Store :=
  match List.find (is_unused (usedAccounts st)) (accounts st) with
  | Some account => (Some account, st)
  | None =>
      if (size (usedAccounts st) =? length (accounts st))%nat then
        (head (accounts st), {| accounts := accounts st; usedAccounts := ∅ |})
      else (None, st)
  end.

(** [markAccountAsUsed(email)]. *)
Definition markAccountAsUsed (e : jsstring) (st : Store) : Store :=
  {| accounts := accounts st; usedAccounts := {[ e ]} ∪ usedAccounts st |}.

Definition getTotalAccountCount (st : Store) : nat := length (accounts st).

(** [resetAccountUsage()]. *)
Definition resetAccountUsage (st : Store) : Store :=
  {| accounts := accounts st; usedAccounts := ∅ |}.

(** [getAvailableAccountCount()]: the difference of two Numbers. *)
Definition getAvailableAccountCount (st : Store) : Z :=
  Z.of_nat (length (accounts st)) - Z.of_nat (size (usedAccounts st)).

Record AccountStats := {
  total : Z;
  used : Z;
  available : Z
}.

(** [getAccountStats()]. *)
Definition getAccountStats (st : Store) : AccountStats :=
  {| total := Z.of_nat (length (accounts st));
     used := Z.of_nat (size (usedAccounts st));
     available := Z.of_nat (length (accounts st))
                  - Z.of_nat (size (usedAccounts st)) |}.

End AccountManager.

(** ** setup.ts *)
Module Setup.
Import JS.

(** The accounts.txt that [setup()] writes when there is none: five
    lines of explanation that begin with '#', with tabs in three of
    them. *)
Definition sampleAccounts : jsstring :=
  js "# Google"
  ++ [36134; 25143; 37197; 32622; 25991; 20214; 10]%N
  ++ js "# "
  ++ [26684; 24335; 65306; 37038; 31665; 9; 23494; 30721; 9; 20108; 27493;
     39564; 35777; 30721]%N
  ++ js "/TOTP"
  ++ [23494; 38053; 10]%N
  ++ js "# "
  ++ [35831; 26367; 25442; 20026; 24744; 30340; 30495; 23454; 36134;
     25143; 20449; 24687; 10; 10]%N
  ++ js "# "
  ++ [31034; 20363; 65288; 35831; 21024; 38500; 27492; 34892; 24182;
     28155; 21152; 30495; 23454; 36134; 25143; 65289]%N
  ++ js ":"
  ++ [10]%N
  ++ js "# user@gmail.com"
  ++ [9]%N
  ++ js "password123"
  ++ [9]%N
  ++ js "QEJA633DACRGZM25AD6PHHHYB3MWHACW"
  ++ [10]%N
  ++ js "# user2@gmail.com"
  ++ [9]%N
  ++ js "password456"
  ++ [9]%N
  ++ js "u5pg omhv bx23 stji 7wrw jesx l4ja lfz7"
  ++ [10]%N.

End Setup.

(** ** googleLogin.ts *)
Module GoogleLogin.
Import JS AccountManager.

(** The errors [performGoogleLogin] throws itself, and [PageError] for
    whatever a Playwright call or the TOTP library throws. *)
Inductive LoginError :=
| AccountInfoRequired
| InvalidCredentials
| InvalidSecondFactor
| TooManyRetries
| TwoStepNotConfigured
| UnhandledUrl
| PageError (msg : jsstring).

(** The text of each [new Error(...)], as UTF-16 code units. In English:
    account information is required; the account or the password is
    wrong; the two-step code is wrong; too many retries, cannot go on; no
    two-step code is configured, but one has to be entered; the link is
    not configured. *)
Definition message (e : LoginError) : jsstring :=
  match e with
  | AccountInfoRequired =>
      [36134; 25143; 20449; 24687; 26159; 24517; 38656; 30340; 65281; 35831;
       25552; 20379; 32; 101; 109; 97; 105; 108; 12289; 112; 97; 115; 115;
       119; 111; 114; 100; 32; 21644; 32; 116; 119; 111; 83; 116; 101; 112;
       67; 111; 100; 101]%N
  | InvalidCredentials =>
      [36134; 21495; 25110; 32773; 23494; 30721; 38169; 35823; 65281]%N
  | InvalidSecondFactor =>
      [20108; 27493; 39564; 35777; 30721; 38169; 35823; 65281]%N
  | TooManyRetries =>
      [37325; 35797; 27425; 25968; 36807; 22810; 65292; 26080; 27861; 32487;
       32493; 65281]%N
  | TwoStepNotConfigured =>
      [20108; 27493; 39564; 35777; 30721; 26410; 37197; 32622; 65281; 20294;
       21364; 35201; 36755; 20837; 20108; 27493; 39564; 35777; 30721; 65281]%N
  | UnhandledUrl => [26410; 37197; 32622; 30340; 38142; 25509]%N
  | PageError msg => msg
  end.

(** What the driver does to the page or the clock. Sleeps are in
    milliseconds. *)
Inductive Effect :=
| Sleep (ms : Z)
| BringToFront
| AddHighlightBorder
| RemoveHighlightBorder
| Reload
| EnterEmail
| EnterPassword
| EnterTotp
| ClickContinue
| ClickTryOtherMethods
| ClickAuthenticatorOption.

(** The loop of [waitForManualVerification(urlPattern)]. Each element of
    [answers] is what one [page.url()] call gives: a URL, or [None] when
    the call throws. The result is the effects performed and, once a URL
    without the pattern was seen, the answers not consumed; [None] when
    the answers ran out with the loop still going. *)
Fixpoint wait_loop (urlPattern : jsstring) (answers : list (option jsstring))
  : list Effect * option (list (option jsstring)) :=
  match answers with
  | [] => ([], None)
  | None :: answers' =>
      let '(effects, rest) := wait_loop urlPattern answers' in
      (Sleep 1000 :: Sleep 1000 :: effects, rest)
  | Some url :: answers' =>
      if negb (includes url urlPattern) then ([Sleep 1000], Some answers')
      else
        let '(effects, rest) := wait_loop urlPattern answers' in
        (Sleep 1000 :: effects, rest)
  end.

(** [waitForManualVerification(urlPattern)] once [bringToFront] and
    [addHighlightBorder] went through. *)
Definition waitForManualVerification (urlPattern : jsstring)
    (answers : list (option jsstring))
  : list Effect * option (list (option jsstring)) :=
  let '(effects, unread) := wait_loop urlPattern answers in
  match unread with
  | Some rest =>
      (BringToFront :: AddHighlightBorder :: effects ++ [RemoveHighlightBorder],
       Some rest)
  | None => (BringToFront :: AddHighlightBorder :: effects, None)
  end.

Definition noNeedCountUrlMatch : list jsstring :=
  [ js "challenge/kpe";
    js "challenge/ipe/verify";
    js "challenge/iap";
    js "challenge/recaptcha";
    js "challenge/ipp/consent";
    js "accounts/SetSID";
    js "challenge/ipp/verify" ].

(** The variables of the [while (!isGoogleLogined)] loop. *)
Record DriverState := {
  lastUrl : jsstring;
  retryCount : Z
}.

Definition initial_state : DriverState := {| lastUrl := []; retryCount := 0 |}.

(** What one iteration asks for after its tests. *)
Inductive Action :=
| Stall                                  (* [await sleep(1); continue] *)
| DoReload                               (* [await page.reload(); continue] *)
| TypeEmail
| TypePassword
| TypeTotp
| PressContinue
| PressTryOtherMethods
| PickAuthenticator
| ManualWait (urlPattern : jsstring)
| PassThrough.

Inductive Step :=
| Throw (e : LoginError)
| LoggedIn
| Continue (st : DriverState) (a : Action).

(** One iteration of the [while (!isGoogleLogined)] loop up to its page
    action: [page_url] is what [page.url()] returns, [offered] what
    [isElementExist] answers on the method-selection page. *)
Definition loop_body (account : AccountInfo) (st : DriverState)
    (page_url : jsstring) (offered : bool) : Step :=
  let url := split_head 63%N page_url in
  if bool_decide (url = lastUrl st) && negb (retryCount st =? -1) then
    if retryCount st >? 15 then
      if includes url (js "challenge/pwd") then Throw InvalidCredentials
      else if includes url (js "challenge/totp") then Throw InvalidSecondFactor
      else Throw TooManyRetries
    else if (retryCount st >? 5) && includes url (js "signin/identifier") then
      Continue {| lastUrl := lastUrl st; retryCount := -1 |} DoReload
    else if negb (existsb (fun _url => includes url _url) noNeedCountUrlMatch) then
      Continue {| lastUrl := lastUrl st; retryCount := retryCount st + 1 |} Stall
    else Continue st Stall
  else
    let st' := {| lastUrl := url; retryCount := 0 |} in
    if negb (startsWith url (js "https://accounts.google.com/"))
       && negb (includes url (js "challenge/ipp/verify"))
       && negb (includes url (js "accounts/SetSID"))
    then LoggedIn
    else if includes url (js "signin/identifier") then Continue st' TypeEmail
    else if includes url (js "challenge/pwd") then Continue st' TypePassword
    else if includes url (js "challenge/totp") then
      if negb (truthy (twoStepCode account)) then Throw TwoStepNotConfigured
      else Continue st' TypeTotp
    else if includes url (js "signin/oauth/id") then Continue st' PressContinue
    else if includes url (js "signin/challenge/pk/presend") then
      Continue st' PressTryOtherMethods
    else if includes url (js "challenge/selection") then
      if offered then Continue st' PickAuthenticator
      else Continue st' (ManualWait (js "challenge/selection"))
    else if includes url (js "challenge/kpe") then
      Continue st' (ManualWait (js "challenge/kpe"))
    else if includes url (js "challenge/ipe/verify") then
      Continue st' (ManualWait (js "challenge/ipe/verify"))
    else if includes url (js "challenge/iap") then
      Continue st' (ManualWait (js "challenge/iap"))
    else if includes url (js "challenge/recaptcha") then
      Continue st' (ManualWait (js "challenge/recaptcha"))
    else if includes url (js "challenge/ipp/consent") then
      Continue st' (ManualWait (js "challenge/ipp/consent"))
    else if includes url (js "accounts/SetSID")
            || includes url (js "challenge/ipp/verify") then
      Continue st' PassThrough
    else Throw UnhandledUrl.

(** What the page answers during one iteration of the loop. *)
Record Poll := {
  page_url : jsstring;                     (* [page.url()] at the loop head *)
  authenticator_offered : bool;            (* [isElementExist(...)] *)
  action_error : option jsstring;          (* the page action throws this *)
  manual_answers : list (option jsstring)  (* [page.url()] inside a manual wait *)
}.

Inductive Outcome :=
| Failed (e : LoginError)
| Succeeded
| AtLoopHead (st : DriverState)   (* the polls ran out at the loop head *)
| InManualWait (st : DriverState) (* the answers ran out inside a manual wait *).

(** The page action of an iteration: its effects, or the error thrown. *)
Definition perform (a : Action) (p : Poll) : list Effect + LoginError :=
  match a with
  | Stall => inl [Sleep 1000]
  | PassThrough => inl []
  | _ =>
      match action_error p with
      | Some msg => inr (PageError msg)
      | None =>
          inl match a with
              | DoReload => [Reload]
              | TypeEmail => [Sleep 500; EnterEmail]
              | TypePassword => [Sleep 500; EnterPassword]
              | TypeTotp => [EnterTotp; Sleep 500]
              | PressContinue => [ClickContinue]
              | PressTryOtherMethods => [ClickTryOtherMethods]
              | PickAuthenticator => [ClickAuthenticatorOption]
              | _ => []
              end
      end
  end.

(** The [while (!isGoogleLogined)] loop run against the page's answers. *)
Fixpoint run_loop (account : AccountInfo) (st : DriverState) (polls : list Poll)
  : list Effect * Outcome :=
  match polls with
  | [] => ([], AtLoopHead st)
  | p :: polls' =>
      match loop_body account st (page_url p) (authenticator_offered p) with
      | Throw e => ([], Failed e)
      | LoggedIn => ([], Succeeded)
      | Continue st' (ManualWait pat) =>
          match action_error p with
          | Some msg => ([], Failed (PageError msg))
          | None =>
              match waitForManualVerification pat (manual_answers p) with
              | (effects, None) => (effects, InManualWait st')
              | (effects, Some _) =>
                  let '(more, out) := run_loop account st' polls' in
                  (effects ++ more, out)
              end
          end
      | Continue st' a =>
          match perform a p with
          | inr e => ([], Failed e)
          | inl effects =>
              let '(more, out) := run_loop account st' polls' in
              (effects ++ more, out)
          end
      end
  end.

(** The answers of the page to a whole [performGoogleLogin] call: what
    happens before the loop (navigation, the sign-in click), during it,
    and after it (landing on the application's home page). *)
Record PageScript := {
  before_error : option jsstring;
  polls : list Poll;
  after_error : option jsstring
}.

(** [performGoogleLogin(page, accountInfo)]: [Some] outcome when the call
    settles with the given script ([Some None] for a normal return),
    [None] when it is still waiting. [accountInfo] is [None] for a
    missing argument. *)
Definition performGoogleLogin (accountInfo : option AccountInfo)
    (script : PageScript) : option (option LoginError) :=
  match accountInfo with
  | None => Some (Some AccountInfoRequired)
  | Some account =>
      match before_error script with
      | Some msg => Some (Some (PageError msg))
      | None =>
          match snd (run_loop account initial_state (polls script)) with
          | Failed e => Some (Some e)
          | Succeeded =>
              match after_error script with
              | Some msg => Some (Some (PageError msg))
              | None => Some None
              end
          | AtLoopHead _ | InManualWait _ => None
          end
      end
  end.

End GoogleLogin.

(** ** logger.ts and the world outside the pool *)
Module Logger.
Import JS.

(** [TaskResult]. A missing [duration] or [error] is [None]. *)
Record TaskResult := {
  result_email : jsstring;
  success : bool;
  result_error : option jsstring;
  duration : option Z;
  attempts : Z;
  timestamp : Z
}.

(** What a call of the logger appends to logs.txt. *)
Inductive LogEntry :=
| TaskLine (r : TaskResult)
| BatchStart (taskCount : nat)
| BatchEnd (successCount failedCount : nat) (totalDuration : Z).

(** The console lines the properties below refer to. *)
Inductive ConsoleLine :=
| SkippedTask (i : nat)                       (* no account for task [i] *)
| TasksAdded (created : nat)
| ShortfallNote (created requested : nat)
| Started (task_id : jsstring)
| Completed (task_id : jsstring)
| FailedLine (task_id : jsstring) (msg : jsstring).

(** One launched browser: the account it was launched for, whether its
    process is alive and whether the automation client is attached. *)
Record Session := {
  session_email : jsstring;
  process_alive : bool;
  client_open : bool
}.

Record World := {
  logFile : list LogEntry;
  profileDirs : gset jsstring;   (* the folders under ./profiles *)
  sessions : list Session;
  console : list ConsoleLine
}.

Definition append_log (write_ok : bool) (e : LogEntry) (w : World) : World :=
  {| logFile := if write_ok then logFile w ++ [e] else logFile w;
     profileDirs := profileDirs w;
     sessions := sessions w;
     console := console w |}.

Definition print (line : ConsoleLine) (w : World) : World :=
  {| logFile := logFile w;
     profileDirs := profileDirs w;
     sessions := sessions w;
     console := console w ++ [line] |}.

Definition set_profileDirs (dirs : gset jsstring) (w : World) : World :=
  {| logFile := logFile w;
     profileDirs := dirs;
     sessions := sessions w;
     console := console w |}.

Definition set_sessions (l : list Session) (w : World) : World :=
  {| logFile := logFile w;
     profileDirs := profileDirs w;
     sessions := l;
     console := console w |}.

(** [logger.logTaskResult(result)]: one append; a failing write is caught
    inside and leaves the file as it was. *)
Definition logTaskResult (write_ok : bool) (r : TaskResult) (w : World) : World :=
  append_log write_ok (TaskLine r) w.

Definition logBatchStart (write_ok : bool) (taskCount : nat) (w : World) : World :=
  append_log write_ok (BatchStart taskCount) w.

Definition logBatchEnd (write_ok : bool) (ok failed : nat) (total : Z) (w : World) : World :=
  append_log write_ok (BatchEnd ok failed total) w.

End Logger.

(** ** logger.ts: the text of logs.txt *)
Module LogText.
Import JS AccountManager Logger.

(** What [formatTimestamp] reads from a [Date], in local time; [month]
    is [getMonth()], from 0. *)
Record DateFields := {
  fullYear : Z;
  month : N;
  day : N;
  hours : N;
  minutes : N;
  seconds : N
}.

(** [s.padStart(2, '0')]. *)
Definition padStart2 (s : jsstring) : jsstring :=
  match s with
  | [] => [48; 48]%N
  | [c] => [48%N; c]
  | _ => s
  end.

(** [formatTimestamp(date)]. *)
Definition formatTimestamp (d : DateFields) : jsstring :=
  string_of_Z (fullYear d) ++ js "-"
  ++ padStart2 (string_of_N (month d + 1)) ++ js "-"
  ++ padStart2 (string_of_N (day d)) ++ js " "
  ++ padStart2 (string_of_N (hours d)) ++ js ":"
  ++ padStart2 (string_of_N (minutes d)) ++ js ":"
  ++ padStart2 (string_of_N (seconds d)).

(** [Math.round(ms / 1000)] for a whole number of milliseconds. *)
Definition round_seconds (ms : Z) : Z := (ms + 500) / 1000.

(** The words of the log lines: task succeeded, task failed, batch
    started, unknown error. *)
Definition success_mark : jsstring := [25191; 34892; 25104; 21151]%N.
Definition failure_mark : jsstring := [25191; 34892; 22833; 36133]%N.
Definition batch_mark : jsstring := [24320; 22987; 25209; 37327; 20219; 21153]%N.
Definition unknown_error : jsstring := [26410; 30693; 38169; 35823]%N.

(** The three local constants of [logTaskResult]: a duration of 0 is
    falsy and prints nothing, and so does an attempt count of 1; an
    empty error message is replaced. *)
Definition durationInfo (result : TaskResult) : jsstring :=
  match duration result with
  | Some d =>
      if d =? 0 then []
      else js " (" ++ [32791; 26102]%N ++ js ": "
           ++ string_of_Z (round_seconds d) ++ [31186]%N ++ js ")"
  | None => []
  end.

Definition attemptsInfo (result : TaskResult) : jsstring :=
  if attempts result >? 1
  then js " (" ++ [23581; 35797]%N ++ string_of_Z (attempts result)
       ++ [27425]%N ++ js ")"
  else [].

Definition errorMessage (result : TaskResult) : jsstring :=
  match result_error result with
  | Some (c :: msg) => c :: msg
  | _ => unknown_error
  end.

(** The line [logTaskResult(result)] appends; [local] gives the local
    date fields of a time stamp. *)
Definition task_text (local : Z -> DateFields) (result : TaskResult) : jsstring :=
  let timestamp := formatTimestamp (local (Logger.timestamp result)) in
  let logEntry :=
    if success result then
      result_email result ++ js "  " ++ success_mark
      ++ durationInfo result ++ attemptsInfo result
    else
      result_email result ++ js "  " ++ failure_mark ++ [65306%N]
      ++ errorMessage result ++ attemptsInfo result in
  js "[" ++ timestamp ++ js "] " ++ logEntry ++ [10%N].

(** What [logBatchStart(taskCount)] and [logBatchEnd(summary)] append at
    the time [now]. *)
Definition batch_start_text (now : DateFields) (taskCount : nat) : jsstring :=
  [10%N] ++ js "=== [" ++ formatTimestamp now ++ js "] " ++ batch_mark ++ js " ("
  ++ string_of_N (N.of_nat taskCount) ++ [20010; 20219; 21153]%N ++ js ") ==="
  ++ [10%N].

Definition batch_end_text (now : DateFields) (successCount failedCount : nat)
    (totalDuration : Z) : jsstring :=
  js "=== [" ++ formatTimestamp now ++ js "] "
  ++ [25209; 37327; 20219; 21153; 23436; 25104]%N ++ js " - "
  ++ [25104; 21151]%N ++ js ":" ++ string_of_N (N.of_nat successCount) ++ js " "
  ++ [22833; 36133]%N ++ js ":" ++ string_of_N (N.of_nat failedCount) ++ js " "
  ++ [24635; 32791; 26102]%N ++ js ":" ++ string_of_Z (round_seconds totalDuration)
  ++ [31186]%N ++ js " ===" ++ [10; 10]%N.

(** The text one entry of the log adds to the file; [now] is the time of
    the call, which the batch lines print. *)
Definition entry_text (local : Z -> DateFields) (e : DateFields * LogEntry) : jsstring :=
  match e with
  | (_, TaskLine r) => task_text local r
  | (now, BatchStart taskCount) => batch_start_text now taskCount
  | (now, BatchEnd ok failed total) => batch_end_text now ok failed total
  end.

(** logs.txt after the given appends to an empty file. *)
Definition log_text (local : Z -> DateFields) (entries : list (DateFields * LogEntry))
  : jsstring :=
  concat (map (entry_text local) entries).

(** [content.trim().split('\n').filter(line => line.trim())]. *)
Definition log_lines (content : jsstring) : list jsstring :=
  List.filter (fun line => truthy (trim line)) (split 10%N (trim content)).

(** [Array.prototype.slice(start)]. *)
Definition slice_from {A} (start : Z) (l : list A) : list A :=
  let len := Z.of_nat (length l) in
  let k := if start <? 0 then Z.max (len + start) 0 else Z.min start len in
  drop (Z.to_nat k) l.

(** [getRecentLogs(lineCount)]; [content] is [None] when logs.txt cannot
    be read. *)
Definition getRecentLogs (content : option jsstring) (lineCount : Z) : list jsstring :=
  match content with
  | Some content => slice_from (- lineCount) (log_lines content)
  | None => []
  end.

End LogText.

(** ** scripts/logs.ts *)
Module LogsScript.
Import JS AccountManager LogText.

Record Stats := {
  totalLines : nat;
  successCount : nat;
  failureCount : nat;
  batchCount : nat
}.

(** The body of [lines.forEach] in [showStats]. *)
Definition tally (st : Stats) (line : jsstring) : Stats :=
  if includes line success_mark then
    {| totalLines := totalLines st; successCount := S (successCount st);
       failureCount := failureCount st; batchCount := batchCount st |}
  else if includes line failure_mark then
    {| totalLines := totalLines st; successCount := successCount st;
       failureCount := S (failureCount st); batchCount := batchCount st |}
  else if includes line batch_mark then
    {| totalLines := totalLines st; successCount := successCount st;
       failureCount := failureCount st; batchCount := S (batchCount st) |}
  else st.

(** The numbers [showStats()] prints for a readable logs.txt. *)
Definition showStats (content : jsstring) : Stats :=
  let lines := log_lines content in
  fold_left tally lines
    {| totalLines := length lines; successCount := 0; failureCount := 0;
       batchCount := 0 |}.

(** The bytes a code unit takes in a UTF-8 file: the two halves of a
    surrogate pair share the four bytes of their character. *)
Definition utf8_units (c : jschar) : nat :=
  if (c <? 128)%N then 1
  else if (c <? 2048)%N then 2
  else if (55296 <=? c)%N && (c <=? 57343)%N then 2
  else 3.

(** [stats.size] of a file that holds the text [content]. *)
Definition utf8_length (content : jsstring) : nat :=
  list_sum (map utf8_units content).

(** What [tailLogs()] prints at first for a file with the text
    [content]: the non-blank ones among the last ten lines. *)
Definition tail_first (content : jsstring) : list jsstring :=
  let lines := split 10%N (trim content) in
  let recentLines := slice_from (-10) lines in
  List.filter (fun line => truthy (trim line)) recentLines.

(** One round of the interval of [tailLogs()]: [lastSize] is the file
    size seen before, [content] the text of the file now. The result is
    the lines printed and the new [lastSize]. *)
Definition tail_tick (lastSize : nat) (content : jsstring) : list jsstring * nat :=
  let size := utf8_length content in
  if (lastSize <? size)%nat then
    let newContent := drop lastSize content in
    (List.filter (fun line => truthy (trim line)) (split 10%N newContent), size)
  else ([], lastSize).

End LogsScript.

(** ** index.ts *)
Module Index.
Import JS AccountManager GoogleLogin Logger.

Inductive LaunchOutcome :=
| Launched
| LaunchFailed (msg : jsstring).   (* start-up timeout or connect failure *)

(** What the outside answers during one call of [main]. *)
Record MainEnv := {
  accounts_file : option jsstring;  (* accounts.txt, [None] if unreadable *)
  launch : LaunchOutcome;
  script : PageScript
}.

Definition no_accounts_message : jsstring :=
  [27809; 26377; 21487; 29992; 30340; 36134; 25143; 20449; 24687; 65292;
   35831; 26816; 26597; 32; 97; 99; 99; 111; 117; 110; 116; 115; 46; 116;
   120; 116; 32; 25991; 20214]%N.

Definition load_failed_message : jsstring :=
  [26080; 27861; 21152; 36733; 36134; 25143; 25991; 20214; 32; 97; 99; 99;
   111; 117; 110; 116; 115; 46; 116; 120; 116]%N.

(** [email.replaceAll("@", "_").replaceAll(".", "_").trim()]: the folder
    of an account under ./profiles. *)
Definition profile_folder (e : jsstring) : jsstring :=
  trim (replaceAll 46%N 95%N (replaceAll 64%N 95%N e)).

(** The account [main] logs in with: the one passed in, or else the next
    one of the account manager (loading accounts.txt first if none is
    loaded). *)
Definition resolve_account (accountInfo : option AccountInfo) (env : MainEnv)
    (st : Store) : (AccountInfo + jsstring) * Store :=
  match accountInfo with
  | Some a => (inl a, st)
  | None =>
      let loaded :=
        if (getTotalAccountCount st =? 0)%nat then
          match accounts_file env with
          | Some content => inl (loadAccounts content st)
          | None => inr load_failed_message
          end
        else inl st in
      match loaded with
      | inr msg => (inr msg, st)
      | inl st1 =>
          match getNextAccount st1 with
          | (Some a, st2) => (inl a, st2)
          | (None, st2) => (inr no_accounts_message, st2)
          end
      end
  end.

(** [main(sessionId, accountInfo)]. The result is [None] while the login
    flow has not settled; otherwise the error message thrown ([None] for
    a normal return), the account manager and the world afterwards. The
    new session is the last one of [sessions]. *)
Definition main (accountInfo : option AccountInfo) (env : MainEnv)
    (st : Store) (w : World) : option (option jsstring * Store * World) :=
  match resolve_account accountInfo env st with
  | (inr msg, st') => Some (Some msg, st', w)
  | (inl loginAccount, st') =>
      let spawned (client : bool) (alive : bool) : World :=
        set_sessions
          (sessions w ++ [{| session_email := email loginAccount;
                             process_alive := alive;
                             client_open := client |}])
          (set_profileDirs
             ({[ profile_folder (email loginAccount) ]} ∪ profileDirs w) w) in
      match launch env with
      | LaunchFailed msg => Some (Some msg, st', spawned false true)
      | Launched =>
          match performGoogleLogin (Some loginAccount) (script env) with
          | None => None
          | Some None => Some (None, st', spawned true true)
          | Some (Some e) =>
              (* [browserSession.process.kill(); browserSession.browser.close()] *)
              Some (Some (message e), st', spawned false false)
          end
      end
  end.

End Index.

(** ** pool.ts *)
Module Pool.
Import JS AccountManager GoogleLogin Logger Index.

Inductive TaskStatus := PENDING | RUNNING | COMPLETED | FAILED.

Record Task := {
  id : jsstring;
  status : TaskStatus;
  startTime : option Z;
  endTime : option Z;
  error : option jsstring;
  account : option AccountInfo
}.

(** The fields of a [TaskPool] object. *)
Record TaskPool := {
  poolSize : nat;
  tasks : list Task;
  runningTasks : gset jsstring;
  completedTasks : nat;
  failedTasks : nat;
  batchStartTime : Z
}.

(** [new TaskPool(config)]. *)
Definition new_TaskPool (size : nat) : TaskPool :=
  {| poolSize := size; tasks := []; runningTasks := ∅;
     completedTasks := 0; failedTasks := 0; batchStartTime := 0 |}.


Definition set_tasks (l : list Task) (p : TaskPool) : TaskPool :=
  {| poolSize := poolSize p; tasks := l; runningTasks := runningTasks p;
     completedTasks := completedTasks p; failedTasks := failedTasks p;
     batchStartTime := batchStartTime p |}.

Definition set_runningTasks (r : gset jsstring) (p : TaskPool) : TaskPool :=
  {| poolSize := poolSize p; tasks := tasks p; runningTasks := r;
     completedTasks := completedTasks p; failedTasks := failedTasks p;
     batchStartTime := batchStartTime p |}.

Definition count_outcome (ok : bool) (p : TaskPool) : TaskPool :=
  {| poolSize := poolSize p; tasks := tasks p; runningTasks := runningTasks p;
     completedTasks := if ok then S (completedTasks p) else completedTasks p;
     failedTasks := if ok then failedTasks p else S (failedTasks p);
     batchStartTime := batchStartTime p |}.

Definition set_batchStartTime (now : Z) (p : TaskPool) : TaskPool :=
  {| poolSize := poolSize p; tasks := tasks p; runningTasks := runningTasks p;
     completedTasks := completedTasks p; failedTasks := failedTasks p;
     batchStartTime := now |}.

(** [`task-${i}-${Date.now()}`]. *)
Definition task_id (i : nat) (now : Z) : jsstring :=
  js "task-" ++ string_of_N (N.of_nat i) ++ js "-" ++ string_of_Z now.

Definition new_task (i : nat) (now : Z) (a : AccountInfo) : Task :=
  {| id := task_id i now; status := PENDING; startTime := None;
     endTime := None; error := None; account := Some a |}.

(** The [for] loop of [addTasks], from index [i] with [count] iterations
    to go; [clock i] is [Date.now()] in iteration [i]. *)
Fixpoint addTasks_loop (clock : nat -> Z) (i count : nat)
    (queue : list Task) (st : Store) (w : World) : list Task * Store * World :=
  match count with
  | O => (queue, st, w)
  | S count' =>
      match getNextAccount st with
      | (None, st') =>
          addTasks_loop clock (S i) count' queue st' (print (SkippedTask i) w)
      | (Some a, st') =>
          addTasks_loop clock (S i) count' (queue ++ [new_task i (clock i) a])
            (markAccountAsUsed (email a) st') w
      end
  end.

(** What the outside answers during [addTasks]. *)
Record AddEnv := {
  file : option jsstring;      (* accounts.txt, [None] if unreadable *)
  clock : nat -> Z;
  start_write_ok : bool        (* whether the batch-start line gets written *)
}.

(** [addTasks(taskCount)]: the message of the error thrown, or the pool,
    the account manager and the world afterwards. *)
Definition addTasks (taskCount : nat) (env : AddEnv) (p : TaskPool)
    (st : Store) (w : World) : jsstring + (TaskPool * Store * World) :=
  match file env with
  | None => inl load_failed_message
  | Some content =>
      let st1 := loadAccounts content st in
      if (getTotalAccountCount st1 =? 0)%nat then inl no_accounts_message
      else
        let '(queue, st2, w1) :=
          addTasks_loop (clock env) 1 taskCount (tasks p) st1 w in
        let w2 := print (TasksAdded (length queue)) w1 in
        let w3 :=
          if (length queue <? taskCount)%nat
          then print (ShortfallNote (length queue) taskCount) w2 else w2 in
        inr (set_tasks queue p, st2,
             logBatchStart (start_write_ok env) (length queue) w3)
  end.

(** Where a started [executeTask] call is suspended. *)
Inductive Phase :=
| InMain                       (* [await main(task.id, task.account)] *)
| InLog (r : TaskResult)       (* [await logger.logTaskResult(...)] *)
| InRemove (e : jsstring)      (* [await this.removeAccountProfileFolder(...)] *).

Record Activation := {
  act_task : Task;
  act_phase : Phase
}.

(** Where [run] is: testing the outer loop condition, inside the inner
    admission loop, suspended in [await this.sleep(1000)], or past the
    loop. *)
Inductive Control := LoopHead | Admitting | Sleeping | Done.

Record System := {
  pool : TaskPool;
  store : Store;
  world : World;
  inflight : list Activation;
  control : Control
}.

Definition set_control (c : Control) (s : System) : System :=
  {| pool := pool s; store := store s; world := world s;
     inflight := inflight s; control := c |}.

(** [removeProfilesFolder()] and [removeAccountProfileFolder(email)]:
    errors of [fs.rm] are reported and swallowed. *)
Definition removeProfilesFolder (rm_ok : bool) (w : World) : World :=
  if rm_ok then set_profileDirs ∅ w else w.

Definition removeAccountProfileFolder (rm_ok : bool) (e : jsstring) (w : World) : World :=
  if bool_decide (profile_folder e ∈ profileDirs w) && rm_ok
  then set_profileDirs (profileDirs w ∖ {[ profile_folder e ]}) w
  else w.

(** [run] up to its loop. *)
Definition run_start (rm_ok : bool) (now : Z) (p : TaskPool) (st : Store)
    (w : World) : System :=
  {| pool := set_batchStartTime now p; store := st;
     world := removeProfilesFolder rm_ok w; inflight := []; control := LoopHead |}.

(** [executeTask(task)] up to [await main(...)]: this part runs inside
    the caller's turn. *)
Definition executeTask_begin (now : Z) (task : Task) (s : System) : System :=
  {| pool := set_runningTasks ({[ id task ]} ∪ runningTasks (pool s)) (pool s);
     store := store s;
     world := print (Started (id task)) (world s);
     inflight := inflight s ++
       [{| act_task := {| id := id task; status := RUNNING;
                          startTime := Some now; endTime := endTime task;
                          error := error task; account := account task |};
           act_phase := InMain |}];
     control := control s |}.

(** The inner loop's condition and body. *)
Definition can_start (s : System) : bool :=
  (size (runningTasks (pool s)) <? poolSize (pool s))%nat
  && match tasks (pool s) with [] => false | _ :: _ => true end.

Definition start_next (now : Z) (s : System) : System :=
  match tasks (pool s) with
  | [] => s
  | task :: rest =>
      executeTask_begin now task
        {| pool := set_tasks rest (pool s); store := store s; world := world s;
           inflight := inflight s; control := control s |}
  end.

(** The outer loop's condition. *)
Definition work_left (s : System) : bool :=
  match tasks (pool s) with [] => false | _ :: _ => true end
  || (0 <? size (runningTasks (pool s)))%nat.

Definition settled_task (now : Z) (res : option jsstring) (task : Task) : Task :=
  {| id := id task;
     status := match res with None => COMPLETED | Some _ => FAILED end;
     startTime := startTime task; endTime := Some now;
     error := match res with None => error task | Some msg => Some msg end;
     account := account task |}.

Definition task_result (now : Z) (res : option jsstring) (task : Task)
    (a : AccountInfo) : TaskResult :=
  {| result_email := email a;
     success := match res with None => true | Some _ => false end;
     result_error := res;
     duration := match res with
                 | None => Some (now - default 0 (startTime task))
                 | Some _ => None
                 end;
     attempts := 1;
     timestamp := now |}.

(** [executeTask] from the moment [main] settles to its next suspension:
    the [try] or the [catch] branch up to [await logger.logTaskResult],
    or through [finally] when the task has no account. *)
Definition settle (i : nat) (now : Z) (env : MainEnv) (s : System) : option System :=
  match inflight s !! i with
  | Some {| act_task := task; act_phase := InMain |} =>
      match main (account task) env (store s) (world s) with
      | None => None
      | Some (res, st', w') =>
          let ok := match res with None => true | Some _ => false end in
          let line := match res with
                      | None => Completed (id task)
                      | Some msg => FailedLine (id task) msg
                      end in
          match account task with
          | Some a =>
              Some {| pool := count_outcome ok (pool s); store := st';
                      world := print line w';
                      inflight :=
                        <[ i := {| act_task := settled_task now res task;
                                   act_phase := InLog (task_result now res task a) |} ]>
                          (inflight s);
                      control := control s |}
          | None =>
              Some {| pool := set_runningTasks
                                (runningTasks (pool s) ∖ {[ id task ]})
                                (count_outcome ok (pool s));
                      store := st';
                      world := print line w';
                      inflight := delete i (inflight s);
                      control := control s |}
          end
      end
  | _ => None
  end.

(** From the log write to [await this.removeAccountProfileFolder]. *)
Definition logged (i : nat) (write_ok : bool) (s : System) : option System :=
  match inflight s !! i with
  | Some {| act_task := task; act_phase := InLog r |} =>
      Some {| pool := pool s; store := store s;
              world := logTaskResult write_ok r (world s);
              inflight := <[ i := {| act_task := task;
                                     act_phase := InRemove (result_email r) |} ]>
                            (inflight s);
              control := control s |}
  | _ => None
  end.

(** The folder removal and the [finally] block. *)
Definition removed (i : nat) (rm_ok : bool) (s : System) : option System :=
  match inflight s !! i with
  | Some {| act_task := task; act_phase := InRemove e |} =>
      Some {| pool := set_runningTasks (runningTasks (pool s) ∖ {[ id task ]}) (pool s);
              store := store s;
              world := removeAccountProfileFolder rm_ok e (world s);
              inflight := delete i (inflight s);
              control := control s |}
  | _ => None
  end.

(** [run] after its loop: the batch-end line. *)
Definition finish_run (now : Z) (write_ok : bool) (s : System) : System :=
  {| pool := pool s; store := store s;
     world := logBatchEnd write_ok (completedTasks (pool s)) (failedTasks (pool s))
                (now - batchStartTime (pool s)) (world s);
     inflight := inflight s; control := Done |}.

(** One turn of the event loop. [run] moves between its suspension
    points; started tasks move while [run] sleeps. *)
Inductive step : System -> System -> Prop :=
| step_enter s :
    control s = LoopHead -> work_left s = true ->
    step s (set_control Admitting s)
| step_exit s now write_ok :
    control s = LoopHead -> work_left s = false ->
    step s (finish_run now write_ok s)
| step_start s now :
    control s = Admitting -> can_start s = true ->
    step s (start_next now s)
| step_sleep s :
    control s = Admitting -> can_start s = false ->
    step s (set_control Sleeping s)
| step_wake s :
    control s = Sleeping ->
    step s (set_control LoopHead s)
| step_settle s i now env s' :
    control s = Sleeping -> settle i now env s = Some s' ->
    step s s'
| step_logged s i write_ok s' :
    control s = Sleeping -> logged i write_ok s = Some s' ->
    step s s'
| step_removed s i rm_ok s' :
    control s = Sleeping -> removed i rm_ok s = Some s' ->
    step s s'.

(** The same turns as a function: which turn is taken, with what the
    outside answers in it. *)
Inductive Move :=
| Enter
| Exit (now : Z) (write_ok : bool)
| StartNext (now : Z)
| GoSleep
| Wake
| Settle (i : nat) (now : Z) (env : MainEnv)
| Logged (i : nat) (write_ok : bool)
| Removed (i : nat) (rm_ok : bool).

Definition move (m : Move) (s : System) : option System :=
  match m, control s with
  | Enter, LoopHead => if work_left s then Some (set_control Admitting s) else None
  | Exit now write_ok, LoopHead =>
      if work_left s then None else Some (finish_run now write_ok s)
  | StartNext now, Admitting => if can_start s then Some (start_next now s) else None
  | GoSleep, Admitting => if can_start s then None else Some (set_control Sleeping s)
  | Wake, Sleeping => Some (set_control LoopHead s)
  | Settle i now env, Sleeping => settle i now env s
  | Logged i write_ok, Sleeping => logged i write_ok s
  | Removed i rm_ok, Sleeping => removed i rm_ok s
  | _, _ => None
  end.

Fixpoint moves (l : list Move) (s : System) : option System :=
  match l with
  | [] => Some s
  | m :: l' => match move m s with
               | Some s' => moves l' s'
               | None => None
               end
  end.

(** The states a [run] passes through. *)
Definition reachable (s0 s : System) : Prop := rtc step s0 s.

(** How many task objects are in the running state. *)
Definition is_running (t : Task) : bool :=
  match status t with RUNNING => true | _ => false end.

Definition all_tasks (s : System) : list Task :=
  tasks (pool s) ++ map act_task (inflight s).

Definition running_count (s : System) : nat :=
  length (List.filter is_running (all_tasks s)).

(** A whole [executeTask(task)] call with nothing else interleaved. *)
Definition executeTask (start_time end_time : Z) (env : MainEnv)
    (write_ok rm_ok : bool) (task : Task) (s : System) : option System :=
  let i := length (inflight s) in
  s1 ← settle i end_time env (executeTask_begin start_time task s);
  match account task with
  | None => Some s1
  | Some _ => s2 ← logged i write_ok s1; removed i rm_ok s2
  end.

(** The ids and messages printed on the console. *)
Definition started_ids (c : list ConsoleLine) : list jsstring :=
  omap (fun l => match l with Started i => Some i | _ => None end) c.

Definition settled_ids (c : list ConsoleLine) : list jsstring :=
  omap (fun l => match l with
                 | Completed i | FailedLine i _ => Some i
                 | _ => None
                 end) c.

End Pool.

(** ** The account file in the words of the specification *)
Module AccountFile.
Import JS AccountManager.

(** A line is not empty: it has a character that is not whitespace. *)
Definition non_empty (line : jsstring) : bool :=
  existsb (fun c => negb (is_whitespace c)) line.

(** The number of tab-separated fields of a line. *)
Definition field_count (line : jsstring) : nat :=
  S (length (List.filter (N.eqb 9%N) line)).

Definition field (k : nat) (line : jsstring) : jsstring :=
  nth k (split 9%N line) [].

(** A valid line: non-empty, at least 3 tab-separated fields. *)
Definition valid_line (line : jsstring) : bool :=
  non_empty line && (3 <=? field_count line)%nat.

(** Uppercase-alphanumeric, of length at least 16. *)
Definition uppercase_alnum_16 (s : jsstring) : Prop :=
  Forall (fun c => (65 <= c <= 90)%N \/ (48 <= c <= 57)%N) s
  /\ (16 <= length s)%nat.

(** What one line with at least three fields becomes. *)
Definition credential_of (line : jsstring) : AccountInfo :=
  {| email := trim (field 0 line);
     password := trim (field 1 line);
     twoStepCode := trim (field 2 line);
     isTotp := totp_pattern_test (strip_whitespace (trim (field 2 line))) |}.

End AccountFile.

(** ** Predicates and sample inputs used in the statements *)
Module Shapes.
Import JS AccountManager Logger Index Pool.

(** The stores on which the size test of [getNextAccount] means "every
    account is used": identifiers pairwise distinct, and only identifiers
    of the store marked. *)
Definition distinct_identifiers (st : Store) : Prop :=
  NoDup (map email (accounts st))
  /\ usedAccounts st ⊆ list_to_set (map email (accounts st)).

(** The used-set holds the identifiers of the first [u] accounts. *)
Definition used_prefix (u : nat) (st : Store) : Prop :=
  usedAccounts st = list_to_set (map email (take u (accounts st))).

(** A task as [addTasks] builds it in an iteration below [bound]. *)
Definition built (clock : nat -> Z) (bound : nat) (t : Task) : Prop :=
  exists j a, (j < bound)%nat /\ t = new_task j (clock j) a.

Definition empty_world : World :=
  {| logFile := []; profileDirs := ∅; sessions := []; console := [] |}.

(** A store loaded from a file that lists one identifier twice. *)
Definition duplicate_file : jsstring :=
  js "a@x.com" ++ [9%N] ++ js "pw1" ++ [9%N] ++ js "KEY1" ++ [10%N]
  ++ js "a@x.com" ++ [9%N] ++ js "pw2" ++ [9%N] ++ js "KEY2".

(** The store of the two-account file with both identifiers marked. *)
Definition all_used_store : Store :=
  {| accounts :=
       [ {| email := js "a@x.com"; password := js "pw1";
            twoStepCode := js "K1"; isTotp := false |};
         {| email := js "b@x.com"; password := js "pw2";
            twoStepCode := js "K2"; isTotp := false |} ];
     usedAccounts := {[ js "a@x.com" ]} ∪ ({[ js "b@x.com" ]} ∪ ∅) |}.

(** The same accounts with only the first identifier marked. *)
Definition half_used_store : Store :=
  {| accounts := accounts all_used_store;
     usedAccounts := {[ js "a@x.com" ]} ∪ ∅ |}.

(** A file with two accounts. *)
Definition two_accounts_file : jsstring :=
  js "a@x.com" ++ [9%N] ++ js "pw1" ++ [9%N]
    ++ js "QEJA633DACRGZM25AD6PHHHYB3MWHACW" ++ [10%N]
  ++ js "b@x.com" ++ [9%N] ++ js "pw2" ++ [9%N] ++ js "app pass word".

Definition sample_add_env (content : jsstring) : AddEnv :=
  {| file := Some content; clock := fun i => 1722000000000 + Z.of_nat i;
     start_write_ok := true |}.

(** The URL patterns of the manual-intervention states: recovery-email
    confirmation, email-code verification, phone binding, captcha and
    phone consent. *)
Definition manual_patterns : list jsstring :=
  [ js "challenge/kpe";
    js "challenge/ipe/verify";
    js "challenge/iap";
    js "challenge/recaptcha";
    js "challenge/ipp/consent" ].

(** The test that guards [retryCount++]. *)
Definition matches_noNeedCount (url : jsstring) : bool :=
  existsb (fun _url => includes url _url) GoogleLogin.noNeedCountUrlMatch.

(** What holds of the loop variables at every loop head. *)
Definition driver_inv (st : GoogleLogin.DriverState) : Prop :=
  -1 <= GoogleLogin.retryCount st <= 16
  /\ (includes (GoogleLogin.lastUrl st) (js "signin/identifier") = true ->
      GoogleLogin.retryCount st <= 6)
  /\ (matches_noNeedCount (GoogleLogin.lastUrl st) = true ->
      GoogleLogin.retryCount st = 0).

(** The error the stall ceiling raises on a URL. *)
Definition stall_error (url : jsstring) : GoogleLogin.LoginError :=
  if includes url (js "challenge/pwd") then GoogleLogin.InvalidCredentials
  else if includes url (js "challenge/totp") then GoogleLogin.InvalidSecondFactor
  else GoogleLogin.TooManyRetries.

(** A page that answers one URL and lets every action through. *)
Definition frozen_poll (url : jsstring) : GoogleLogin.Poll :=
  {| GoogleLogin.page_url := url;
     GoogleLogin.authenticator_offered := false;
     GoogleLogin.action_error := None;
     GoogleLogin.manual_answers := [] |}.

Definition password_url : jsstring :=
  js "https://accounts.google.com/v3/signin/challenge/pwd?TL=abc".

Definition identifier_url : jsstring :=
  js "https://accounts.google.com/v3/signin/identifier?flowName=GlifWebSignIn".

Definition sample_account : AccountInfo :=
  {| email := js "a@x.com"; password := js "pw1";
     twoStepCode := js "QEJA633DACRGZM25AD6PHHHYB3MWHACW"; isTotp := true |}.

(** The sleeps one answer of [page.url()] costs inside a manual wait. *)
Definition wait_cost (answer : option jsstring) : list GoogleLogin.Effect :=
  match answer with
  | Some _ => [GoogleLogin.Sleep 1000]
  | None => [GoogleLogin.Sleep 1000; GoogleLogin.Sleep 1000]
  end.

(** An answer that keeps a manual wait going. *)
Definition keeps_waiting (urlPattern : jsstring) (answer : option jsstring) : Prop :=
  match answer with
  | Some url => includes url urlPattern = true
  | None => True
  end.

(** A sample run: three tasks asked for on a file of two accounts, pool
    size 2. *)
Definition sample_added : TaskPool * Store * World :=
  match addTasks 3 (sample_add_env two_accounts_file) (new_TaskPool 2)
          empty_store empty_world with
  | inr r => r
  | inl _ => (new_TaskPool 2, empty_store, empty_world)
  end.

Definition sample_start : System :=
  run_start true 1722000001000 sample_added.1.1 sample_added.1.2 sample_added.2.

(** A page on which the login goes through: identifier, password, then
    the application's home page. *)
Definition success_script : GoogleLogin.PageScript :=
  {| GoogleLogin.before_error := None;
     GoogleLogin.polls :=
       [ frozen_poll identifier_url;
         frozen_poll password_url;
         frozen_poll (js "https://www.hedra.com/app/home") ];
     GoogleLogin.after_error := None |}.

(** A page stuck on the password entry. *)
Definition stuck_script : GoogleLogin.PageScript :=
  {| GoogleLogin.before_error := None;
     GoogleLogin.polls := repeat (frozen_poll password_url) 18;
     GoogleLogin.after_error := None |}.

Definition env_of (script : GoogleLogin.PageScript) : MainEnv :=
  {| accounts_file := None; launch := Launched; Index.script := script |}.

(** All three sample tasks run to their end: the first two at once, the
    third after the first has finished; the second fails. *)
Definition sample_moves : list Move :=
  [ Enter; StartNext 1722000001001; StartNext 1722000001002; GoSleep;
    Settle 0 1722000031000 (env_of success_script);
    Logged 0 true; Removed 0 true;
    Wake; Enter; StartNext 1722000032000; GoSleep;
    Settle 0 1722000050000 (env_of stuck_script);
    Logged 0 true;
    Settle 1 1722000060000 (env_of success_script);
    Removed 0 true; Logged 0 true; Removed 0 true;
    Wake; Exit 1722000061000 true ].

Definition sample_task : Task := new_task 1 1722000000001 sample_account.

(** The sample run after its first two admissions. *)
Definition sample_mid : System :=
  default sample_start (moves (take 3 sample_moves) sample_start).

Definition sample_end : System :=
  default sample_start (moves sample_moves sample_start).

(** The ids of the started tasks whose [main] has not settled. *)
Definition in_main_ids (l : list Activation) : list jsstring :=
  omap (fun a => match act_phase a with
                 | InMain => Some (id (act_task a))
                 | _ => None
                 end) l.

Definition inflight_ids (s : System) : list jsstring :=
  map id (map act_task (inflight s)).

(** What a run has printed and written since it started in [s0]. *)
Definition printed (s0 s : System) : list ConsoleLine :=
  drop (length (console (world s0))) (console (world s)).

Definition written (s0 s : System) : list LogEntry :=
  drop (length (logFile (world s0))) (logFile (world s)).

Definition one_attempt (e : LogEntry) : Prop :=
  match e with
  | TaskLine r => attempts r = 1
  | _ => True
  end.

(** The state in which [run] reaches its loop on a pool that has not run
    yet. *)
Record fresh_start (s0 : System) : Prop := {
  fresh_control : control s0 = LoopHead;
  fresh_inflight : inflight s0 = [];
  fresh_running : runningTasks (pool s0) = ∅;
  fresh_ids : NoDup (map id (tasks (pool s0)));
  fresh_pending : Forall (fun t => status t = PENDING) (tasks (pool s0))
}.

(** What every state of a run from [s0] satisfies. *)
Record pool_inv (s0 s : System) : Prop := {
  inv_size : poolSize (pool s) = poolSize (pool s0);
  inv_nodup : NoDup (map id (tasks (pool s)) ++ inflight_ids s);
  inv_running : runningTasks (pool s) = list_to_set (inflight_ids s);
  inv_pending : Forall (fun t => status t = PENDING) (tasks (pool s));
  inv_bound : (length (inflight s) <= poolSize (pool s))%nat;
  inv_done : control s = Done -> work_left s = false;
  inv_console : console (world s) = console (world s0) ++ printed s0 s;
  inv_queue :
    map id (tasks (pool s0))
    = started_ids (printed s0 s) ++ map id (tasks (pool s));
  inv_settled :
    started_ids (printed s0 s)
    ≡ₚ settled_ids (printed s0 s) ++ in_main_ids (inflight s);
  inv_log : logFile (world s) = logFile (world s0) ++ written s0 s;
  inv_attempts : Forall one_attempt (written s0 s);
  inv_records :
    Forall (fun a => match act_phase a with
                     | InLog r => attempts r = 1
                     | _ => True
                     end) (inflight s)
}.

(** How many tasks the console reports as completed, and as failed. *)
Definition completed_count (c : list ConsoleLine) : nat :=
  length (List.filter (fun l => match l with Completed _ => true | _ => false end) c).

Definition failed_count (c : list ConsoleLine) : nat :=
  length (List.filter (fun l => match l with FailedLine _ _ => true | _ => false end) c).

(** A store in which an identifier is marked that no account has (as
    after a reload of a changed accounts.txt, which keeps the used-set). *)
Definition stale_store : Store :=
  {| accounts := [ {| email := js "a@x.com"; password := js "pw1";
                      twoStepCode := js "K1"; isTotp := false |} ];
     usedAccounts := {[ js "a@x.com" ]} ∪ ({[ js "gone@x.com" ]} ∪ ∅) |}.

(** Three tasks on the file of two accounts, in a pool with room for
    three. *)
Definition crowded_added : TaskPool * Store * World :=
  match addTasks 3 (sample_add_env two_accounts_file) (new_TaskPool 3)
          empty_store empty_world with
  | inr r => r
  | inl _ => (new_TaskPool 3, empty_store, empty_world)
  end.

Definition crowded_start : System :=
  run_start true 1722000001000 crowded_added.1.1 crowded_added.1.2 crowded_added.2.

(** A task as [executeTask] has it while [main] is pending. *)
Definition in_main (now : Z) (task : Task) : Activation :=
  {| act_task := {| id := id task; status := RUNNING; startTime := Some now;
                    endTime := endTime task; error := error task;
                    account := account task |};
     act_phase := InMain |}.

(** The same text with Windows line ends. *)
Definition crlf (s : jsstring) : jsstring :=
  flat_map (fun c => if (c =? 10)%N then [13; 10]%N else [c]) s.

(** A line, or the same line with a carriage return at its end. *)
Definition same_line (l l' : jsstring) : Prop := l' = l \/ l' = l ++ [13%N].

(** The two characters with which the words counted by [showStats]
    begin. *)
Definition is_key (c : jschar) : bool := (c =? 25191)%N || (c =? 24320)%N.

(** A text without these characters. *)
Definition quiet (s : jsstring) : Prop := Forall (fun c => is_key c = false) s.

(** Two lines that [showStats] cannot tell apart. *)
Definition same_marks (l1 l2 : jsstring) : Prop :=
  includes l1 LogText.success_mark = includes l2 LogText.success_mark
  /\ includes l1 LogText.failure_mark = includes l2 LogText.failure_mark
  /\ includes l1 LogText.batch_mark = includes l2 LogText.batch_mark.

(** A log entry whose account identifier and error message are quiet. *)
Definition quiet_entry (e : LogText.DateFields * LogEntry) : Prop :=
  match e with
  | (_, TaskLine r) =>
      quiet (result_email r)
      /\ match result_error r with Some msg => quiet msg | None => True end
  | _ => True
  end.

(** What the entries of a log should count as. *)
Definition count_entry (st : LogsScript.Stats) (e : LogText.DateFields * LogEntry)
  : LogsScript.Stats :=
  match e with
  | (_, TaskLine r) =>
      if success r then
        {| LogsScript.totalLines := LogsScript.totalLines st;
           LogsScript.successCount := S (LogsScript.successCount st);
           LogsScript.failureCount := LogsScript.failureCount st;
           LogsScript.batchCount := LogsScript.batchCount st |}
      else
        {| LogsScript.totalLines := LogsScript.totalLines st;
           LogsScript.successCount := LogsScript.successCount st;
           LogsScript.failureCount := S (LogsScript.failureCount st);
           LogsScript.batchCount := LogsScript.batchCount st |}
  | (_, BatchStart _) =>
      {| LogsScript.totalLines := LogsScript.totalLines st;
         LogsScript.successCount := LogsScript.successCount st;
         LogsScript.failureCount := LogsScript.failureCount st;
         LogsScript.batchCount := S (LogsScript.batchCount st) |}
  | (_, BatchEnd _ _ _) => st
  end.

Definition is_success_entry (e : LogText.DateFields * LogEntry) : bool :=
  match e with (_, TaskLine r) => success r | _ => false end.

Definition is_failure_entry (e : LogText.DateFields * LogEntry) : bool :=
  match e with (_, TaskLine r) => negb (success r) | _ => false end.

Definition is_batch_start (e : LogText.DateFields * LogEntry) : bool :=
  match e with (_, BatchStart _) => true | _ => false end.

Definition sample_date : LogText.DateFields :=
  {| LogText.fullYear := 2024; LogText.month := 6; LogText.day := 26;
     LogText.hours := 9; LogText.minutes := 5; LogText.seconds := 0 |}.

(** The log of the sample run, every line stamped with the sample
    date. *)
Definition sample_log : list (LogText.DateFields * LogEntry) :=
  map (fun e => (sample_date, e)) (logFile (world sample_end)).

(** How many calls of [checkPort()] a timeout allows: never less than
    one. *)
Definition probe_budget (timeout : Z) : nat :=
  Z.to_nat (Z.max 1 (Utils.maxAttempts timeout)).

(** Characters that end up as an underscore in a profile folder name. *)
Definition folder_blank (c : jschar) : bool :=
  (c =? 64)%N || (c =? 46)%N || (c =? 95)%N.

(** Two identifiers that differ only in where they have '@', '.' and
    '_'. *)
Definition same_folder_shape (e1 e2 : jsstring) : Prop :=
  Forall2 (fun c d => c = d \/ (folder_blank c = true /\ folder_blank d = true))
    e1 e2.

(** The answer of [page.url()] that ends the login loop: a URL outside
    accounts.google.com that is neither of the two redirects. *)
Definition off_login_domain (p : GoogleLogin.Poll) : Prop :=
  let url := split_head 63%N (GoogleLogin.page_url p) in
  startsWith url (js "https://accounts.google.com/") = false
  /\ includes url (js "challenge/ipp/verify") = false
  /\ includes url (js "accounts/SetSID") = false.

(** What a batch-end line of the log says about the state that wrote
    it. *)
Definition summary_of (s : System) (e : LogEntry) : Prop :=
  match e with
  | BatchEnd ok failed _ =>
      control s = Done
      /\ ok = completedTasks (pool s)
      /\ failed = failedTasks (pool s)
  | _ => True
  end.

(** The counters of the pool agree with the console, and a batch-end
    line is written only by the turn that ends the run, with the
    counters of that moment. *)
Record count_inv (s0 s : System) : Prop := {
  cnt_completed :
    completedTasks (pool s)
    = (completedTasks (pool s0) + completed_count (printed s0 s))%nat;
  cnt_failed :
    failedTasks (pool s)
    = (failedTasks (pool s0) + failed_count (printed s0 s))%nat;
  cnt_summary : Forall (summary_of s) (written s0 s)
}.


(** An outside in which no browser ever comes up: every [main] settles,
    with an error. *)
Definition no_browser_env : MainEnv :=
  {| accounts_file := None;
     launch := LaunchFailed (js "browser start-up timed out");
     Index.script := stuck_script |}.

End Shapes.

(** * Properties *)

Module BrowserManagerFacts.
Import JS BrowserManager.

Example position_9222 :
  calculateWindowPosition 9222 (Some (js "user1@gmail.com"))
  = {| x := 200; y := 170 |}.
Proof. vm_compute. reflexivity. Qed.

(** C10. [calculateWindowPosition] is a function of [(port, email)]
    alone: equal arguments give equal coordinates, and for every port
    and every email the coordinates satisfy 50 <= x <= 790 and
    50 <= y <= 260. *)
Theorem calculateWindowPosition_pure_bounded (port : Z) (email : option jsstring) :
  (forall port' email',
      port' = port -> email' = email ->
      calculateWindowPosition port' email' = calculateWindowPosition port email)
  /\ 50 <= x (calculateWindowPosition port email) <= 790
  /\ 50 <= y (calculateWindowPosition port email) <= 260.
Proof.
  split; [intros ? ? -> ->; reflexivity|].
  unfold calculateWindowPosition, rem; cbn [x y].
  match goal with |- context [Z.rem (Z.abs ?h) 8] => set (hx := h) end.
  pose proof (Z.rem_bound_pos (Z.abs hx) 8 (Z.abs_nonneg _) eq_refl) as Hx.
  pose proof (Z.rem_bound_pos (Z.abs (sar hx 8)) 6 (Z.abs_nonneg _) eq_refl) as Hy.
  lia.
Qed.

Lemma calculateWindowPosition_pure_bounded_witness :
  calculateWindowPosition 9222 (Some (js "a@b.c"))
  = calculateWindowPosition 9222 (Some (js "a@b.c")).
Proof.
  exact (proj1 (calculateWindowPosition_pure_bounded 9222 (Some (js "a@b.c")))
           9222 (Some (js "a@b.c")) eq_refl eq_refl).
Defined.

End BrowserManagerFacts.

(** ** Strings *)
Module JSFacts.
Import JS.

Lemma split_length sep s :
  length (split sep s) = S (length (List.filter (N.eqb sep) s)).
Proof.
  induction s as [|c s IH]; [reflexivity|].
  cbn [split List.filter]. rewrite (N.eqb_sym sep c).
  destruct (N.eqb c sep); cbn [length].
  - now rewrite IH.
  - destruct (split sep s); [discriminate IH | exact IH].
Qed.

Lemma trimStart_nil s :
  trimStart s = [] <-> forallb is_whitespace s = true.
Proof.
  induction s as [|c s IH]; cbn [trimStart forallb]; [tauto|].
  destruct (is_whitespace c); cbn [andb]; [exact IH | split; discriminate].
Qed.

Lemma forallb_rev {A} (f : A -> bool) l : forallb f (rev l) = forallb f l.
Proof.
  induction l as [|a l IH]; [reflexivity|].
  cbn [rev forallb]. rewrite forallb_app, IH. cbn [forallb].
  rewrite andb_true_r. apply andb_comm.
Qed.

Lemma trimStart_blank_iff s :
  forallb is_whitespace (trimStart s) = forallb is_whitespace s.
Proof.
  induction s as [|c s IH]; [reflexivity|].
  cbn [trimStart]. destruct (is_whitespace c) eqn:E.
  - cbn [forallb]. now rewrite E, IH.
  - reflexivity.
Qed.

(** A line trims to the empty string exactly when all its characters
    are whitespace. *)
Lemma trim_nil s : trim s = [] <-> forallb is_whitespace s = true.
Proof.
  unfold trim, trimEnd. split.
  - intros H. apply (f_equal (@rev _)) in H. rewrite rev_involutive in H.
    cbn [rev] in H. apply trimStart_nil in H.
    now rewrite forallb_rev, trimStart_blank_iff in H.
  - intros H.
    assert (E : trimStart (rev (trimStart s)) = []).
    { apply trimStart_nil. now rewrite forallb_rev, trimStart_blank_iff. }
    now rewrite E.
Qed.

Lemma strip_whitespace_app s t :
  strip_whitespace (s ++ t) = strip_whitespace s ++ strip_whitespace t.
Proof. apply List.filter_app. Qed.

Lemma strip_whitespace_rev s :
  strip_whitespace (rev s) = rev (strip_whitespace s).
Proof.
  induction s as [|c s IH]; [reflexivity|].
  cbn [rev]. rewrite strip_whitespace_app, IH.
  unfold strip_whitespace. cbn [List.filter].
  destruct (negb (is_whitespace c)); cbn [rev]; [reflexivity|].
  apply app_nil_r.
Qed.

Lemma strip_whitespace_trimStart s :
  strip_whitespace (trimStart s) = strip_whitespace s.
Proof.
  induction s as [|c s IH]; [reflexivity|].
  cbn [trimStart]. destruct (is_whitespace c) eqn:E; [|reflexivity].
  rewrite IH. unfold strip_whitespace. cbn [List.filter]. now rewrite E.
Qed.

(** Trimming a field does not change what is left of it once all
    whitespace is stripped. *)
Lemma strip_whitespace_trim s : strip_whitespace (trim s) = strip_whitespace s.
Proof.
  unfold trim, trimEnd.
  rewrite strip_whitespace_rev, strip_whitespace_trimStart,
    strip_whitespace_rev, rev_involutive.
  apply strip_whitespace_trimStart.
Qed.

End JSFacts.

(** ** The account store *)
Module AccountManagerFacts.
Import JS JSFacts AccountManager AccountFile Shapes.

Lemma class_run_spec cls s :
  forall n rest, class_run cls s = (n, rest) ->
    (rest = [] -> forallb cls s = true /\ n = length s)
    /\ (rest <> [] -> forallb cls s = false).
Proof.
  induction s as [|c s IH]; intros n rest H; cbn [class_run] in H.
  - inversion H; subst. split; [now split | congruence].
  - cbn [forallb]. destruct (cls c) eqn:Ec.
    + destruct (class_run cls s) as [m r] eqn:Er. inversion H; subst.
      destruct (IH m rest eq_refl) as [I1 I2]. split.
      * intros Hn. destruct (I1 Hn) as [-> ->]. now split.
      * intros Hn. now rewrite (I2 Hn).
    + inversion H; subst. split; [discriminate | reflexivity].
Qed.

(** The regular expression test, in closed form. *)
Lemma totp_pattern_test_spec s :
  totp_pattern_test s = forallb upper_alnum s && (16 <=? length s)%nat.
Proof.
  unfold totp_pattern_test.
  destruct (class_run upper_alnum s) as [n rest] eqn:E.
  destruct (class_run_spec _ _ _ _ E) as [H1 H2].
  destruct rest as [|c rest].
  - destruct (H1 eq_refl) as [-> ->]. now rewrite andb_true_r.
  - rewrite H2 by discriminate. now rewrite andb_false_r.
Qed.

Lemma upper_alnum_range c :
  upper_alnum c = true <-> (65 <= c <= 90)%N \/ (48 <= c <= 57)%N.
Proof.
  unfold upper_alnum.
  rewrite orb_true_iff, !andb_true_iff, !N.leb_le. tauto.
Qed.

Lemma totp_pattern_test_iff s :
  totp_pattern_test s = true <-> uppercase_alnum_16 s.
Proof.
  rewrite totp_pattern_test_spec, andb_true_iff, Nat.leb_le.
  unfold uppercase_alnum_16. rewrite forallb_forall, List.Forall_forall.
  split; intros [H1 H2]; (split; [|exact H2]); intros c Hc;
    apply upper_alnum_range, H1, Hc.
Qed.

Lemma truthy_trim line : truthy (trim line) = non_empty line.
Proof.
  unfold non_empty. destruct (trim line) as [|c l] eqn:E; cbn [truthy].
  - apply trim_nil in E. symmetry. apply not_true_is_false. intros Hex.
    apply existsb_exists in Hex. destruct Hex as (c & Hc & Hw).
    rewrite forallb_forall in E. rewrite (E c Hc) in Hw. discriminate.
  - symmetry.
    destruct (existsb (fun c0 => negb (is_whitespace c0)) line) eqn:Hex;
      [reflexivity|].
    assert (Hall : forallb is_whitespace line = true).
    { apply forallb_forall. intros x Hx.
      destruct (is_whitespace x) eqn:Ex; [reflexivity|].
      assert (Hc : existsb (fun c0 => negb (is_whitespace c0)) line = true).
      { apply existsb_exists. exists x. now rewrite Ex. }
      congruence. }
    apply trim_nil in Hall. congruence.
Qed.

Lemma parse_line_spec line :
  parse_line line =
  if (3 <=? field_count line)%nat then Some (credential_of line) else None.
Proof.
  unfold parse_line, field_count, credential_of, field.
  rewrite length_map. rewrite <- (split_length 9%N line).
  destruct (split 9%N line) as [|a [|b [|c l]]]; reflexivity.
Qed.

Lemma parseAccounts_spec content :
  parseAccounts content
  = map credential_of (List.filter valid_line (split 10%N content)).
Proof.
  unfold parseAccounts. induction (split 10%N content) as [|line lines IH].
  - reflexivity.
  - cbn [List.filter]. unfold valid_line at 1. rewrite truthy_trim.
    destruct (non_empty line); cbn [andb]; [|exact IH].
    cbn [omap list_omap]. rewrite parse_line_spec.
    destruct (3 <=? field_count line)%nat; cbn [map]; [|exact IH].
    f_equal. exact IH.
Qed.

Example parse_readme_accounts :
  map (fun a => (email a, isTotp a))
    (parseAccounts
       (js "user1@gmail.com" ++ [9%N] ++ js "password123" ++ [9%N]
          ++ js "QEJA633DACRGZM25AD6PHHHYB3MWHACW" ++ [10%N]
        ++ js "user2@gmail.com" ++ [9%N] ++ js "password456" ++ [9%N]
          ++ js "u5pg omhv bx23 stji 7wrw jesx l4ja lfz7" ++ [10%N]
        ++ [10%N]
        ++ js "only" ++ [9%N] ++ js "two" ++ [10%N]))
  = [(js "user1@gmail.com", true); (js "user2@gmail.com", false)].
Proof. vm_compute. reflexivity. Qed.

(** C4. For every account-file text, [parseAccounts] yields exactly as
    many credentials as the text has valid lines (non-empty, at least 3
    tab-separated fields), one per valid line and in order; each takes its
    fields from its line, and is classified as a TOTP secret if and only
    if the third field, with all whitespace stripped, is
    uppercase-alphanumeric of length at least 16. *)
Theorem parseAccounts_valid_lines (content : jsstring) :
  let valid := List.filter valid_line (split 10%N content) in
  length (parseAccounts content) = length valid
  /\ Forall2
       (fun line a =>
          email a = trim (field 0 line)
          /\ password a = trim (field 1 line)
          /\ twoStepCode a = trim (field 2 line)
          /\ (isTotp a = true <->
              uppercase_alnum_16 (strip_whitespace (field 2 line))))
       valid (parseAccounts content).
Proof.
  cbv zeta. rewrite parseAccounts_spec. split; [apply length_map|].
  induction (List.filter valid_line (split 10%N content)) as [|line l IH];
    cbn [map]; constructor; [|exact IH].
  cbn [credential_of email password twoStepCode isTotp].
  rewrite strip_whitespace_trim, totp_pattern_test_iff. tauto.
Qed.

(** *** [getNextAccount] and [markAccountAsUsed] *)

Lemma is_unused_true used a : is_unused used a = true <-> email a ∉ used.
Proof.
  unfold is_unused. rewrite negb_true_iff, bool_decide_eq_false. reflexivity.
Qed.

Lemma is_unused_false used a : is_unused used a = false <-> email a ∈ used.
Proof.
  unfold is_unused. rewrite negb_false_iff, bool_decide_eq_true. reflexivity.
Qed.

(** [find] returns the first account whose identifier is not in the
    used-set. *)
Lemma find_unused_first used l a :
  List.find (is_unused used) l = Some a <->
  exists l1 l2, l = l1 ++ a :: l2
                /\ (forall b, b ∈ l1 -> email b ∈ used) /\ email a ∉ used.
Proof.
  induction l as [|c l IH]; cbn [List.find].
  - split; [discriminate|]. intros (l1 & l2 & E & _). now destruct l1.
  - destruct (is_unused used c) eqn:Ec.
    + apply is_unused_true in Ec. split.
      * intros [= ->]. exists [], l. split; [reflexivity|]. split; [|exact Ec].
        intros b Hb. inversion Hb.
      * intros (l1 & l2 & E & Hused & Hfree). destruct l1 as [|d l1].
        -- now inversion E.
        -- inversion E; subst. exfalso. apply Ec, Hused. left.
    + apply is_unused_false in Ec. rewrite IH. split.
      * intros (l1 & l2 & -> & Hused & Hfree). exists (c :: l1), l2.
        split; [reflexivity|]. split; [|exact Hfree].
        intros b Hb. apply elem_of_cons in Hb as [->|Hb]; auto.
      * intros (l1 & l2 & E & Hused & Hfree). destruct l1 as [|d l1].
        -- inversion E; subst. contradiction.
        -- inversion E; subst. exists l1, l2. split; [reflexivity|].
           split; [|exact Hfree]. intros b Hb. apply Hused. now right.
Qed.

Lemma find_unused_none used l :
  List.find (is_unused used) l = None <-> forall b, b ∈ l -> email b ∈ used.
Proof.
  induction l as [|c l IH]; cbn [List.find].
  - split; [|reflexivity]. intros _ b Hb. inversion Hb.
  - destruct (is_unused used c) eqn:Ec.
    + apply is_unused_true in Ec. split; [discriminate|].
      intros H. exfalso. apply Ec, H. left.
    + apply is_unused_false in Ec. rewrite IH. split.
      * intros H b Hb. apply elem_of_cons in Hb as [->|Hb]; auto.
      * intros H b Hb. apply H. now right.
Qed.

Lemma all_used_size st :
  distinct_identifiers st ->
  (forall b, b ∈ accounts st -> email b ∈ usedAccounts st) ->
  size (usedAccounts st) = length (accounts st).
Proof.
  intros [Hnd Hsub] Hall.
  assert (E : usedAccounts st = list_to_set (map email (accounts st))).
  { apply set_eq. intros e. split; [apply Hsub|].
    rewrite elem_of_list_to_set, list_elem_of_fmap.
    intros (b & -> & Hb). now apply Hall. }
  rewrite E, size_list_to_set by exact Hnd. apply length_map.
Qed.

(** On such a store, [getNextAccount] answers [null] only if the store
    is empty; when every account is used it clears the used-set and
    returns the first account. *)
Lemma getNextAccount_cycle st :
  distinct_identifiers st ->
  (forall b, b ∈ accounts st -> email b ∈ usedAccounts st) ->
  getNextAccount st
  = (head (accounts st), {| accounts := accounts st; usedAccounts := ∅ |}).
Proof.
  intros Hwf Hall. unfold getNextAccount.
  rewrite (proj2 (find_unused_none _ _) Hall).
  rewrite (all_used_size st Hwf Hall), Nat.eqb_refl. reflexivity.
Qed.

Lemma getNextAccount_none_empty st :
  distinct_identifiers st ->
  fst (getNextAccount st) = None -> accounts st = [].
Proof.
  intros Hwf. unfold getNextAccount.
  destruct (List.find _ _) as [a|] eqn:E; [discriminate|].
  rewrite (all_used_size st Hwf (proj1 (find_unused_none _ _) E)), Nat.eqb_refl.
  cbn [fst]. now destruct (accounts st).
Qed.

Lemma used_prefix_distinct u st :
  NoDup (map email (accounts st)) -> used_prefix u st ->
  distinct_identifiers st.
Proof.
  intros Hnd Hu. split; [exact Hnd|]. rewrite Hu. intros e.
  rewrite !elem_of_list_to_set, !list_elem_of_fmap.
  intros (b & -> & Hb). exists b. split; [reflexivity|].
  eapply subseteq_take, Hb.
Qed.

(** With [u] accounts used, the next account is number [u mod K]; once it
    is marked, [u mod K + 1] accounts are used. *)
Lemma getNextAccount_prefix st u :
  NoDup (map email (accounts st)) ->
  used_prefix u st ->
  (u <= length (accounts st))%nat ->
  accounts st <> [] ->
  exists a,
    accounts st !! (u mod length (accounts st))%nat = Some a
    /\ fst (getNextAccount st) = Some a
    /\ accounts (snd (getNextAccount st)) = accounts st
    /\ used_prefix (u mod length (accounts st) + 1)
         (markAccountAsUsed (email a) (snd (getNextAccount st))).
Proof.
  intros Hnd Hu Hle Hne.
  destruct (decide (u = length (accounts st))) as [->|Hlt].
  - rewrite Nat.Div0.mod_same.
    assert (Hall : forall b, b ∈ accounts st -> email b ∈ usedAccounts st).
    { intros b Hb. rewrite Hu, take_ge by reflexivity.
      rewrite elem_of_list_to_set, list_elem_of_fmap. eauto. }
    rewrite (getNextAccount_cycle st (used_prefix_distinct _ _ Hnd Hu) Hall).
    destruct (accounts st) as [|a0 l]; [congruence|].
    exists a0. cbn [fst snd head accounts].
    split; [reflexivity|]. split; [reflexivity|]. split; [reflexivity|].
    unfold used_prefix. cbn. set_solver.
  - assert (Hu' : (u < length (accounts st))%nat) by lia.
    rewrite Nat.mod_small by exact Hu'.
    destruct (lookup_lt_is_Some_2 _ _ Hu') as [a Ha].
    exists a. split; [exact Ha|].
    assert (Hfind : List.find (is_unused (usedAccounts st)) (accounts st) = Some a).
    { apply find_unused_first. exists (take u (accounts st)), (drop (S u) (accounts st)).
      split; [symmetry; now apply take_drop_middle|]. split.
      - intros b Hb. rewrite Hu, elem_of_list_to_set, list_elem_of_fmap. eauto.
      - rewrite Hu, elem_of_list_to_set.
        rewrite <- (take_drop_middle _ _ _ Ha), map_app in Hnd.
        apply NoDup_app in Hnd as (_ & Hdisj & _).
        intros Hin. apply (Hdisj _ Hin). cbn [map]. left. }
    unfold getNextAccount. rewrite Hfind. cbn [fst snd].
    split; [reflexivity|]. split; [reflexivity|].
    unfold used_prefix. cbn [markAccountAsUsed usedAccounts accounts].
    rewrite Nat.add_1_r, (take_S_r _ _ _ Ha), map_app, list_to_set_app_L, Hu.
    cbn [map list_to_set foldr]. rewrite (right_id_L ∅ (∪)). apply (comm_L (∪)).
Qed.

(** C3, at a store whose file lists the identifier a@x.com twice: the
    first [getNextAccount] returns the first credential; once that
    identifier is marked used, both credentials are used, yet the
    following call returns [null] on a non-empty store and does not clear
    the used-set. *)
Theorem getNextAccount_duplicate_identifier :
  let st0 := loadAccounts duplicate_file empty_store in
  let st1 := markAccountAsUsed (js "a@x.com") (snd (getNextAccount st0)) in
  length (accounts st0) = 2%nat
  /\ email <$> fst (getNextAccount st0) = Some (js "a@x.com")
  /\ (forall b, b ∈ accounts st1 -> email b ∈ usedAccounts st1)
  /\ getNextAccount st1 = (None, st1)
  /\ usedAccounts st1 = {[ js "a@x.com" ]}.
Proof.
  cbv zeta. split; [|split; [|split; [|split]]].
  - vm_compute. reflexivity.
  - vm_compute. reflexivity.
  - intros b Hb.
    assert (E : email b = js "a@x.com").
    { vm_compute in Hb.
      repeat (apply elem_of_cons in Hb as [->|Hb]); [| |inversion Hb];
        reflexivity. }
    rewrite E. cbn [markAccountAsUsed usedAccounts]. set_solver.
  - vm_compute. reflexivity.
  - vm_compute. reflexivity.
Qed.

End AccountManagerFacts.

(** ** The task pool *)
Module PoolFacts.
Import JS JSFacts AccountManager AccountManagerFacts GoogleLogin Logger Index Pool Shapes.

(** *** Task identifiers *)

Lemma digits_of_uint_inj d d' :
  digits_of_uint d = digits_of_uint d' -> d = d'.
Proof.
  revert d'. induction d; intros d' H; destruct d';
    cbn [digits_of_uint] in H; try discriminate H; try reflexivity;
    injection H as H; f_equal; now apply IHd.
Qed.

Lemma digits_of_uint_no_dash d : Forall (fun c => c <> 45%N) (digits_of_uint d).
Proof. induction d; cbn [digits_of_uint]; constructor; (discriminate || assumption). Qed.

Lemma dash_separates (d1 d2 r1 r2 : jsstring) :
  Forall (fun c => c <> 45%N) d1 -> Forall (fun c => c <> 45%N) d2 ->
  d1 ++ 45%N :: r1 = d2 ++ 45%N :: r2 -> d1 = d2.
Proof.
  intros H1. revert d2. induction H1 as [|c d1 Hc H1 IH]; intros d2 H2 E.
  - destruct H2 as [|c2 d2 Hc2 H2]; [reflexivity|].
    cbn in E. injection E as E _. congruence.
  - destruct H2 as [|c2 d2 Hc2 H2]; cbn in E; injection E as E1 E2.
    + congruence.
    + subst. f_equal. now apply IH.
Qed.

(** Tasks built in different iterations have different ids, whatever the
    clock says. *)
Lemma task_id_inj i j t1 t2 : task_id i t1 = task_id j t2 -> i = j.
Proof.
  unfold task_id. intros H. apply app_inv_head in H.
  change (js "-") with [45%N] in H. cbn [app] in H.
  apply dash_separates in H; try apply digits_of_uint_no_dash.
  apply digits_of_uint_inj, Unsigned.to_uint_inj in H.
  now apply Nat2N.inj.
Qed.

Example task_id_3 : task_id 3 1722000000123 = js "task-3-1722000000123".
Proof. vm_compute. reflexivity. Qed.

(** *** [addTasks] *)

Lemma built_mono clock b b' t : (b <= b')%nat -> built clock b t -> built clock b' t.
Proof. intros Hle (j & a & Hj & ->). exists j, a. split; [lia | reflexivity]. Qed.

(** The loop of [addTasks] extends the queue by at most [count] tasks,
    all pending, with ids not used before; it touches neither the log
    nor the sessions. *)
Lemma addTasks_loop_queue clock count :
  forall i queue st w queue' st' w',
    addTasks_loop clock i count queue st w = (queue', st', w') ->
    Forall (built clock i) queue -> NoDup (map id queue) ->
    Forall (built clock (i + count)) queue'
    /\ NoDup (map id queue')
    /\ (length queue' <= length queue + count)%nat
    /\ logFile w' = logFile w
    /\ sessions w' = sessions w
    /\ profileDirs w' = profileDirs w.
Proof.
  induction count as [|count IH]; intros i queue st w queue' st' w' H Hb Hnd;
    cbn [addTasks_loop] in H.
  - inversion H; subst. rewrite Nat.add_0_r. repeat split; auto with lia.
  - replace (i + S count)%nat with (S i + count)%nat by lia.
    destruct (getNextAccount st) as [[a|] st1].
    + apply IH in H.
      * rewrite length_app in H.
        cbn [length] in H. destruct H as (? & ? & ? & ? & ? & ?).
        repeat split; auto with lia.
      * apply Forall_app. split.
        -- eapply Forall_impl; [exact Hb|]. intros t. apply built_mono. lia.
        -- constructor; [|constructor]. exists i, a. split; [lia|reflexivity].
      * rewrite map_app. apply NoDup_app. split; [exact Hnd|]. split.
        -- intros x Hx Hin. cbn in Hin. apply list_elem_of_singleton in Hin.
           apply list_elem_of_fmap in Hx as (t & -> & Ht).
           rewrite List.Forall_forall in Hb.
           destruct (Hb t (proj1 (list_elem_of_In _ _) Ht)) as (j & b & Hj & ->).
           cbn [new_task id] in Hin. apply task_id_inj in Hin. lia.
        -- cbn. apply NoDup_singleton.
    + apply IH in H.
      * destruct H as (? & ? & ? & ? & ? & ?). repeat split; auto with lia.
      * eapply Forall_impl; [exact Hb|]. intros t. apply built_mono. lia.
      * exact Hnd.
Qed.

(** On a store with pairwise distinct identifiers of which the first [u]
    are used, every iteration finds an account: iteration [k] gets account
    number [(u + k) mod K], and nothing is printed. *)
Lemma addTasks_loop_cycle clock count :
  forall i queue st w u,
    NoDup (map email (accounts st)) ->
    used_prefix u st ->
    (u <= length (accounts st))%nat ->
    accounts st <> [] ->
    exists new st',
      addTasks_loop clock i count queue st w = (queue ++ new, st', w)
      /\ length new = count
      /\ forall k, (k < count)%nat ->
           exists a,
             accounts st !! ((u + k) mod length (accounts st))%nat = Some a
             /\ new !! k = Some (new_task (i + k)%nat (clock (i + k)%nat) a).
Proof.
  induction count as [|count IH]; intros i queue st w u Hnd Hu Hle Hne;
    cbn [addTasks_loop].
  - exists [], st. rewrite app_nil_r. split; [reflexivity|].
    split; [reflexivity|]. intros k Hk. lia.
  - destruct (getNextAccount_prefix st u Hnd Hu Hle Hne)
      as (a & Ha & Hfst & Hacc & Hu').
    destruct (getNextAccount st) as [o st1]. cbn [fst snd] in *. subst o.
    set (K := length (accounts st)) in *.
    assert (HK : (0 < K)%nat).
    { subst K. destruct (accounts st); [congruence | cbn; lia]. }
    destruct (IH (S i) (queue ++ [new_task i (clock i) a])
                (markAccountAsUsed (email a) st1) w (u mod K + 1)%nat)
      as (new & st' & Hrun & Hlen & Hnew).
    + cbn [markAccountAsUsed accounts]. now rewrite Hacc.
    + exact Hu'.
    + cbn [markAccountAsUsed accounts]. rewrite Hacc. fold K.
      pose proof (Nat.mod_upper_bound u K). lia.
    + cbn [markAccountAsUsed accounts]. now rewrite Hacc.
    + exists (new_task i (clock i) a :: new), st'.
      rewrite Hrun, <- app_assoc. split; [reflexivity|].
      split; [cbn [length]; now rewrite Hlen|].
      intros [|k] Hk.
      * rewrite !Nat.add_0_r. exists a. split; [exact Ha | reflexivity].
      * destruct (Hnew k ltac:(lia)) as (b & Hb & Hnk).
        cbn [markAccountAsUsed accounts] in Hb. rewrite Hacc in Hb. fold K in Hb.
        exists b. split.
        -- rewrite <- Hb. f_equal.
           rewrite <- Nat.add_assoc, Nat.Div0.add_mod_idemp_l. reflexivity.
        -- replace (i + S k)%nat with (S i + k)%nat by lia. exact Hnk.
Qed.

(** All the loop prints are the notes about skipped iterations. *)
Lemma addTasks_loop_console clock count :
  forall i queue st w queue' st' w',
    addTasks_loop clock i count queue st w = (queue', st', w') ->
    exists skipped, console w' = console w ++ map SkippedTask skipped.
Proof.
  induction count as [|n IH]; intros i queue st w queue' st' w' E;
    cbn [addTasks_loop] in E.
  - inversion E; subst. exists []. now rewrite app_nil_r.
  - destruct (getNextAccount st) as [[a|] st1].
    + eapply IH, E.
    + apply IH in E as [sk E]. exists (i :: sk).
      rewrite E. cbn [print console map]. now rewrite <- app_assoc.
Qed.

(** [addTasks] never builds more tasks than asked for, and prints the
    shortfall note exactly when it built fewer. *)
Lemma addTasks_at_most taskCount size env st w p st' w' :
  addTasks taskCount env (new_TaskPool size) st w = inr (p, st', w') ->
  (length (tasks p) <= taskCount)%nat
  /\ (ShortfallNote (length (tasks p)) taskCount ∈ drop (length (console w)) (console w')
      <-> (length (tasks p) < taskCount)%nat).
Proof.
  unfold addTasks. destruct (file env) as [content|]; [|discriminate].
  destruct (getTotalAccountCount _ =? 0)%nat; [discriminate|].
  cbn [tasks new_TaskPool].
  destruct (addTasks_loop _ _ _ _ _ _) as [[queue st2] w1] eqn:E.
  intros [= <- <- <-]. cbn [tasks set_tasks].
  pose proof (addTasks_loop_console _ _ _ _ _ _ _ _ _ E) as Hc.
  destruct Hc as [skipped Hc].
  apply addTasks_loop_queue in E as (_ & _ & Hlen & _); [|constructor..].
  cbn [length] in Hlen. split; [lia|].
  destruct (length queue <? taskCount)%nat eqn:Hlt.
  - apply Nat.ltb_lt in Hlt. split; [intros _; exact Hlt|]. intros _.
    cbn [logBatchStart append_log console print]. rewrite Hc.
    rewrite <- !app_assoc, drop_app_length.
    rewrite !elem_of_app. right. right. left.
  - apply Nat.ltb_ge in Hlt. split; [|lia].
    cbn [logBatchStart append_log console print]. rewrite Hc.
    rewrite <- !app_assoc, drop_app_length.
    rewrite !elem_of_app, list_elem_of_fmap.
    intros [(i & [=] & _)|Hin]. apply list_elem_of_singleton in Hin. discriminate.
Qed.

(** C2, as the code has it. For every task count [n] and every account
    file with K >= 1 credentials whose identifiers are pairwise distinct,
    none of them marked used, [addTasks(n)] returns with exactly [n] tasks
    (also when K < n: it wraps around, task number [k], counted from 0,
    gets credential number [k mod K]) and prints no shortfall note. *)
Theorem addTasks_wraps_around (taskCount size : nat) (env : AddEnv)
    (content : jsstring) (st : Store) (w : World) :
  file env = Some content ->
  NoDup (map email (parseAccounts content)) ->
  parseAccounts content <> [] ->
  usedAccounts st = ∅ ->
  exists p st' w',
    addTasks taskCount env (new_TaskPool size) st w = inr (p, st', w')
    /\ length (tasks p) = taskCount
    /\ (forall k, (k < taskCount)%nat ->
          exists a,
            parseAccounts content !! (k mod length (parseAccounts content))%nat
            = Some a
            /\ tasks p !! k = Some (new_task (S k) (clock env (S k)) a))
    /\ console w' = console w ++ [TasksAdded taskCount].
Proof.
  intros Hfile Hnd Hne Hused. unfold addTasks. rewrite Hfile.
  unfold getTotalAccountCount. cbn [loadAccounts accounts].
  destruct (length (parseAccounts content) =? 0)%nat eqn:E0.
  { apply Nat.eqb_eq in E0. destruct (parseAccounts content); [congruence|discriminate]. }
  destruct (addTasks_loop_cycle (clock env) taskCount 1 (tasks (new_TaskPool size))
              (loadAccounts content st) w 0)
    as (new & st' & Hrun & Hlen & Hnew).
  - exact Hnd.
  - unfold used_prefix. cbn [loadAccounts usedAccounts accounts take map].
    rewrite Hused. reflexivity.
  - lia.
  - exact Hne.
  - cbn [loadAccounts accounts new_TaskPool tasks app] in *.
    rewrite Hrun. rewrite Hlen, Nat.ltb_irrefl.
    eexists _, _, _. split; [reflexivity|]. cbn [tasks set_tasks].
    split; [exact Hlen|]. split; [|reflexivity].
    intros k Hk. destruct (Hnew k Hk) as (a & Ha & Hk'). exists a.
    split; [exact Ha | exact Hk'].
Qed.

Lemma addTasks_wraps_around_witness :
  exists p st' w',
    addTasks 3 (sample_add_env two_accounts_file) (new_TaskPool 2)
      empty_store empty_world = inr (p, st', w')
    /\ length (tasks p) = 3%nat
    /\ (forall k, (k < 3)%nat ->
          exists a,
            parseAccounts two_accounts_file
              !! (k mod length (parseAccounts two_accounts_file))%nat = Some a
            /\ tasks p !! k
               = Some (new_task (S k) (clock (sample_add_env two_accounts_file) (S k)) a))
    /\ console w' = console empty_world ++ [TasksAdded 3].
Proof.
  apply (addTasks_wraps_around 3 2 (sample_add_env two_accounts_file)
           two_accounts_file empty_store empty_world).
  - reflexivity.
  - apply (bool_decide_unpack _). vm_compute. exact I.
  - vm_compute. discriminate.
  - reflexivity.
Defined.

(** The shortfall property does not hold: with K = 2 credentials and
    n = 3 tasks asked for, [addTasks] builds 3 tasks, not 2, the third
    with the first credential again, and prints no shortfall note. *)
Lemma addTasks_shortfall_counterexample :
  length (parseAccounts two_accounts_file) = 2%nat
  /\ exists p st' w',
       addTasks 3 (sample_add_env two_accounts_file) (new_TaskPool 2)
         empty_store empty_world = inr (p, st', w')
       /\ length (tasks p) = 3%nat
       /\ map (fun t => email <$> account t) (tasks p)
          = [Some (js "a@x.com"); Some (js "b@x.com"); Some (js "a@x.com")]
       /\ console w' = [TasksAdded 3].
Proof.
  split; [vm_compute; reflexivity|].
  eexists _, _, _. split; [vm_compute; reflexivity|].
  split; [reflexivity|]. split; reflexivity.
Qed.

End PoolFacts.

(** ** The login loop *)
Module GoogleLoginFacts.
Import JS AccountManager GoogleLogin Shapes.

Lemma run_loop_app account polls1 :
  forall st polls2 effects1 st1,
    run_loop account st polls1 = (effects1, AtLoopHead st1) ->
    run_loop account st (polls1 ++ polls2)
    = (effects1 ++ fst (run_loop account st1 polls2),
       snd (run_loop account st1 polls2)).
Proof.
  induction polls1 as [|p polls1 IH]; intros st polls2 effects1 st1 H.
  - cbn [run_loop] in H. inversion H; subst. cbn [app].
    now destruct (run_loop account st1 polls2).
  - cbn [app run_loop] in *.
    destruct (loop_body account st (page_url p) (authenticator_offered p))
      as [e| |st' a]; try discriminate H.
    destruct a;
      try (destruct (perform _ p) as [eff|e]; [|discriminate H];
           destruct (run_loop account st' polls1) as [more out] eqn:E;
           inversion H; subst;
           rewrite (IH _ polls2 _ _ E), <- app_assoc; reflexivity).
    destruct (action_error p); [discriminate H|].
    destruct (waitForManualVerification urlPattern (manual_answers p))
      as [eff [rest|]]; [|discriminate H].
    destruct (run_loop account st' polls1) as [more out] eqn:E.
    inversion H; subst.
    rewrite (IH _ polls2 _ _ E), <- app_assoc. reflexivity.
Qed.

(** The stalled branch of an iteration. *)
Lemma loop_body_stalled account st url offered :
  split_head 63%N url = lastUrl st -> retryCount st <> -1 ->
  loop_body account st url offered =
  if retryCount st >? 15 then Throw (stall_error (lastUrl st))
  else if (retryCount st >? 5) && includes (lastUrl st) (js "signin/identifier")
  then Continue {| lastUrl := lastUrl st; retryCount := -1 |} DoReload
  else if negb (matches_noNeedCount (lastUrl st))
  then Continue {| lastUrl := lastUrl st; retryCount := retryCount st + 1 |} Stall
  else Continue st Stall.
Proof.
  intros Hurl Hrc. unfold loop_body. rewrite Hurl.
  rewrite bool_decide_eq_true_2 by reflexivity.
  apply Z.eqb_neq in Hrc. rewrite Hrc. cbn [negb andb].
  unfold stall_error, matches_noNeedCount.
  destruct (retryCount st >? 15); [|reflexivity].
  destruct (includes (lastUrl st) (js "challenge/pwd")); [reflexivity|].
  destruct (includes (lastUrl st) (js "challenge/totp")); reflexivity.
Qed.

(** Outside the stalled branch an iteration restarts the counter. *)
Lemma loop_body_fresh account st url offered st' a :
  bool_decide (split_head 63%N url = lastUrl st) && negb (retryCount st =? -1) = false ->
  loop_body account st url offered = Continue st' a ->
  st' = {| lastUrl := split_head 63%N url; retryCount := 0 |}.
Proof.
  intros Hc. unfold loop_body. rewrite Hc.
  repeat match goal with
         | |- context [if ?c then _ else _] => destruct c
         end; intros [= <- <-]; reflexivity.
Qed.

Lemma loop_body_inv account st url offered st' a :
  driver_inv st ->
  loop_body account st url offered = Continue st' a ->
  driver_inv st'.
Proof.
  intros (Hr & Hi & Hn) H.
  destruct (bool_decide (split_head 63%N url = lastUrl st)
            && negb (retryCount st =? -1)) eqn:Hc.
  - apply andb_true_iff in Hc as [Hu Hrc].
    apply bool_decide_eq_true in Hu. apply negb_true_iff, Z.eqb_neq in Hrc.
    rewrite (loop_body_stalled _ _ _ _ Hu Hrc) in H.
    destruct (retryCount st >? 15) eqn:E15; [discriminate H|].
    rewrite Z.gtb_ltb in E15. apply Z.ltb_ge in E15.
    destruct ((retryCount st >? 5) && includes (lastUrl st) (js "signin/identifier"))
      eqn:E5.
    + inversion H; subst. apply andb_true_iff in E5 as [H5 _].
      rewrite Z.gtb_ltb in H5. apply Z.ltb_lt in H5.
      unfold driver_inv. cbn [lastUrl retryCount].
      split; [lia|]. split; [lia|]. intros Hm. specialize (Hn Hm). lia.
    + destruct (matches_noNeedCount (lastUrl st)) eqn:Em; cbn [negb] in H;
        inversion H; subst.
      * unfold driver_inv. auto.
      * unfold driver_inv. cbn [lastUrl retryCount].
        split; [lia|]. split; [|congruence].
        intros Hid. rewrite Hid, andb_true_r in E5.
        rewrite Z.gtb_ltb in E5. apply Z.ltb_ge in E5. lia.
  - rewrite (loop_body_fresh _ _ _ _ _ _ Hc H).
    unfold driver_inv. cbn [lastUrl retryCount]. split; [lia|]. split; intros; lia.
Qed.

Lemma initial_state_inv : driver_inv initial_state.
Proof.
  unfold driver_inv, initial_state. cbn [lastUrl retryCount].
  split; [lia|]. split; intros; lia.
Qed.

(** The loop variables satisfy [driver_inv] wherever the loop waits. *)
Lemma run_loop_inv account polls :
  forall st effects st',
    driver_inv st ->
    run_loop account st polls = (effects, AtLoopHead st')
    \/ run_loop account st polls = (effects, InManualWait st') ->
    driver_inv st'.
Proof.
  induction polls as [|p polls IH]; intros st effects st' Hinv H;
    cbn [run_loop] in H.
  - destruct H as [H|H]; inversion H; subst. exact Hinv.
  - destruct (loop_body account st (page_url p) (authenticator_offered p))
      as [e| |st1 a] eqn:Eb; try (destruct H as [H|H]; discriminate H).
    pose proof (loop_body_inv _ _ _ _ _ _ Hinv Eb) as Hinv1.
    destruct a;
      try (destruct (perform _ p) as [eff|e];
           [|destruct H as [H|H]; discriminate H];
           destruct (run_loop account st1 polls) as [more out] eqn:E;
           apply (IH st1 more st' Hinv1);
           destruct H as [H|H]; inversion H; subst; auto).
    destruct (action_error p); [destruct H as [H|H]; discriminate H|].
    destruct (waitForManualVerification urlPattern (manual_answers p))
      as [eff [rest|]].
    + destruct (run_loop account st1 polls) as [more out] eqn:E.
      apply (IH st1 more st' Hinv1).
      destruct H as [H|H]; inversion H; subst; auto.
    + destruct H as [H|H]; inversion H; subst. exact Hinv1.
Qed.

Example frozen_on_password_url :
  run_loop sample_account initial_state (repeat (frozen_poll password_url) 18)
  = (Sleep 500 :: EnterPassword :: repeat (Sleep 1000) 16,
     Failed InvalidCredentials).
Proof. vm_compute. reflexivity. Qed.

(** C5. Whenever the loop comes back to its head on an unchanged URL with
    the stall counter above 15, the flow fails: with the password error
    on a challenge/pwd URL, with the second-factor error on a
    challenge/totp URL, and with the too-many-retries error otherwise.
    There the counter is 16 and the URL matches none of the patterns that
    are exempt from counting. *)
Theorem stall_error_mapping (account : AccountInfo) (polls : list Poll)
    (p : Poll) (effects : list Effect) (st : DriverState) :
  run_loop account initial_state polls = (effects, AtLoopHead st) ->
  split_head 63%N (page_url p) = lastUrl st ->
  15 < retryCount st ->
  run_loop account initial_state (polls ++ [p])
  = (effects,
     Failed (if includes (lastUrl st) (js "challenge/pwd") then InvalidCredentials
             else if includes (lastUrl st) (js "challenge/totp")
                  then InvalidSecondFactor
                  else TooManyRetries))
  /\ retryCount st = 16
  /\ matches_noNeedCount (lastUrl st) = false.
Proof.
  intros Hrun Hurl Hrc.
  destruct (run_loop_inv _ _ _ _ _ initial_state_inv (or_introl Hrun))
    as (Hr & _ & Hn).
  split; [|split; [lia|]].
  - rewrite (run_loop_app _ _ _ [p] _ _ Hrun). cbn [run_loop].
    rewrite (loop_body_stalled _ _ _ _ Hurl) by lia.
    replace (retryCount st >? 15) with true by (symmetry; apply Z.gtb_lt; lia).
    cbn [fst snd]. now rewrite app_nil_r.
  - destruct (matches_noNeedCount (lastUrl st)); [|reflexivity].
    specialize (Hn eq_refl). lia.
Qed.

Lemma stall_error_mapping_witness :
  run_loop sample_account initial_state
    (repeat (frozen_poll password_url) 17 ++ [frozen_poll password_url])
  = (Sleep 500 :: EnterPassword :: repeat (Sleep 1000) 16,
     Failed InvalidCredentials)
  /\ 16 = 16
  /\ matches_noNeedCount (split_head 63%N password_url) = false.
Proof.
  apply (stall_error_mapping sample_account
           (repeat (frozen_poll password_url) 17) (frozen_poll password_url)
           (Sleep 500 :: EnterPassword :: repeat (Sleep 1000) 16)
           {| lastUrl := split_head 63%N password_url; retryCount := 16 |}).
  - vm_compute. reflexivity.
  - reflexivity.
  - cbn [retryCount]. lia.
Defined.

Example frozen_on_identifier_url :
  run_loop sample_account initial_state (repeat (frozen_poll identifier_url) 17)
  = ([Sleep 500; EnterEmail] ++ repeat (Sleep 1000) 6 ++ [Reload]
     ++ [Sleep 500; EnterEmail] ++ repeat (Sleep 1000) 6 ++ [Reload]
     ++ [Sleep 500; EnterEmail],
     AtLoopHead {| lastUrl := split_head 63%N identifier_url; retryCount := 0 |}).
Proof. vm_compute. reflexivity. Qed.

(** C8. Whenever the loop comes back to its head on an unchanged
    signin/identifier URL, the stall counter is at most 6 and the
    iteration does not fail; once the counter is above 5 the iteration
    reloads the page once, without sleeping, and sets the counter to -1,
    from where the next iteration does not count a stall and puts the
    counter back to 0. *)
Theorem identifier_reload (account : AccountInfo) (polls : list Poll)
    (p : Poll) (effects : list Effect) (st : DriverState) :
  run_loop account initial_state polls = (effects, AtLoopHead st) ->
  split_head 63%N (page_url p) = lastUrl st ->
  includes (lastUrl st) (js "signin/identifier") = true ->
  action_error p = None ->
  retryCount st <= 6
  /\ (forall e, snd (run_loop account initial_state (polls ++ [p])) <> Failed e)
  /\ (5 < retryCount st ->
      run_loop account initial_state (polls ++ [p])
      = (effects ++ [Reload],
         AtLoopHead {| lastUrl := lastUrl st; retryCount := -1 |})
      /\ forall url offered st' a,
           loop_body account {| lastUrl := lastUrl st; retryCount := -1 |}
             url offered = Continue st' a ->
           retryCount st' = 0).
Proof.
  intros Hrun Hurl Hid Hok.
  destruct (run_loop_inv _ _ _ _ _ initial_state_inv (or_introl Hrun))
    as (Hr & Hi & Hn).
  specialize (Hi Hid). split; [exact Hi|].
  rewrite (run_loop_app _ _ _ [p] _ _ Hrun). cbn [run_loop].
  destruct (Z.eq_dec (retryCount st) (-1)) as [Hm|Hm].
  - split; [|lia]. intros e.
    unfold loop_body. rewrite Hurl, Hm, Hid. cbn [Z.eqb negb andb].
    rewrite andb_false_r.
    destruct (negb (startsWith _ _) && _ && _); [discriminate|].
    unfold perform. rewrite Hok. discriminate.
  - rewrite (loop_body_stalled _ _ _ _ Hurl Hm).
    replace (retryCount st >? 15) with false
      by (symmetry; rewrite Z.gtb_ltb; apply Z.ltb_ge; lia).
    rewrite Hid, andb_true_r. unfold perform. rewrite Hok.
    destruct (retryCount st >? 5) eqn:E5.
    + split; [discriminate|]. intros _. split; [reflexivity|].
      intros url offered st' a Hb.
      assert (Hc : bool_decide (split_head 63%N url = lastUrl st)
                   && negb (-1 =? -1) = false) by apply andb_false_r.
      now rewrite (loop_body_fresh _ {| lastUrl := lastUrl st; retryCount := -1 |}
                     _ _ _ _ Hc Hb).
    + rewrite Z.gtb_ltb in E5. apply Z.ltb_ge in E5. split; [|lia].
      destruct (negb (matches_noNeedCount (lastUrl st))); discriminate.
Qed.

Lemma identifier_reload_witness :
  6 <= 6
  /\ (forall e,
        snd (run_loop sample_account initial_state
               (repeat (frozen_poll identifier_url) 7 ++ [frozen_poll identifier_url]))
        <> Failed e)
  /\ (5 < 6 ->
      run_loop sample_account initial_state
        (repeat (frozen_poll identifier_url) 7 ++ [frozen_poll identifier_url])
      = ((Sleep 500 :: EnterEmail :: repeat (Sleep 1000) 6) ++ [Reload],
         AtLoopHead {| lastUrl := split_head 63%N identifier_url; retryCount := -1 |})
      /\ forall url offered st' a,
           loop_body sample_account
             {| lastUrl := split_head 63%N identifier_url; retryCount := -1 |}
             url offered = Continue st' a ->
           retryCount st' = 0).
Proof.
  apply (identifier_reload sample_account
           (repeat (frozen_poll identifier_url) 7) (frozen_poll identifier_url)
           (Sleep 500 :: EnterEmail :: repeat (Sleep 1000) 6)
           {| lastUrl := split_head 63%N identifier_url; retryCount := 6 |}).
  - vm_compute. reflexivity.
  - reflexivity.
  - vm_compute. reflexivity.
  - reflexivity.
Defined.

(** *** Manual waits *)

(** While every answer still shows the pattern (or throws), the loop of
    [waitForManualVerification] goes on, however many answers there are,
    one second of sleep before each call of [page.url()]. *)
Lemma wait_loop_blocked urlPattern held :
  Forall (keeps_waiting urlPattern) held ->
  wait_loop urlPattern held = (concat (map wait_cost held), None).
Proof.
  induction 1 as [|answer held Hk _ IH]; [reflexivity|].
  cbn [wait_loop map concat]. rewrite IH.
  destruct answer as [url|]; cbn [keeps_waiting wait_cost] in *.
  - now rewrite Hk.
  - reflexivity.
Qed.

(** The loop ends at the first URL that does not show the pattern. *)
Lemma wait_loop_released urlPattern held url rest :
  Forall (keeps_waiting urlPattern) held ->
  includes url urlPattern = false ->
  wait_loop urlPattern (held ++ Some url :: rest)
  = (concat (map wait_cost held) ++ [Sleep 1000], Some rest).
Proof.
  intros Hheld Hout. induction Hheld as [|answer held Hk _ IH].
  - cbn [app wait_loop map concat]. now rewrite Hout.
  - cbn [app wait_loop map concat]. rewrite IH.
    destruct answer as [u|]; cbn [keeps_waiting wait_cost] in *.
    + now rewrite Hk.
    + reflexivity.
Qed.

Lemma manual_patterns_exempt pat url :
  pat ∈ manual_patterns -> includes url pat = true ->
  matches_noNeedCount url = true.
Proof.
  intros Hin Hinc. unfold matches_noNeedCount. apply existsb_exists.
  exists pat. split; [|exact Hinc].
  unfold manual_patterns in Hin. unfold noNeedCountUrlMatch.
  repeat (apply elem_of_cons in Hin as [->|Hin]); [..|inversion Hin];
    cbn [In]; tauto.
Qed.

(** C9. For every manual-intervention URL pattern: a fresh URL
    .../signin/<pattern> sends the loop into [waitForManualVerification]
    for that pattern; the wait brings the page to the front and adds the
    highlight border, then polls [page.url()] after one second of sleep
    each time; as long as the answers show the pattern it does not return,
    however many there are, and it returns (removing the border) at the
    first URL that does not show the pattern. Wherever the loop waits
    with the last URL showing the pattern, the stall counter is 0, and an
    iteration on the unchanged URL leaves the loop variables as they are
    and throws nothing. *)
Theorem manual_wait (pat : jsstring) :
  pat ∈ manual_patterns ->
  (forall account offered,
      loop_body account initial_state
        (js "https://accounts.google.com/v3/signin/" ++ pat) offered
      = Continue {| lastUrl := js "https://accounts.google.com/v3/signin/" ++ pat;
                    retryCount := 0 |}
          (ManualWait pat))
  /\ (forall held,
        Forall (keeps_waiting pat) held ->
        waitForManualVerification pat held
        = (BringToFront :: AddHighlightBorder :: concat (map wait_cost held), None))
  /\ (forall held url rest,
        Forall (keeps_waiting pat) held ->
        includes url pat = false ->
        waitForManualVerification pat (held ++ Some url :: rest)
        = (BringToFront :: AddHighlightBorder
             :: (concat (map wait_cost held) ++ [Sleep 1000])
             ++ [RemoveHighlightBorder],
           Some rest))
  /\ (forall account polls effects st,
        run_loop account initial_state polls = (effects, AtLoopHead st)
        \/ run_loop account initial_state polls = (effects, InManualWait st) ->
        includes (lastUrl st) pat = true ->
        retryCount st = 0
        /\ forall url offered,
             split_head 63%N url = lastUrl st ->
             loop_body account st url offered = Continue st Stall).
Proof.
  intros Hin. split; [|split; [|split]].
  - intros account offered. unfold manual_patterns in Hin.
    repeat (apply elem_of_cons in Hin as [->|Hin]); [..|inversion Hin];
      vm_compute; reflexivity.
  - intros held Hheld. unfold waitForManualVerification.
    now rewrite (wait_loop_blocked _ _ Hheld).
  - intros held url rest Hheld Hout. unfold waitForManualVerification.
    now rewrite (wait_loop_released _ _ _ _ Hheld Hout).
  - intros account polls effects st Hrun Hinc.
    destruct (run_loop_inv _ _ _ _ _ initial_state_inv Hrun) as (_ & _ & Hn).
    pose proof (manual_patterns_exempt _ _ Hin Hinc) as Hm.
    specialize (Hn Hm). split; [exact Hn|].
    intros url offered Hurl.
    rewrite (loop_body_stalled _ _ _ _ Hurl) by lia.
    rewrite Hn, Hm. cbn [Z.gtb Z.compare andb negb]. reflexivity.
Qed.

Lemma manual_wait_witness :
  waitForManualVerification (js "challenge/kpe")
    ([Some (js "https://accounts.google.com/v3/signin/challenge/kpe"); None]
     ++ Some (js "https://accounts.google.com/v3/signin/challenge/pwd") :: [])
  = ([BringToFront; AddHighlightBorder; Sleep 1000; Sleep 1000; Sleep 1000;
      Sleep 1000; RemoveHighlightBorder], Some []).
Proof.
  refine (proj1 (proj2 (proj2 (manual_wait (js "challenge/kpe") _))) _ _ _ _ _).
  - unfold manual_patterns. left.
  - repeat constructor.
  - vm_compute. reflexivity.
Defined.

End GoogleLoginFacts.

(** ** Runs of the pool *)
Module PoolRunFacts.
Import JS AccountManager GoogleLogin Logger Index Pool Shapes PoolFacts.

Lemma lookup_middle {A} (l : list A) i x :
  l !! i = Some x ->
  exists l1 l2, l = l1 ++ x :: l2
                /\ (forall y, <[ i := y ]> l = l1 ++ y :: l2)
                /\ delete i l = l1 ++ l2.
Proof.
  intros H. exists (take i l), (drop (S i) l).
  pose proof (take_drop_middle _ _ _ H) as E.
  assert (Hlen : length (take i l) = i).
  { apply length_take_le. apply lookup_lt_Some in H. lia. }
  split; [now symmetry|]. split.
  - intros y. rewrite <- E at 1.
    rewrite <- Hlen at 1. rewrite <- (Nat.add_0_r (length (take i l))).
    now rewrite insert_app_r.
  - rewrite <- E at 1. rewrite <- Hlen at 1. apply delete_middle.
Qed.

Lemma list_to_set_without (l1 l2 : list jsstring) x :
  NoDup (l1 ++ x :: l2) ->
  (list_to_set (l1 ++ x :: l2) : gset jsstring) ∖ {[ x ]} = list_to_set (l1 ++ l2).
Proof.
  intros Hnd. apply NoDup_app in Hnd as (_ & H1 & H2).
  apply NoDup_cons in H2 as [H2 _].
  apply set_eq. intros y.
  rewrite elem_of_difference, !elem_of_list_to_set, !elem_of_app,
    elem_of_cons, elem_of_singleton.
  split.
  - intros [[?|[?|?]] ?]; tauto.
  - intros [Hy|Hy]; (split; [tauto|]); intros ->.
    + apply (H1 _ Hy). left.
    + contradiction.
Qed.

(** Appending to a list that extends [l0] extends what was added. *)
Lemma drop_extend {A} (l0 l ext : list A) :
  l = l0 ++ drop (length l0) l ->
  l ++ ext = l0 ++ drop (length l0) (l ++ ext)
  /\ drop (length l0) (l ++ ext) = drop (length l0) l ++ ext.
Proof.
  intros E.
  assert (Hd : drop (length l0) (l ++ ext) = drop (length l0) l ++ ext).
  { rewrite drop_app_le; [reflexivity|]. rewrite E, length_app. lia. }
  split; [|exact Hd]. rewrite Hd, app_assoc, <- E. reflexivity.
Qed.

Lemma started_ids_app c1 c2 :
  started_ids (c1 ++ c2) = started_ids c1 ++ started_ids c2.
Proof. apply omap_app. Qed.

Lemma settled_ids_app c1 c2 :
  settled_ids (c1 ++ c2) = settled_ids c1 ++ settled_ids c2.
Proof. apply omap_app. Qed.

Lemma in_main_ids_app l1 l2 :
  in_main_ids (l1 ++ l2) = in_main_ids l1 ++ in_main_ids l2.
Proof. apply omap_app. Qed.

(** [main] neither prints one of the lines above nor writes to the log. *)
Lemma main_world accountInfo env st w res st' w' :
  main accountInfo env st w = Some (res, st', w') ->
  console w' = console w /\ logFile w' = logFile w.
Proof.
  unfold main. destruct (resolve_account accountInfo env st) as [[a|msg] st1].
  - destruct (launch env).
    + destruct (performGoogleLogin (Some a) (script env)) as [[e|]|];
        intros [= <- <- <-] || discriminate; now split.
    + intros [= <- <- <-]. now split.
  - intros [= <- <- <-]. now split.
Qed.

Lemma size_running_length s0 s :
  pool_inv s0 s -> size (runningTasks (pool s)) = length (inflight s).
Proof.
  intros Hinv. rewrite (inv_running _ _ Hinv).
  pose proof (inv_nodup _ _ Hinv) as Hnd.
  apply NoDup_app in Hnd as (_ & _ & Hnd).
  rewrite size_list_to_set by exact Hnd.
  unfold inflight_ids. now rewrite !length_map.
Qed.

Lemma fresh_start_inv s0 : fresh_start s0 -> pool_inv s0 s0.
Proof.
  intros [Hc Hi Hr Hn Hp].
  constructor; unfold printed, written, inflight_ids;
    rewrite ?Hi, ?drop_all, ?app_nil_r; cbn [map length].
  all: try rewrite app_nil_r.
  all: try (exact Hn || exact Hr || exact Hp || reflexivity || lia || constructor).
  rewrite Hc. discriminate.
Qed.

Lemma can_start_true s :
  can_start s = true <->
  (size (runningTasks (pool s)) < poolSize (pool s))%nat
  /\ exists task rest, tasks (pool s) = task :: rest.
Proof.
  unfold can_start. rewrite andb_true_iff, Nat.ltb_lt.
  destruct (tasks (pool s)) as [|t rest]; split; intros [H1 H2];
    (split; [exact H1|]); eauto; try discriminate.
  destruct H2 as (? & ? & [=]).
Qed.

(** Admission keeps the invariant. *)
Lemma start_next_inv s0 s now :
  pool_inv s0 s -> can_start s = true -> pool_inv s0 (start_next now s).
Proof.
  intros Hinv Hcan. pose proof (size_running_length _ _ Hinv) as Hsize.
  apply can_start_true in Hcan as (Hlt & task & rest & Et).
  destruct Hinv as [Hsz Hnd Hrun Hpend Hbound Hdone Hcon Hq Hset Hlog Hatt Hrec].
  destruct (drop_extend _ _ [Started (id task)] Hcon) as [Hc1 Hc2].
  unfold start_next. rewrite Et in *. unfold inflight_ids in *.
  constructor; unfold printed, written, inflight_ids, executeTask_begin;
    cbn [pool world inflight control set_tasks set_runningTasks tasks
         runningTasks poolSize print console logFile].
  - exact Hsz.
  - rewrite !map_app. cbn [map id]. cbn [map] in Hnd.
    rewrite app_assoc, <- Permutation_cons_append. exact Hnd.
  - rewrite !map_app, list_to_set_app_L, Hrun. cbn [map id list_to_set foldr].
    rewrite (right_id_L ∅ (∪)). apply (comm_L (∪)).
  - now inversion Hpend.
  - rewrite length_app. cbn [length]. lia.
  - intros Hd. specialize (Hdone Hd). unfold work_left in Hdone.
    rewrite Et in Hdone. discriminate.
  - exact Hc1.
  - fold (printed s0 s) in *. rewrite Hc2, started_ids_app, Hq.
    cbn [map]. now rewrite <- app_assoc.
  - fold (printed s0 s) in *.
    rewrite Hc2, started_ids_app, settled_ids_app, in_main_ids_app, Hset.
    cbn. now rewrite app_nil_r, !app_assoc.
  - exact Hlog.
  - exact Hatt.
  - apply Forall_app. split; [exact Hrec|]. now repeat constructor.
Qed.

Lemma set_control_inv s0 s c :
  pool_inv s0 s -> (c = Done -> work_left s = false) ->
  pool_inv s0 (set_control c s).
Proof. intros [] Hc. constructor; auto. Qed.

Lemma finish_run_inv s0 s now write_ok :
  pool_inv s0 s -> work_left s = false ->
  pool_inv s0 (finish_run now write_ok s).
Proof.
  intros [Hsz Hnd Hrun Hpend Hbound Hdone Hcon Hq Hset Hlog Hatt Hrec] Hw.
  set (e := BatchEnd (completedTasks (pool s)) (failedTasks (pool s))
              (now - batchStartTime (pool s))).
  destruct (drop_extend _ _ [e] Hlog) as [Hl1 Hl2].
  constructor; unfold printed, written, inflight_ids, finish_run, logBatchEnd,
    append_log in *;
    cbn [pool world inflight control console logFile]; auto.
  - destruct write_ok; [exact Hl1 | exact Hlog].
  - destruct write_ok; [|exact Hatt]. fold e. rewrite Hl2.
    apply Forall_app. split; [exact Hatt|]. now repeat constructor.
Qed.

(** When [main] settles, the invariant is kept. *)
Lemma settle_inv s0 s i now env s' :
  pool_inv s0 s -> control s <> Done -> settle i now env s = Some s' ->
  pool_inv s0 s'.
Proof.
  intros Hinv Hctl. unfold settle.
  destruct (inflight s !! i) as [[task [| |]]|] eqn:Ei; try discriminate.
  destruct (main _ _ _ _) as [[[res st'] w']|] eqn:Em; [|discriminate].
  destruct (main_world _ _ _ _ _ _ _ Em) as [Hmc Hml].
  destruct (lookup_middle _ _ _ Ei) as (l1 & l2 & El & Hins & Hdel).
  destruct Hinv as [Hsz Hnd Hrun Hpend Hbound Hdone Hcon Hq Hset Hlog Hatt Hrec].
  set (line := match res with
               | Some msg => FailedLine (id task) msg
               | None => Completed (id task)
               end).
  destruct (drop_extend _ _ [line] Hcon) as [Hc1 Hc2].
  assert (Hstart : started_ids [line] = [])
    by (subst line; now destruct res).
  assert (Hsettle : settled_ids [line] = [id task])
    by (subst line; now destruct res).
  unfold inflight_ids in *. rewrite El in *.
  rewrite !map_app in Hnd, Hrun. cbn [map act_task] in Hnd, Hrun.
  rewrite in_main_ids_app in Hset. cbn in Hset.
  destruct (account task) as [a|]; intros [= <-].
  - constructor; unfold printed, written, inflight_ids;
      cbn [pool world inflight control count_outcome tasks runningTasks
           poolSize print console logFile]; rewrite ?Hins, ?Hmc, ?Hml.
    + exact Hsz.
    + rewrite !map_app. exact Hnd.
    + rewrite !map_app. exact Hrun.
    + exact Hpend.
    + rewrite length_app in *. exact Hbound.
    + intros Hd. contradiction.
    + exact Hc1.
    + fold (printed s0 s) in *. fold line.
      rewrite Hc2, started_ids_app, Hstart, app_nil_r. exact Hq.
    + fold (printed s0 s) in *. fold line.
      rewrite Hc2, started_ids_app, settled_ids_app, Hstart, Hsettle,
        app_nil_r, in_main_ids_app, Hset.
      cbn. rewrite <- !app_assoc. apply Permutation_app_head.
      cbn. symmetry. apply Permutation_middle.
    + exact Hlog.
    + exact Hatt.
    + apply Forall_app in Hrec as [H1 H2]. inversion H2; subst.
      apply Forall_app. split; [exact H1|]. constructor; [reflexivity|assumption].
  - constructor; unfold printed, written, inflight_ids;
      cbn [pool world inflight control count_outcome set_runningTasks tasks
           runningTasks poolSize print console logFile];
      rewrite ?Hdel, ?Hmc, ?Hml.
    + exact Hsz.
    + rewrite !map_app.
      rewrite app_assoc in Hnd. apply NoDup_app in Hnd as (Hn1 & Hn2 & Hn3).
      rewrite app_assoc. apply NoDup_app. split; [exact Hn1|]. split.
      * intros x Hx Hin. apply (Hn2 x Hx). now right.
      * now inversion Hn3.
    + rewrite Hrun, !map_app. apply list_to_set_without.
      now apply NoDup_app in Hnd as (_ & _ & Hnd).
    + exact Hpend.
    + rewrite length_app in *. cbn [length] in Hbound. lia.
    + intros Hd. contradiction.
    + exact Hc1.
    + fold (printed s0 s) in *. fold line.
      rewrite Hc2, started_ids_app, Hstart, app_nil_r. exact Hq.
    + fold (printed s0 s) in *. fold line.
      rewrite Hc2, started_ids_app, settled_ids_app, Hstart, Hsettle,
        app_nil_r, in_main_ids_app, Hset.
      rewrite <- !app_assoc. apply Permutation_app_head.
      cbn. symmetry. apply Permutation_middle.
    + exact Hlog.
    + exact Hatt.
    + apply Forall_app in Hrec as [H1 H2]. inversion H2; subst.
      apply Forall_app. now split.
Qed.

Lemma logged_inv s0 s i write_ok s' :
  pool_inv s0 s -> control s <> Done -> logged i write_ok s = Some s' ->
  pool_inv s0 s'.
Proof.
  intros Hinv Hctl. unfold logged.
  destruct (inflight s !! i) as [[task [|r|]]|] eqn:Ei; try discriminate.
  intros [= <-].
  destruct (lookup_middle _ _ _ Ei) as (l1 & l2 & El & Hins & _).
  destruct Hinv as [Hsz Hnd Hrun Hpend Hbound Hdone Hcon Hq Hset Hlog Hatt Hrec].
  destruct (drop_extend _ _ [TaskLine r] Hlog) as [Hl1 Hl2].
  unfold inflight_ids in *. rewrite El in *.
  rewrite !map_app in Hnd, Hrun. cbn [map act_task] in Hnd, Hrun.
  rewrite in_main_ids_app in Hset. cbn in Hset.
  constructor; unfold printed, written, inflight_ids, logTaskResult, append_log;
    cbn [pool world inflight control tasks runningTasks poolSize console logFile];
    rewrite ?Hins.
  - exact Hsz.
  - rewrite !map_app. exact Hnd.
  - rewrite !map_app. exact Hrun.
  - exact Hpend.
  - rewrite length_app in *. exact Hbound.
  - intros Hd. contradiction.
  - exact Hcon.
  - exact Hq.
  - rewrite in_main_ids_app. exact Hset.
  - destruct write_ok; [exact Hl1 | exact Hlog].
  - destruct write_ok; [|exact Hatt]. fold (written s0 s) in *. rewrite Hl2.
    apply Forall_app. split; [exact Hatt|].
    apply Forall_app in Hrec as [_ H2]. inversion H2; subst.
    constructor; [assumption|constructor].
  - apply Forall_app in Hrec as [H1 H2]. inversion H2; subst.
    apply Forall_app. split; [exact H1|]. constructor; [exact I|assumption].
Qed.

Lemma removed_inv s0 s i rm_ok s' :
  pool_inv s0 s -> control s <> Done -> removed i rm_ok s = Some s' ->
  pool_inv s0 s'.
Proof.
  intros Hinv Hctl. unfold removed.
  destruct (inflight s !! i) as [[task [| |e]]|] eqn:Ei; try discriminate.
  intros [= <-].
  destruct (lookup_middle _ _ _ Ei) as (l1 & l2 & El & _ & Hdel).
  destruct Hinv as [Hsz Hnd Hrun Hpend Hbound Hdone Hcon Hq Hset Hlog Hatt Hrec].
  unfold inflight_ids in *. rewrite El in *.
  rewrite !map_app in Hnd, Hrun. cbn [map act_task] in Hnd, Hrun.
  rewrite in_main_ids_app in Hset. cbn in Hset.
  assert (Hw : console (removeAccountProfileFolder rm_ok e (world s)) = console (world s)
               /\ logFile (removeAccountProfileFolder rm_ok e (world s)) = logFile (world s)).
  { unfold removeAccountProfileFolder. destruct (_ && _); now split. }
  destruct Hw as [Hwc Hwl].
  constructor; unfold printed, written, inflight_ids;
    cbn [pool world inflight control set_runningTasks tasks runningTasks poolSize];
    rewrite ?Hdel, ?Hwc, ?Hwl.
  - exact Hsz.
  - rewrite !map_app.
    rewrite app_assoc in Hnd. apply NoDup_app in Hnd as (Hn1 & Hn2 & Hn3).
    rewrite app_assoc. apply NoDup_app. split; [exact Hn1|]. split.
    + intros x Hx Hin. apply (Hn2 x Hx). now right.
    + now inversion Hn3.
  - rewrite Hrun, !map_app. apply list_to_set_without.
    now apply NoDup_app in Hnd as (_ & _ & Hnd).
  - exact Hpend.
  - rewrite length_app in *. cbn [length] in Hbound. lia.
  - intros Hd. contradiction.
  - exact Hcon.
  - exact Hq.
  - rewrite in_main_ids_app. exact Hset.
  - exact Hlog.
  - exact Hatt.
  - apply Forall_app in Hrec as [H1 H2]. inversion H2; subst.
    apply Forall_app. now split.
Qed.

(** Every turn of the event loop keeps the invariant. *)
Lemma step_inv s0 s s' : pool_inv s0 s -> step s s' -> pool_inv s0 s'.
Proof.
  intros Hinv Hstep. destruct Hstep as
    [s Hc Hw | s now write_ok Hc Hw | s now Hc Hcan | s Hc Hcan | s Hc
    | s i now env s' Hc Hs | s i write_ok s' Hc Hs | s i rm_ok s' Hc Hs].
  - apply set_control_inv; [exact Hinv | discriminate].
  - now apply finish_run_inv.
  - now apply start_next_inv.
  - apply set_control_inv; [exact Hinv | discriminate].
  - apply set_control_inv; [exact Hinv | discriminate].
  - eapply settle_inv; [exact Hinv | congruence | exact Hs].
  - eapply logged_inv; [exact Hinv | congruence | exact Hs].
  - eapply removed_inv; [exact Hinv | congruence | exact Hs].
Qed.

(** The invariant holds in every state of a run that starts afresh. *)
Lemma reachable_inv s0 s : fresh_start s0 -> reachable s0 s -> pool_inv s0 s.
Proof.
  intros Hfresh Hreach. unfold reachable in Hreach. revert s Hreach.
  apply rtc_ind_r; [now apply fresh_start_inv|].
  intros s1 s2 _ Hstep IH. eapply step_inv; eassumption.
Qed.

(** [addTasks] on a new pool, followed by the start of [run], gives such a
    state. *)
Lemma addTasks_fresh_start taskCount size env st w p st' w' rm_ok now :
  addTasks taskCount env (new_TaskPool size) st w = inr (p, st', w') ->
  fresh_start (run_start rm_ok now p st' w')
  /\ poolSize p = size.
Proof.
  unfold addTasks. destruct (file env) as [content|]; [|discriminate].
  destruct (getTotalAccountCount _ =? 0)%nat; [discriminate|].
  cbn [tasks new_TaskPool].
  destruct (addTasks_loop _ _ _ _ _ _) as [[queue st2] w1] eqn:E.
  intros [= <- <- <-].
  apply addTasks_loop_queue in E as (Hb & Hnd & _); [|constructor..].
  split; [|reflexivity]. constructor; cbn; try reflexivity; [exact Hnd|].
  eapply Forall_impl; [exact Hb|]. intros t (j & a & _ & ->). reflexivity.
Qed.

(** *** The turns as a function *)

Lemma move_step m s s' : move m s = Some s' -> step s s'.
Proof.
  unfold move. destruct m, (control s) eqn:Ec; try discriminate.
  - destruct (work_left s) eqn:Ew; [|discriminate].
    intros [= <-]. now constructor.
  - destruct (work_left s) eqn:Ew; [discriminate|].
    intros [= <-]. now constructor.
  - destruct (can_start s) eqn:Ea; [|discriminate].
    intros [= <-]. now constructor.
  - destruct (can_start s) eqn:Ea; [discriminate|].
    intros [= <-]. now constructor.
  - intros [= <-]. now constructor.
  - intros H. eapply step_settle; eassumption.
  - intros H. eapply step_logged; eassumption.
  - intros H. eapply step_removed; eassumption.
Qed.

Lemma moves_reachable l : forall s s', moves l s = Some s' -> reachable s s'.
Proof.
  induction l as [|m l IH]; intros s s' H; cbn [moves] in H.
  - inversion H. apply rtc_refl.
  - destruct (move m s) as [s1|] eqn:Em; [|discriminate].
    eapply rtc_l; [eapply move_step, Em | apply IH, H].
Qed.

Lemma sample_added_eq :
  addTasks 3 (sample_add_env two_accounts_file) (new_TaskPool 2)
    empty_store empty_world
  = inr (sample_added.1.1, sample_added.1.2, sample_added.2).
Proof. vm_compute. reflexivity. Qed.

Lemma sample_mid_reachable : reachable sample_start sample_mid.
Proof.
  apply (moves_reachable (take 3 sample_moves)). unfold sample_mid.
  destruct (moves (take 3 sample_moves) sample_start) eqn:E; [reflexivity|].
  vm_compute in E. discriminate E.
Qed.

Lemma sample_end_reachable : reachable sample_start sample_end.
Proof.
  apply (moves_reachable sample_moves). unfold sample_end.
  destruct (moves sample_moves sample_start) eqn:E; [reflexivity|].
  vm_compute in E. discriminate E.
Qed.

Example sample_end_log :
  control sample_end = Done
  /\ map (fun e => match e with
                   | TaskLine r => Some (result_email r, success r, attempts r)
                   | _ => None
                   end) (logFile (world sample_end))
     = [ None;
         Some (js "a@x.com", true, 1);
         Some (js "b@x.com", false, 1);
         Some (js "a@x.com", true, 1);
         None ].
Proof. vm_compute. split; reflexivity. Qed.

(** *** Admission *)

Lemma queue_not_running s0 s :
  pool_inv s0 s -> List.filter is_running (tasks (pool s)) = [].
Proof.
  intros Hinv. pose proof (inv_pending _ _ Hinv) as Hp.
  induction Hp as [|t l Ht _ IH]; [reflexivity|].
  cbn [List.filter]. unfold is_running at 1. now rewrite Ht.
Qed.

Lemma filter_length_le {A} (f : A -> bool) l :
  (length (List.filter f l) <= length l)%nat.
Proof.
  induction l as [|a l IH]; cbn [List.filter length]; [lia|].
  destruct (f a); cbn [length]; lia.
Qed.

Lemma running_count_le s0 s :
  pool_inv s0 s -> (running_count s <= length (inflight s))%nat.
Proof.
  intros Hinv. unfold running_count, all_tasks.
  rewrite List.filter_app, (queue_not_running _ _ Hinv). cbn [app].
  etransitivity; [apply filter_length_le|]. now rewrite length_map.
Qed.

(** C1. In every state of a pool run, the number of tasks in the running
    state is at most the pool size, and so is the size of the running
    set. Inside the admission loop, spare capacity and a pending task
    leave one turn only: the task at the head of the queue is started.
    The loop goes to sleep only with an empty queue or a full pool.
    Wherever there is spare capacity and a pending task, [run] is not past
    its loop, and its own next turns (waking up and entering the loop, as
    far as needed) start the task at the head of the queue. *)
Theorem admission_invariant (taskCount limit : nat) (env : AddEnv)
    (st : Store) (w : World) (p : TaskPool) (st' : Store) (w' : World)
    (rm_ok : bool) (now : Z) (s : System) :
  addTasks taskCount env (new_TaskPool limit) st w = inr (p, st', w') ->
  reachable (run_start rm_ok now p st' w') s ->
  (running_count s <= limit)%nat
  /\ (size (runningTasks (pool s)) <= limit)%nat
  /\ (control s = Admitting -> can_start s = true ->
      exists task rest,
        tasks (pool s) = task :: rest
        /\ (exists s', step s s')
        /\ forall s', step s s' ->
             exists now',
               s' = start_next now' s
               /\ tasks (pool s') = rest
               /\ id task ∈ runningTasks (pool s')
               /\ running_count s' = S (running_count s))
  /\ (forall s', step s s' -> control s = Admitting -> control s' = Sleeping ->
        tasks (pool s') = [] \/ size (runningTasks (pool s')) = limit)
  /\ (can_start s = true ->
      forall now', exists turns s',
        (turns = [] \/ turns = [Enter] \/ turns = [Wake; Enter])
        /\ moves (turns ++ [StartNext now']) s = Some s'
        /\ forall task rest,
             tasks (pool s) = task :: rest ->
             tasks (pool s') = rest /\ id task ∈ runningTasks (pool s')).
Proof.
  intros Hadd Hreach.
  destruct (addTasks_fresh_start _ _ _ _ _ _ _ _ rm_ok now Hadd) as [Hfresh Hlim].
  pose proof (reachable_inv _ _ Hfresh Hreach) as Hinv.
  pose proof (size_running_length _ _ Hinv) as Hsize.
  pose proof (inv_bound _ _ Hinv) as Hbound.
  pose proof (inv_size _ _ Hinv) as Hsz. cbn in Hsz. rewrite Hlim in Hsz.
  rewrite Hsz in Hbound.
  split; [pose proof (running_count_le _ _ Hinv); lia|].
  split; [lia|]. split; [|split].
  - intros Hc Hcan. pose proof Hcan as Hcan'.
    apply can_start_true in Hcan' as (_ & task & rest & Et).
    exists task, rest. split; [exact Et|]. split.
    { exists (start_next 0 s). now constructor. }
    intros s1 Hstep. inversion Hstep; subst; try congruence.
    exists now0. split; [reflexivity|].
    unfold start_next. rewrite Et. unfold executeTask_begin.
    cbn [pool tasks set_tasks set_runningTasks runningTasks].
    split; [reflexivity|]. split; [set_solver|].
    unfold running_count, all_tasks.
    cbn [pool tasks set_tasks set_runningTasks inflight].
    pose proof (queue_not_running _ _ Hinv) as Hq. rewrite Et in *.
    assert (Hq2 : List.filter is_running rest = []).
    { cbn [List.filter] in Hq. destruct (is_running task); [discriminate Hq|exact Hq]. }
    rewrite !List.filter_app, Hq, Hq2, !map_app, List.filter_app, !length_app.
    cbn. lia.
  - intros s1 Hstep Hc Hc1. inversion Hstep; subst; try congruence.
    + unfold start_next in Hc1. destruct (tasks (pool s)); cbn in Hc1; congruence.
    + cbn [set_control pool]. unfold can_start in H0.
      apply andb_false_iff in H0 as [H0|H0].
      * right. apply Nat.ltb_ge in H0. rewrite Hsz in H0. lia.
      * left. now destruct (tasks (pool s)).
  - intros Hcan now'. pose proof Hcan as Hcan'.
    apply can_start_true in Hcan' as (_ & task & rest & Et).
    assert (Hw : work_left s = true) by (unfold work_left; now rewrite Et).
    assert (Hgoal : forall c,
               move (StartNext now') (set_control c s)
               = (if c is Admitting then Some (start_next now' (set_control c s))
                  else None)).
    { intros c. unfold move. cbn [control set_control].
      destruct c; try reflexivity.
      replace (can_start (set_control Admitting s)) with (can_start s)
        by reflexivity. now rewrite Hcan. }
    assert (Hstarted : forall c t l,
               tasks (pool s) = t :: l ->
               tasks (pool (start_next now' (set_control c s))) = l
               /\ id t ∈ runningTasks (pool (start_next now' (set_control c s)))).
    { intros c t l Etl. unfold start_next. cbn [set_control pool]. rewrite Etl.
      cbn [executeTask_begin pool set_tasks set_runningTasks tasks runningTasks].
      split; [reflexivity|]. apply elem_of_union_l, elem_of_singleton. reflexivity. }
    destruct (control s) eqn:Ec.
    + exists [Enter], (start_next now' (set_control Admitting s)).
      split; [auto|]. split; [|apply Hstarted].
      cbn [app moves]. unfold move at 1. rewrite Ec, Hw.
      now rewrite (Hgoal Admitting).
    + exists [], (start_next now' (set_control Admitting s)).
      split; [auto|]. split; [|apply Hstarted].
      cbn [app moves]. unfold move. rewrite Ec, Hcan.
      destruct s; cbn in Ec; subst; reflexivity.
    + exists [Wake; Enter], (start_next now' (set_control Admitting s)).
      split; [auto|]. split; [|apply Hstarted].
      cbn [app moves]. unfold move at 1. rewrite Ec.
      unfold move at 1. cbn [control set_control].
      replace (work_left (set_control LoopHead s)) with (work_left s)
        by reflexivity.
      rewrite Hw.
      change (set_control Admitting (set_control LoopHead s))
        with (set_control Admitting s).
      now rewrite (Hgoal Admitting).
    + pose proof (inv_done _ _ Hinv Ec). congruence.
Qed.

Example sample_mid_running :
  running_count sample_mid = 2%nat /\ length (tasks (pool sample_mid)) = 1%nat.
Proof. vm_compute. split; reflexivity. Qed.

Lemma admission_invariant_witness :
  (running_count sample_mid <= 2)%nat
  /\ (size (runningTasks (pool sample_mid)) <= 2)%nat.
Proof.
  pose proof (admission_invariant 3 2 (sample_add_env two_accounts_file)
                empty_store empty_world sample_added.1.1 sample_added.1.2
                sample_added.2 true 1722000001000 sample_mid
                sample_added_eq sample_mid_reachable) as H.
  split; [exact (proj1 H) | exact (proj1 (proj2 H))].
Defined.

(** *** Exactly once *)

(** C6. In every state of a pool run: the ids of the enqueued tasks are
    pairwise distinct; the queue the run started with is the started
    tasks, in order, followed by the tasks still pending, so that no task
    ever returns to the queue or is started twice; the started tasks are
    those whose [main] has settled together with those whose [main] is
    under way; every record written to the log by the run carries 1
    attempt. Once [run] is past its loop, every enqueued task has been
    started once and has settled once. *)
Theorem exactly_once (taskCount limit : nat) (env : AddEnv)
    (st : Store) (w : World) (p : TaskPool) (st' : Store) (w' : World)
    (rm_ok : bool) (now : Z) (s : System) :
  addTasks taskCount env (new_TaskPool limit) st w = inr (p, st', w') ->
  reachable (run_start rm_ok now p st' w') s ->
  let s0 := run_start rm_ok now p st' w' in
  NoDup (map id (tasks p))
  /\ map id (tasks p) = started_ids (printed s0 s) ++ map id (tasks (pool s))
  /\ started_ids (printed s0 s)
     ≡ₚ settled_ids (printed s0 s) ++ in_main_ids (inflight s)
  /\ Forall one_attempt (written s0 s)
  /\ (control s = Done ->
      tasks (pool s) = [] /\ inflight s = []
      /\ started_ids (printed s0 s) = map id (tasks p)
      /\ settled_ids (printed s0 s) ≡ₚ map id (tasks p)).
Proof.
  intros Hadd Hreach s0.
  destruct (addTasks_fresh_start _ _ _ _ _ _ _ _ rm_ok now Hadd) as [Hfresh _].
  pose proof (reachable_inv _ _ Hfresh Hreach) as Hinv. fold s0 in Hinv.
  pose proof (inv_queue _ _ Hinv) as Hq.
  pose proof (inv_settled _ _ Hinv) as Hset.
  split; [exact (fresh_ids _ Hfresh)|].
  split; [exact Hq|]. split; [exact Hset|].
  split; [exact (inv_attempts _ _ Hinv)|].
  intros Hdone. pose proof (inv_done _ _ Hinv Hdone) as Hw.
  unfold work_left in Hw. apply orb_false_iff in Hw as [Ht Hr].
  assert (Et : tasks (pool s) = []) by (destruct (tasks (pool s)); [reflexivity|discriminate]).
  assert (Ei : inflight s = []).
  { apply Nat.ltb_ge in Hr. rewrite (size_running_length _ _ Hinv) in Hr.
    destruct (inflight s); [reflexivity|cbn in Hr; lia]. }
  rewrite Et, app_nil_r in Hq. rewrite Ei in Hset. cbn in Hset.
  rewrite app_nil_r in Hset.
  split; [exact Et|]. split; [exact Ei|]. split; [now symmetry|].
  cbn [s0 run_start pool set_batchStartTime tasks] in Hq.
  rewrite Hq. now symmetry.
Qed.

Lemma exactly_once_witness :
  started_ids (printed sample_start sample_end) = map id (tasks sample_added.1.1)
  /\ settled_ids (printed sample_start sample_end) ≡ₚ map id (tasks sample_added.1.1)
  /\ Forall one_attempt (written sample_start sample_end).
Proof.
  pose proof (exactly_once 3 2 (sample_add_env two_accounts_file)
                empty_store empty_world sample_added.1.1 sample_added.1.2
                sample_added.2 true 1722000001000 sample_end
                sample_added_eq sample_end_reachable) as H.
  cbv zeta in H. destruct H as (_ & _ & _ & Hatt & Hdone).
  destruct (Hdone ltac:(vm_compute; reflexivity)) as (_ & _ & Hs & Hp).
  split; [exact Hs|]. split; [exact Hp | exact Hatt].
Defined.

(** *** One task from start to end *)

Lemma insert_last {A} (l : list A) x y : <[ length l := y ]> (l ++ [x]) = l ++ [y].
Proof. rewrite <- (Nat.add_0_r (length l)). now rewrite insert_app_r. Qed.

Lemma delete_last {A} (l : list A) x : delete (length l) (l ++ [x]) = l.
Proof. rewrite delete_middle. apply app_nil_r. Qed.

Lemma lookup_last {A} (l : list A) x : (l ++ [x]) !! length l = Some x.
Proof. now apply list_lookup_middle. Qed.

(** C7, as the code has it. For every task that has an account, whose
    browser was launched and whose login flow has settled: its session is
    killed and its client closed if the login flow failed, and is left
    alive with the client attached if the login flow succeeded; either
    way [logTaskResult] is called once, with a record of 1 attempt for the
    task's account (appended unless the write fails), the account's
    profile folder is gone unless its removal fails, and the task has
    left the running set. *)
Theorem executeTask_teardown (start_time end_time : Z) (env : MainEnv)
    (write_ok rm_ok : bool) (task : Task) (a : AccountInfo)
    (res : option LoginError) (s : System) :
  account task = Some a ->
  launch env = Launched ->
  performGoogleLogin (Some a) (script env) = Some res ->
  let ok := match res with None => true | Some _ => false end in
  exists s' r,
    executeTask start_time end_time env write_ok rm_ok task s = Some s'
    /\ sessions (world s')
       = sessions (world s)
         ++ [{| session_email := email a; process_alive := ok; client_open := ok |}]
    /\ attempts r = 1 /\ result_email r = email a /\ success r = ok
    /\ logFile (world s')
       = logFile (world s) ++ (if write_ok then [TaskLine r] else [])
    /\ (rm_ok = true -> profile_folder (email a) ∉ profileDirs (world s'))
    /\ inflight s' = inflight s
    /\ id task ∉ runningTasks (pool s').
Proof.
  intros Hacc Hlaunch Hlogin ok.
  set (t1 := {| id := id task; status := RUNNING; startTime := Some start_time;
                endTime := endTime task; error := error task;
                account := account task |}).
  set (msg := message <$> res).
  set (r := task_result end_time msg t1 a).
  set (w1 := set_sessions
               (sessions (world s)
                ++ [{| session_email := email a; process_alive := ok;
                       client_open := ok |}])
               (set_profileDirs ({[ profile_folder (email a) ]} ∪ profileDirs (world s))
                  (print (Started (id task)) (world s)))).
  set (line := match msg with
               | None => Completed (id task)
               | Some m => FailedLine (id task) m
               end).
  set (p1 := count_outcome ok
               (set_runningTasks ({[ id task ]} ∪ runningTasks (pool s)) (pool s))).
  set (s2 := {| pool := p1; store := store s; world := print line w1;
                inflight := inflight s ++ [{| act_task := settled_task end_time msg t1;
                                              act_phase := InLog r |}];
                control := control s |}).
  set (s3 := {| pool := p1; store := store s;
                world := logTaskResult write_ok r (print line w1);
                inflight := inflight s ++ [{| act_task := settled_task end_time msg t1;
                                              act_phase := InRemove (email a) |}];
                control := control s |}).
  set (s4 := {| pool := set_runningTasks (runningTasks p1 ∖ {[ id task ]}) p1;
                store := store s;
                world := removeAccountProfileFolder rm_ok (email a)
                           (logTaskResult write_ok r (print line w1));
                inflight := inflight s;
                control := control s |}).
  assert (E1 : settle (length (inflight s)) end_time env
                 (executeTask_begin start_time task s) = Some s2).
  { unfold settle, executeTask_begin. cbn [inflight store world pool].
    rewrite lookup_last. fold t1. cbn [act_task act_phase].
    unfold main. replace (account t1) with (Some a) by (symmetry; exact Hacc).
    cbn [resolve_account]. rewrite Hlaunch, Hlogin.
    subst s2 line msg ok w1 p1 r. destruct res as [e|];
      cbn [fmap option_map control]; rewrite insert_last; reflexivity. }
  assert (E2 : logged (length (inflight s)) write_ok s2 = Some s3).
  { unfold logged. subst s2. cbn [inflight]. rewrite lookup_last, insert_last.
    reflexivity. }
  assert (E3 : removed (length (inflight s)) rm_ok s3 = Some s4).
  { unfold removed. subst s3. cbn [inflight]. rewrite lookup_last, delete_last.
    reflexivity. }
  exists s4, r. unfold executeTask. rewrite E1. cbn [mbind option_bind].
  rewrite Hacc, E2. cbn [mbind option_bind]. rewrite E3.
  split; [reflexivity|].
  assert (Hsess : forall w, sessions (removeAccountProfileFolder rm_ok (email a) w)
                            = sessions w
                            /\ logFile (removeAccountProfileFolder rm_ok (email a) w)
                               = logFile w).
  { intros w0. unfold removeAccountProfileFolder. destruct (_ && _); now split. }
  subst s4. cbn [world inflight pool].
  split; [rewrite (proj1 (Hsess _)); reflexivity|].
  split; [reflexivity|]. split; [reflexivity|].
  split; [subst r msg ok; now destruct res|].
  split; [rewrite (proj2 (Hsess _)); destruct write_ok; cbn;
          rewrite ?app_nil_r; reflexivity|].
  split; [|split; [reflexivity|]].
  - intros ->. unfold removeAccountProfileFolder.
    cbn [logTaskResult append_log print profileDirs w1 set_sessions set_profileDirs].
    rewrite bool_decide_eq_true_2
      by (apply elem_of_union_l, elem_of_singleton; reflexivity).
    cbn [andb set_profileDirs profileDirs].
    rewrite elem_of_difference, elem_of_singleton. intros [_ H]. now apply H.
  - subst p1. cbn [set_runningTasks runningTasks count_outcome].
    rewrite elem_of_difference, elem_of_singleton. intros [_ H]. now apply H.
Qed.

Lemma executeTask_teardown_witness :
  exists s' r,
    executeTask 1722000001001 1722000019000 (env_of stuck_script) true true
      sample_task sample_start = Some s'
    /\ sessions (world s')
       = sessions (world sample_start)
         ++ [{| session_email := js "a@x.com"; process_alive := false;
                client_open := false |}]
    /\ attempts r = 1 /\ result_email r = js "a@x.com" /\ success r = false
    /\ logFile (world s') = logFile (world sample_start) ++ [TaskLine r]
    /\ (true = true -> profile_folder (js "a@x.com") ∉ profileDirs (world s'))
    /\ inflight s' = inflight sample_start
    /\ id sample_task ∉ runningTasks (pool s').
Proof.
  apply (executeTask_teardown 1722000001001 1722000019000 (env_of stuck_script)
           true true sample_task sample_account (Some InvalidCredentials)
           sample_start).
  - reflexivity.
  - reflexivity.
  - vm_compute. reflexivity.
Defined.

(** Teardown on success does not hold: a task whose login succeeds
    finishes (it is counted as completed, has left the running set, its
    record is in the log) with the browser process of its session alive
    and the client attached. *)
Lemma teardown_counterexample :
  exists s',
    executeTask 1722000001001 1722000031000 (env_of success_script) true true
      sample_task sample_start = Some s'
    /\ inflight s' = []
    /\ runningTasks (pool s') = ∅
    /\ completedTasks (pool s') = 1%nat
    /\ length (logFile (world s')) = S (length (logFile (world sample_start)))
    /\ sessions (world s')
       = [{| session_email := js "a@x.com"; process_alive := true;
             client_open := true |}].
Proof.
  eexists. split; [vm_compute; reflexivity|].
  repeat split; vm_compute; reflexivity.
Qed.

(** The same at the end of the sample run: [run] is past its loop, no
    task is running, and the sessions of the two successful tasks are
    still open. *)
Example sample_end_sessions :
  control sample_end = Done
  /\ inflight sample_end = []
  /\ map (fun x => (process_alive x, client_open x)) (sessions (world sample_end))
     = [(true, true); (false, false); (true, true)].
Proof. vm_compute. repeat split; reflexivity. Qed.

End PoolRunFacts.

(** ** More on the account store *)
Module AccountStoreProps.
Import JS JSFacts AccountManager AccountFile Shapes AccountManagerFacts.

Lemma half_used_store_distinct : distinct_identifiers half_used_store.
Proof.
  split.
  - apply (bool_decide_unpack _). vm_compute. exact I.
  - apply (bool_decide_unpack _). vm_compute. exact I.
Qed.

Lemma all_used_store_distinct : distinct_identifiers all_used_store.
Proof.
  split.
  - apply (bool_decide_unpack _). vm_compute. exact I.
  - apply (bool_decide_unpack _). vm_compute. exact I.
Qed.

(** X1. While the store has an account whose identifier is not in the
    used-set, [getNextAccount] returns the first such account in file
    order and leaves the store as it is. *)
Theorem getNextAccount_first_unused (st : Store) (b : AccountInfo) :
  b ∈ accounts st -> email b ∉ usedAccounts st ->
  exists l1 a l2,
    accounts st = l1 ++ a :: l2
    /\ (forall c, c ∈ l1 -> email c ∈ usedAccounts st)
    /\ (email a ∉ usedAccounts st)
    /\ getNextAccount st = (Some a, st).
Proof.
  intros Hb Hfree. unfold getNextAccount.
  destruct (List.find (is_unused (usedAccounts st)) (accounts st)) as [a|] eqn:E.
  - apply find_unused_first in E as (l1 & l2 & El & Hused & Ha).
    exists l1, a, l2. auto.
  - exfalso. apply Hfree. now apply (proj1 (find_unused_none _ _) E).
Qed.

Lemma getNextAccount_first_unused_witness :
  exists l1 a l2,
    accounts half_used_store = l1 ++ a :: l2
    /\ (forall c, c ∈ l1 -> email c ∈ usedAccounts half_used_store)
    /\ (email a ∉ usedAccounts half_used_store)
    /\ getNextAccount half_used_store = (Some a, half_used_store).
Proof.
  apply (getNextAccount_first_unused half_used_store
           {| email := js "b@x.com"; password := js "pw2";
              twoStepCode := js "K2"; isTotp := false |}).
  - cbn. right. left.
  - cbn. apply (bool_decide_unpack _). vm_compute. exact I.
Defined.

(** X2. On a store whose identifiers are pairwise distinct and whose
    used-set holds identifiers of the store only: once every account is
    used, [getNextAccount] empties the used-set and returns the first
    account of the file; and it returns [null] only on an empty store. *)
Theorem getNextAccount_new_cycle (st : Store) :
  distinct_identifiers st ->
  ((forall b, b ∈ accounts st -> email b ∈ usedAccounts st) ->
   getNextAccount st = (head (accounts st), resetAccountUsage st))
  /\ (fst (getNextAccount st) = None -> accounts st = []).
Proof.
  intros Hd. split.
  - intros Hall. now apply getNextAccount_cycle.
  - now apply getNextAccount_none_empty.
Qed.

Lemma getNextAccount_new_cycle_witness :
  getNextAccount all_used_store
  = (head (accounts all_used_store), resetAccountUsage all_used_store).
Proof.
  apply (proj1 (getNextAccount_new_cycle all_used_store all_used_store_distinct)).
  intros b Hb. cbn in Hb.
  repeat (apply elem_of_cons in Hb as [->|Hb]); [| |inversion Hb];
    cbn; set_solver.
Defined.

(** X3. Whatever the store: [getNextAccount] never changes the account
    list, returns only accounts of the store, leaves the used-set as it
    is or empties it, and when it returns [null] the store is unchanged
    (so that the next call returns [null] again). *)
Theorem getNextAccount_frame (st : Store) :
  accounts (snd (getNextAccount st)) = accounts st
  /\ (forall a, fst (getNextAccount st) = Some a -> a ∈ accounts st)
  /\ (usedAccounts (snd (getNextAccount st)) = usedAccounts st
      \/ usedAccounts (snd (getNextAccount st)) = ∅)
  /\ (fst (getNextAccount st) = None ->
      snd (getNextAccount st) = st
      /\ getNextAccount (snd (getNextAccount st)) = (None, st)).
Proof.
  unfold getNextAccount.
  destruct (List.find (is_unused (usedAccounts st)) (accounts st)) as [a|] eqn:E.
  - cbn [fst snd]. split; [reflexivity|]. split; [|split; [now left|discriminate]].
    intros a' [= <-]. apply find_unused_first in E as (l1 & l2 & -> & _).
    apply elem_of_app. right. left.
  - destruct (size (usedAccounts st) =? length (accounts st))%nat eqn:Es;
      cbn [fst snd accounts usedAccounts].
    + split; [reflexivity|]. split; [|split; [now right|]].
      * intros a Ha. destruct (accounts st); [discriminate|].
        cbn in Ha. injection Ha as <-. left.
      * intros Hn. destruct (accounts st) as [|a l] eqn:Ea; [|discriminate].
        apply Nat.eqb_eq in Es. cbn in Es. apply size_empty_inv in Es.
        apply leibniz_equiv in Es.
        assert (Est : st = {| accounts := []; usedAccounts := ∅ |})
          by (destruct st; cbn in *; congruence).
        split; [now rewrite Est|]. rewrite Est. reflexivity.
    + split; [reflexivity|]. split; [discriminate|]. split; [now left|].
      intros _. split; [reflexivity|]. now rewrite E, Es.
Qed.

Lemma map_filter_NoDup {A B} `{EqDecision B} (f : A -> B) (g : A -> bool) l :
  NoDup (map f l) -> NoDup (map f (List.filter g l)).
Proof.
  induction l as [|a l IH]; cbn [map List.filter]; [auto|].
  intros Hnd. apply NoDup_cons in Hnd as [Ha Hnd].
  destruct (g a); cbn [map]; [|now apply IH].
  apply NoDup_cons. split; [|now apply IH].
  intros Hin. apply Ha. apply list_elem_of_fmap in Hin as (x & -> & Hx).
  apply list_elem_of_fmap. exists x. split; [reflexivity|].
  apply list_elem_of_In in Hx. apply List.filter_In in Hx as [Hx _].
  now apply list_elem_of_In.
Qed.

(** X4. On a store whose identifiers are pairwise distinct and whose
    used-set holds identifiers of the store only, the available count of
    [getAccountStats] is the number of accounts [getNextAccount] can
    still hand out in this cycle, and [used + available = total] with all
    three between 0 and the number of accounts. *)
Theorem getAccountStats_available (st : Store) :
  distinct_identifiers st ->
  available (getAccountStats st)
  = Z.of_nat (length (List.filter (is_unused (usedAccounts st)) (accounts st)))
  /\ available (getAccountStats st) = getAvailableAccountCount st
  /\ used (getAccountStats st) + available (getAccountStats st)
     = total (getAccountStats st)
  /\ 0 <= used (getAccountStats st) <= total (getAccountStats st).
Proof.
  intros [Hnd Hsub].
  set (is_used := fun a => negb (is_unused (usedAccounts st) a)).
  assert (E : usedAccounts st
              = list_to_set (map email (List.filter is_used (accounts st)))).
  { apply set_eq. intros e. rewrite elem_of_list_to_set, list_elem_of_fmap. split.
    - intros He. pose proof (Hsub e He) as Hin.
      apply elem_of_list_to_set, list_elem_of_fmap in Hin as (a & -> & Ha).
      exists a. split; [reflexivity|]. apply list_elem_of_In, List.filter_In.
      split; [now apply list_elem_of_In|].
      subst is_used. cbn. apply negb_true_iff, is_unused_false, He.
    - intros (a & -> & Ha). apply list_elem_of_In, List.filter_In in Ha as [_ Ha].
      subst is_used. cbn in Ha. now apply negb_true_iff, is_unused_false in Ha. }
  assert (Hsize : size (usedAccounts st)
                  = length (List.filter is_used (accounts st))).
  { rewrite E at 1. rewrite size_list_to_set by now apply map_filter_NoDup.
    apply length_map. }
  pose proof (List.filter_length (is_unused (usedAccounts st)) (accounts st)) as Hlen.
  assert (Hsame : List.filter is_used (accounts st)
                  = List.filter (fun x => negb (is_unused (usedAccounts st) x))
                      (accounts st)) by reflexivity.
  unfold getAccountStats, getAvailableAccountCount. cbn [total used available].
  rewrite Hsize, Hsame. repeat split; lia.
Qed.

Lemma getAccountStats_available_witness :
  available (getAccountStats half_used_store) = 1.
Proof.
  rewrite (proj1 (getAccountStats_available half_used_store
                    half_used_store_distinct)).
  vm_compute. reflexivity.
Defined.

End AccountStoreProps.

(** ** More on [addTasks] *)
Module AddTasksProps.
Import JS JSFacts AccountManager AccountFile Shapes AccountManagerFacts.
Import GoogleLogin Logger Index Pool PoolFacts.




(** X6. The tasks [addTasks] queues on a new pool have pairwise distinct
    ids, whatever [Date.now()] returns (two calls may return the same
    millisecond); each one is pending, carries an account, has no start
    or end time and no error; and the pool's running set and counters
    are still empty. *)
Theorem addTasks_distinct_ids (taskCount size : nat) (env : AddEnv)
    (st : Store) (w : World) (p : TaskPool) (st' : Store) (w' : World) :
  addTasks taskCount env (new_TaskPool size) st w = inr (p, st', w') ->
  NoDup (map id (tasks p))
  /\ Forall (fun t => status t = PENDING /\ is_Some (account t)
                      /\ startTime t = None /\ endTime t = None
                      /\ error t = None
                      /\ exists j, (1 <= j <= taskCount)%nat
                                   /\ id t = task_id j (clock env j))
       (tasks p)
  /\ runningTasks p = ∅
  /\ completedTasks p = 0%nat /\ failedTasks p = 0%nat
  /\ poolSize p = size.
Proof.
  unfold addTasks. destruct (file env) as [content|]; [|discriminate].
  destruct (getTotalAccountCount _ =? 0)%nat; [discriminate|].
  cbn [tasks new_TaskPool].
  destruct (addTasks_loop _ _ _ _ _ _) as [[queue st2] w1] eqn:E.
  intros [= <- <- <-]. cbn.
  assert (Hgen : forall count i q s0 w0 q' s1 w2,
             addTasks_loop (clock env) i count q s0 w0 = (q', s1, w2) ->
             Forall (fun t => exists j a, (1 <= j < i)%nat
                                          /\ t = new_task j (clock env j) a) q ->
             (1 <= i)%nat ->
             Forall (fun t => exists j a, (1 <= j < i + count)%nat
                                          /\ t = new_task j (clock env j) a) q').
  { induction count as [|count IH]; intros i q s0 w0 q' s1 w2 H Hq Hi;
      cbn [addTasks_loop] in H.
    - inversion H; subst. now rewrite Nat.add_0_r.
    - replace (i + S count)%nat with (S i + count)%nat by lia.
      destruct (getNextAccount s0) as [[a|] s2].
      + eapply IH; [exact H| |lia]. apply Forall_app. split.
        * eapply Forall_impl; [exact Hq|]. intros t (j & b & Hj & ->).
          exists j, b. split; [lia|reflexivity].
        * constructor; [|constructor]. exists i, a. split; [lia|reflexivity].
      + eapply IH; [exact H| |lia].
        eapply Forall_impl; [exact Hq|]. intros t (j & b & Hj & ->).
        exists j, b. split; [lia|reflexivity]. }
  pose proof (Hgen _ _ _ _ _ _ _ _ E (List.Forall_nil _) (le_n 1)) as Hb.
  apply addTasks_loop_queue in E as (_ & Hnd & _); [|constructor..].
  split; [exact Hnd|]. split; [|repeat split].
  eapply Forall_impl; [exact Hb|]. intros t (j & a & Hj & ->).
  cbn. repeat split; eauto. exists j. split; [lia|reflexivity].
Qed.

Lemma addTasks_distinct_ids_witness :
  NoDup (map id (tasks sample_added.1.1)).
Proof.
  exact (proj1 (addTasks_distinct_ids 3 2 (sample_add_env two_accounts_file)
                  empty_store empty_world sample_added.1.1 sample_added.1.2
                  sample_added.2 ltac:(vm_compute; reflexivity))).
Defined.

(** How many identifiers are marked after [count] iterations that start
    with [u] marked, on [K] accounts. *)
Lemma addTasks_loop_used clock count :
  forall i queue st w u queue' st' w',
    NoDup (map email (accounts st)) ->
    used_prefix u st ->
    (u <= length (accounts st))%nat ->
    accounts st <> [] ->
    addTasks_loop clock i count queue st w = (queue', st', w') ->
    accounts st' = accounts st
    /\ used_prefix
         (match count with
          | O => u
          | S c => (u + c) mod length (accounts st) + 1
          end)%nat st'.
Proof.
  induction count as [|count IH];
    intros i queue st w u queue' st' w' Hnd Hu Hle Hne H;
    cbn [addTasks_loop] in H.
  - inversion H; subst. now split.
  - destruct (getNextAccount_prefix st u Hnd Hu Hle Hne)
      as (a & Ha & Hfst & Hacc & Hu').
    destruct (getNextAccount st) as [o st1]. cbn [fst snd] in *. subst o.
    set (K := length (accounts st)) in *.
    assert (HK : (0 < K)%nat).
    { subst K. destruct (accounts st); [congruence | cbn; lia]. }
    apply (IH _ _ _ _ (u mod K + 1)%nat) in H.
    + cbn [markAccountAsUsed accounts] in H. rewrite Hacc in H. fold K in H.
      destruct H as [H1 H2]. split; [exact H1|].
      destruct count as [|c].
      * now rewrite Nat.add_0_r.
      * replace ((u + S c) mod K)%nat with ((u mod K + 1 + c) mod K)%nat;
          [exact H2|].
        rewrite <- Nat.add_assoc, Nat.Div0.add_mod_idemp_l. reflexivity.
    + cbn [markAccountAsUsed accounts]. now rewrite Hacc.
    + exact Hu'.
    + cbn [markAccountAsUsed accounts]. rewrite Hacc. fold K.
      pose proof (Nat.mod_upper_bound u K). lia.
    + cbn [markAccountAsUsed accounts]. now rewrite Hacc.
Qed.

(** X7. After [addTasks(n)], n >= 1, on a file of K >= 1 accounts with
    pairwise distinct identifiers and nothing marked before, the used-set
    holds the identifiers of the first [(n - 1) mod K + 1] accounts: the
    used count that [getAccountStats] reports is the position reached in
    the current cycle, not the number of tasks. *)
Theorem addTasks_used_count (taskCount size : nat) (env : AddEnv)
    (content : jsstring) (st : Store) (w : World)
    (p : TaskPool) (st' : Store) (w' : World) :
  file env = Some content ->
  NoDup (map email (parseAccounts content)) ->
  usedAccounts st = ∅ ->
  (1 <= taskCount)%nat ->
  addTasks taskCount env (new_TaskPool size) st w = inr (p, st', w') ->
  let K := length (parseAccounts content) in
  accounts st' = parseAccounts content
  /\ usedAccounts st'
     = list_to_set
         (map email (take ((taskCount - 1) mod K + 1) (parseAccounts content)))
  /\ used (getAccountStats st') = Z.of_nat ((taskCount - 1) mod K + 1)
  /\ total (getAccountStats st') = Z.of_nat K.
Proof.
  intros Hfile Hnd Hused Hn. unfold addTasks. rewrite Hfile.
  unfold getTotalAccountCount. cbn [loadAccounts accounts].
  destruct (length (parseAccounts content) =? 0)%nat eqn:E0; [discriminate|].
  apply Nat.eqb_neq in E0.
  destruct (addTasks_loop _ _ _ _ _ _) as [[queue st2] w1] eqn:E.
  intros [= <- <- <-]. set (K := length (parseAccounts content)) in *.
  apply (addTasks_loop_used _ _ _ _ _ _ 0%nat) in E.
  - cbn [loadAccounts accounts] in E. destruct E as [Hacc Hu].
    destruct taskCount as [|c]; [lia|].
    cbn [Nat.add] in Hu. replace (S c - 1)%nat with c by lia.
    unfold used_prefix in Hu. rewrite Hacc in Hu. fold K in Hu.
    split; [exact Hacc|]. split; [exact Hu|].
    unfold getAccountStats. cbn [used total]. rewrite Hacc. fold K.
    split; [|reflexivity]. rewrite Hu. f_equal.
    rewrite size_list_to_set.
    + rewrite length_map, length_take. fold K.
      pose proof (Nat.mod_upper_bound c K E0). lia.
    + rewrite <- (take_drop ((c mod K) + 1) (parseAccounts content)), map_app in Hnd.
      now apply NoDup_app in Hnd as (Hnd & _).
  - exact Hnd.
  - unfold used_prefix. cbn [loadAccounts usedAccounts accounts take map].
    rewrite Hused. reflexivity.
  - lia.
  - cbn [loadAccounts accounts]. intros Hnil. apply E0. subst K.
    now rewrite Hnil.
Qed.

Lemma addTasks_used_count_witness :
  used (getAccountStats sample_added.1.2) = 1
  /\ total (getAccountStats sample_added.1.2) = 2.
Proof.
  pose proof (addTasks_used_count 3 2 (sample_add_env two_accounts_file)
                two_accounts_file empty_store empty_world
                sample_added.1.1 sample_added.1.2 sample_added.2
                eq_refl
                ltac:(apply (bool_decide_unpack _); vm_compute; exact I)
                eq_refl ltac:(lia) ltac:(vm_compute; reflexivity)) as H.
  cbv zeta in H. destruct H as (_ & _ & H1 & H2).
  split; [exact H1 | exact H2].
Defined.

End AddTasksProps.

(** ** The run as a whole *)
Module RunProps.
Import JS AccountManager GoogleLogin Logger Index Pool Shapes PoolFacts PoolRunFacts.

Lemma completed_count_app c1 c2 :
  completed_count (c1 ++ c2) = (completed_count c1 + completed_count c2)%nat.
Proof. unfold completed_count. now rewrite List.filter_app, length_app. Qed.

Lemma failed_count_app c1 c2 :
  failed_count (c1 ++ c2) = (failed_count c1 + failed_count c2)%nat.
Proof. unfold failed_count. now rewrite List.filter_app, length_app. Qed.

Lemma settled_count c :
  length (settled_ids c) = (completed_count c + failed_count c)%nat.
Proof.
  unfold settled_ids, completed_count, failed_count.
  induction c as [|l c IH]; [reflexivity|].
  destruct l; cbn [omap list_omap List.filter length] in *; lia.
Qed.

Lemma summary_carry s s' l :
  control s <> Done -> Forall (summary_of s) l -> Forall (summary_of s') l.
Proof.
  intros Hc H. eapply Forall_impl; [exact H|].
  intros [r|n|ok failed total]; cbn; tauto.
Qed.

Lemma remove_folder_frame rm_ok e w :
  console (removeAccountProfileFolder rm_ok e w) = console w
  /\ logFile (removeAccountProfileFolder rm_ok e w) = logFile w
  /\ sessions (removeAccountProfileFolder rm_ok e w) = sessions w.
Proof. unfold removeAccountProfileFolder. destruct (_ && _); now repeat split. Qed.

(** Every turn keeps the counters in step with the console. *)
Lemma step_count s0 s s' :
  pool_inv s0 s -> count_inv s0 s -> step s s' -> count_inv s0 s'.
Proof.
  intros Hinv [H1 H2 H3] Hstep.
  pose proof (inv_console _ _ Hinv) as Hcon.
  pose proof (inv_log _ _ Hinv) as Hlog.
  destruct Hstep as
    [s Hc Hw | s now write_ok Hc Hw | s now Hc Hcan | s Hc Hcan | s Hc
    | s i now env s' Hc Hs | s i write_ok s' Hc Hs | s i rm_ok s' Hc Hs].
  - constructor; [exact H1 | exact H2 |].
    apply (summary_carry s); [congruence | exact H3].
  - set (e := BatchEnd (completedTasks (pool s)) (failedTasks (pool s))
                (now - batchStartTime (pool s))).
    destruct (drop_extend _ _ [e] Hlog) as [_ Hl2].
    constructor; [exact H1 | exact H2 |].
    unfold written, finish_run, logBatchEnd, append_log.
    cbn [world logFile]. destruct write_ok.
    + fold e. rewrite Hl2. apply Forall_app. split.
      * apply (summary_carry s); [congruence | exact H3].
      * constructor; [|constructor]. cbn. auto.
    + apply (summary_carry s); [congruence | exact H3].
  - apply can_start_true in Hcan as (_ & task & rest & Et).
    destruct (drop_extend _ _ [Started (id task)] Hcon) as [_ Hc2].
    unfold start_next. rewrite Et.
    constructor; unfold printed, written, executeTask_begin;
      cbn [pool world set_tasks set_runningTasks completedTasks failedTasks
           print console logFile].
    + fold (printed s0 s) in *. rewrite Hc2, completed_count_app, H1.
      cbn. lia.
    + fold (printed s0 s) in *. rewrite Hc2, failed_count_app, H2.
      cbn. lia.
    + apply (summary_carry s); [congruence | exact H3].
  - constructor; [exact H1 | exact H2 |].
    apply (summary_carry s); [congruence | exact H3].
  - constructor; [exact H1 | exact H2 |].
    apply (summary_carry s); [congruence | exact H3].
  - unfold settle in Hs.
    destruct (inflight s !! i) as [[task [| |]]|]; try discriminate.
    destruct (main _ _ _ _) as [[[res st'] w']|] eqn:Em; [|discriminate].
    destruct (main_world _ _ _ _ _ _ _ Em) as [Hmc Hml].
    set (line := match res with
                 | Some msg => FailedLine (id task) msg
                 | None => Completed (id task)
                 end) in *.
    destruct (drop_extend _ _ [line] Hcon) as [_ Hc2].
    assert (Hs' : completedTasks (pool s') = completedTasks
                    (count_outcome (match res with None => true | Some _ => false end) (pool s))
                  /\ failedTasks (pool s') = failedTasks
                    (count_outcome (match res with None => true | Some _ => false end) (pool s))
                  /\ world s' = print line w' /\ control s' = control s).
    { destruct (account task); injection Hs as <-; now repeat split. }
    destruct Hs' as (E1 & E2 & E3 & E4).
    constructor; unfold printed, written; rewrite ?E1, ?E2, E3;
      cbn [print console logFile]; rewrite ?Hmc, ?Hml.
    + fold (printed s0 s) in *. rewrite Hc2, completed_count_app.
      subst line. destruct res; cbn [count_outcome completedTasks];
        rewrite H1; cbn; lia.
    + fold (printed s0 s) in *. rewrite Hc2, failed_count_app.
      subst line. destruct res; cbn [count_outcome failedTasks];
        rewrite H2; cbn; lia.
    + eapply Forall_impl; [exact H3|].
      intros [r|n|ok failed total]; cbn; try tauto. intros [? _]. congruence.
  - unfold logged in Hs.
    destruct (inflight s !! i) as [[task [|r|]]|]; try discriminate.
    injection Hs as <-.
    destruct (drop_extend _ _ [TaskLine r] Hlog) as [_ Hl2].
    constructor; unfold printed, written, logTaskResult, append_log;
      cbn [pool world console logFile]; [exact H1 | exact H2 |].
    destruct write_ok.
    + rewrite Hl2. apply Forall_app. split.
      * apply (summary_carry s); [congruence | exact H3].
      * constructor; [exact I | constructor].
    + apply (summary_carry s); [congruence | exact H3].
  - unfold removed in Hs.
    destruct (inflight s !! i) as [[task [| |e]]|]; try discriminate.
    injection Hs as <-.
    destruct (remove_folder_frame rm_ok e (world s)) as (Hwc & Hwl & _).
    constructor; unfold printed, written;
      cbn [pool world set_runningTasks completedTasks failedTasks];
      rewrite ?Hwc, ?Hwl; [exact H1 | exact H2 |].
    apply (summary_carry s); [congruence | exact H3].
Qed.

Lemma reachable_count s0 s :
  fresh_start s0 -> reachable s0 s -> count_inv s0 s.
Proof.
  intros Hfresh Hreach. unfold reachable in Hreach. revert s Hreach.
  apply rtc_ind_r.
  - constructor; unfold printed, written; rewrite drop_all; cbn; auto.
  - intros s1 s2 H01 Hstep IH.
    eapply step_count; [|exact IH | exact Hstep].
    now apply reachable_inv.
Qed.

Lemma addTasks_counters taskCount size env st w p st' w' :
  addTasks taskCount env (new_TaskPool size) st w = inr (p, st', w') ->
  completedTasks p = 0%nat /\ failedTasks p = 0%nat.
Proof.
  unfold addTasks. destruct (file env) as [content|]; [|discriminate].
  destruct (getTotalAccountCount _ =? 0)%nat; [discriminate|].
  destruct (addTasks_loop _ _ _ _ _ _) as [[queue st2] w1].
  intros [= <- <- <-]. now split.
Qed.

(** X8. In every state of a run of a pool filled by [addTasks], the two
    counters of the pool are the numbers of completion and of failure
    lines the run has printed; counted, inside [main] and pending tasks
    add up to the tasks enqueued. Past the loop the counters add up to
    the tasks enqueued, and a batch-end line written by the run carries
    exactly these two counters. *)
Theorem run_counters (taskCount size : nat) (env : AddEnv)
    (st : Store) (w : World) (p : TaskPool) (st' : Store) (w' : World)
    (rm_ok : bool) (now : Z) (s : System) :
  addTasks taskCount env (new_TaskPool size) st w = inr (p, st', w') ->
  reachable (run_start rm_ok now p st' w') s ->
  completedTasks (pool s)
  = completed_count (printed (run_start rm_ok now p st' w') s)
  /\ failedTasks (pool s)
     = failed_count (printed (run_start rm_ok now p st' w') s)
  /\ (completedTasks (pool s) + failedTasks (pool s)
      + length (in_main_ids (inflight s)) + length (tasks (pool s))
      = length (tasks p))%nat
  /\ (control s = Done ->
      (completedTasks (pool s) + failedTasks (pool s) = length (tasks p))%nat
      /\ Forall (fun e => match e with
                          | BatchEnd ok failed _ =>
                              ok = completedTasks (pool s)
                              /\ failed = failedTasks (pool s)
                          | _ => True
                          end) (written (run_start rm_ok now p st' w') s)).
Proof.
  intros Hadd Hreach.
  destruct (addTasks_fresh_start _ _ _ _ _ _ _ _ rm_ok now Hadd) as [Hfresh _].
  destruct (addTasks_counters _ _ _ _ _ _ _ _ Hadd) as [Hc0 Hf0].
  set (s0 := run_start rm_ok now p st' w') in *.
  pose proof (reachable_inv _ _ Hfresh Hreach) as Hinv.
  destruct (reachable_count _ _ Hfresh Hreach) as [H1 H2 H3].
  change (completedTasks (pool s0)) with (completedTasks p) in H1.
  change (failedTasks (pool s0)) with (failedTasks p) in H2.
  rewrite Hc0 in H1. rewrite Hf0 in H2. cbn [Nat.add] in H1, H2.
  pose proof (f_equal (@length _) (inv_queue _ _ Hinv)) as Hq.
  pose proof (Permutation_length (inv_settled _ _ Hinv)) as Hset.
  rewrite length_app, !length_map in Hq. rewrite length_app, settled_count in Hset.
  change (tasks (pool s0)) with (tasks p) in Hq.
  assert (Hsum : (completedTasks (pool s) + failedTasks (pool s)
                  + length (in_main_ids (inflight s)) + length (tasks (pool s))
                  = length (tasks p))%nat) by lia.
  split; [exact H1|]. split; [exact H2|]. split; [exact Hsum|].
  intros Hdone. pose proof (inv_done _ _ Hinv Hdone) as Hw.
  unfold work_left in Hw. apply orb_false_iff in Hw as [Ht Hr].
  assert (Et : tasks (pool s) = [])
    by (destruct (tasks (pool s)); [reflexivity|discriminate]).
  assert (Ei : inflight s = []).
  { apply Nat.ltb_ge in Hr. rewrite (size_running_length _ _ Hinv) in Hr.
    destruct (inflight s); [reflexivity|cbn in Hr; lia]. }
  rewrite Et, Ei in Hsum. cbn in Hsum. split; [lia|].
  eapply Forall_impl; [exact H3|].
  intros [r|n|ok failed total]; cbn; tauto.
Qed.

Lemma run_counters_witness :
  completedTasks (pool sample_end) = 2%nat
  /\ failedTasks (pool sample_end) = 1%nat
  /\ (completedTasks (pool sample_end) + failedTasks (pool sample_end)
      = length (tasks sample_added.1.1))%nat.
Proof.
  pose proof (run_counters 3 2 (sample_add_env two_accounts_file)
                empty_store empty_world sample_added.1.1 sample_added.1.2
                sample_added.2 true 1722000001000 sample_end
                sample_added_eq sample_end_reachable) as (H1 & H2 & _ & Hdone).
  destruct (Hdone ltac:(vm_compute; reflexivity)) as [Hsum _].
  split; [rewrite H1; vm_compute; reflexivity|].
  split; [rewrite H2; vm_compute; reflexivity|exact Hsum].
Defined.

(** *** A run can end *)

Lemma main_settles_without_browser acct st w :
  exists res st' w', main acct no_browser_env st w = Some (res, st', w').
Proof.
  unfold main.
  destruct (resolve_account acct no_browser_env st) as [[a|msg] st1];
    cbn [launch no_browser_env]; eauto.
Qed.

Lemma head_settles s task rest :
  control s = Sleeping ->
  inflight s = {| act_task := task; act_phase := InMain |} :: rest ->
  exists s1, step s s1 /\ control s1 = Sleeping
    /\ tasks (pool s1) = tasks (pool s)
    /\ (inflight s1 = rest
        \/ exists t r, inflight s1 = {| act_task := t; act_phase := InLog r |} :: rest).
Proof.
  intros Hc Ei.
  destruct (main_settles_without_browser (account task) (store s) (world s))
    as (res & st' & w' & Em).
  assert (E0 : inflight s !! 0%nat = Some {| act_task := task; act_phase := InMain |})
    by (rewrite Ei; reflexivity).
  destruct (settle 0 0 no_browser_env s) as [s1|] eqn:Es.
  - exists s1. split; [eapply step_settle; eassumption|].
    unfold settle in Es. rewrite E0 in Es. cbv beta iota in Es.
    rewrite Em in Es.
    destruct (account task); injection Es as <-;
      cbn [control pool inflight tasks count_outcome set_runningTasks];
      rewrite Ei; (split; [exact Hc|]); (split; [reflexivity|]).
    + right. eauto.
    + left. reflexivity.
  - exfalso. unfold settle in Es. rewrite E0 in Es. cbv beta iota in Es.
    rewrite Em in Es. destruct (account task); discriminate.
Qed.

Lemma head_logged s task r rest :
  control s = Sleeping ->
  inflight s = {| act_task := task; act_phase := InLog r |} :: rest ->
  exists s1, step s s1 /\ control s1 = Sleeping
    /\ tasks (pool s1) = tasks (pool s)
    /\ inflight s1
       = {| act_task := task; act_phase := InRemove (result_email r) |} :: rest.
Proof.
  intros Hc Ei. eexists. split.
  - eapply (step_logged s 0 true); [exact Hc|].
    unfold logged. rewrite Ei. reflexivity.
  - cbn [control pool inflight]. rewrite ?Ei. auto.
Qed.

Lemma head_removed s task e rest :
  control s = Sleeping ->
  inflight s = {| act_task := task; act_phase := InRemove e |} :: rest ->
  exists s1, step s s1 /\ control s1 = Sleeping
    /\ tasks (pool s1) = tasks (pool s) /\ inflight s1 = rest.
Proof.
  intros Hc Ei. eexists. split.
  - eapply (step_removed s 0 true); [exact Hc|].
    unfold removed. rewrite Ei. reflexivity.
  - cbn [control pool inflight set_runningTasks tasks]. rewrite ?Ei. auto.
Qed.

(** While [run] sleeps, the task started first can go through all of
    [executeTask]. *)
Lemma head_leaves s a rest :
  control s = Sleeping -> inflight s = a :: rest ->
  exists s1, rtc step s s1 /\ control s1 = Sleeping
    /\ tasks (pool s1) = tasks (pool s) /\ inflight s1 = rest.
Proof.
  intros Hc Ei. destruct a as [task [|r|e]].
  - destruct (head_settles _ _ _ Hc Ei) as (s1 & S1 & C1 & T1 & [I1|(t & r & I1)]).
    + exists s1. split; [now apply rtc_once|]. auto.
    + destruct (head_logged _ _ _ _ C1 I1) as (s2 & S2 & C2 & T2 & I2).
      destruct (head_removed _ _ _ _ C2 I2) as (s3 & S3 & C3 & T3 & I3).
      exists s3. split; [|split; [exact C3|split; [congruence|exact I3]]].
      eapply rtc_l; [exact S1|]. eapply rtc_l; [exact S2|]. now apply rtc_once.
  - destruct (head_logged _ _ _ _ Hc Ei) as (s2 & S2 & C2 & T2 & I2).
    destruct (head_removed _ _ _ _ C2 I2) as (s3 & S3 & C3 & T3 & I3).
    exists s3. split; [|split; [exact C3|split; [congruence|exact I3]]].
    eapply rtc_l; [exact S2|]. now apply rtc_once.
  - destruct (head_removed _ _ _ _ Hc Ei) as (s3 & S3 & C3 & T3 & I3).
    exists s3. split; [now apply rtc_once|]. auto.
Qed.

Lemma drain n : forall s,
  length (inflight s) = n -> control s = Sleeping ->
  exists s', rtc step s s' /\ control s' = Sleeping
    /\ tasks (pool s') = tasks (pool s) /\ inflight s' = [].
Proof.
  induction n as [|n IH]; intros s Hlen Hc.
  - exists s. split; [reflexivity|]. split; [exact Hc|]. split; [reflexivity|].
    destruct (inflight s); [reflexivity|discriminate].
  - destruct (inflight s) as [|a rest] eqn:Ei; [discriminate|].
    destruct (head_leaves _ _ _ Hc Ei) as (s1 & S1 & C1 & T1 & I1).
    destruct (IH s1) as (s2 & S2 & C2 & T2 & I2); [|exact C1|].
    + rewrite I1. cbn in Hlen. lia.
    + exists s2. split; [now transitivity s1|].
      split; [exact C2|]. split; [congruence|exact I2].
Qed.

(** The admission loop runs until it goes to sleep, and starts a task if
    it can. *)
Lemma start_all n : forall s,
  length (tasks (pool s)) = n -> control s = Admitting ->
  exists s', rtc step s s' /\ control s' = Sleeping
    /\ (length (tasks (pool s')) <= n)%nat
    /\ (can_start s = true -> (length (tasks (pool s')) < n)%nat).
Proof.
  induction n as [|n IH]; intros s Hlen Hc.
  - exists (set_control Sleeping s).
    assert (Hcan : can_start s = false).
    { unfold can_start. destruct (tasks (pool s)); [|discriminate].
      apply andb_false_r. }
    split; [apply rtc_once; now constructor|].
    split; [reflexivity|]. split; [cbn; lia|]. congruence.
  - destruct (can_start s) eqn:Hcan.
    + pose proof Hcan as Hcan'.
      apply can_start_true in Hcan' as (_ & task & rest & Et).
      destruct (IH (start_next 0 s)) as (s' & S' & C' & L' & _).
      * unfold start_next. rewrite Et. cbn. rewrite Et in Hlen. cbn in Hlen. lia.
      * unfold start_next. rewrite Et. exact Hc.
      * exists s'. split; [|split; [exact C'|split; lia]].
        eapply rtc_l; [|exact S']. now constructor.
    + exists (set_control Sleeping s).
      split; [apply rtc_once; now constructor|].
      split; [reflexivity|]. split; [cbn; lia|]. discriminate.
Qed.

(** From a loop head with nothing in flight, a run with room for one
    task can be brought to its end. *)
Lemma run_finishes s0 :
  fresh_start s0 -> (1 <= poolSize (pool s0))%nat ->
  forall n s,
    reachable s0 s -> length (tasks (pool s)) = n ->
    control s = LoopHead -> inflight s = [] ->
    exists s', reachable s s' /\ control s' = Done.
Proof.
  intros Hfresh Hsize n.
  induction n as [n IH] using lt_wf_ind. intros s Hreach Hlen Hc Hi.
  pose proof (reachable_inv _ _ Hfresh Hreach) as Hinv.
  pose proof (size_running_length _ _ Hinv) as Hrun. rewrite Hi in Hrun.
  cbn [length] in Hrun.
  destruct (tasks (pool s)) as [|task rest] eqn:Et.
  - exists (finish_run 0 true s). split; [|reflexivity].
    apply rtc_once. constructor; [exact Hc|].
    unfold work_left. now rewrite Et, Hrun.
  - set (s1 := set_control Admitting s).
    assert (S1 : step s s1).
    { constructor; [exact Hc|]. unfold work_left. now rewrite Et. }
    assert (Hcan : can_start s1 = true).
    { apply can_start_true. cbn [s1 set_control pool]. split; [|eauto].
      rewrite Hrun, (inv_size _ _ Hinv). lia. }
    destruct (start_all n s1) as (s2 & S2 & C2 & _ & L2);
      [cbn [s1 set_control pool]; now rewrite Et | reflexivity |].
    specialize (L2 Hcan).
    destruct (drain _ s2 eq_refl C2) as (s3 & S3 & C3 & T3 & I3).
    set (s4 := set_control LoopHead s3).
    assert (R4 : rtc step s s4).
    { eapply rtc_l; [exact S1|]. transitivity s2; [exact S2|].
      transitivity s3; [exact S3|]. apply rtc_once. now constructor. }
    destruct (IH (length (tasks (pool s4)))) with (s := s4)
      as (s' & S' & D'); try reflexivity.
    + cbn [s4 set_control pool]. rewrite T3. exact L2.
    + unfold reachable in *. now transitivity s.
    + exact I3.
    + exists s'. split; [|exact D']. unfold reachable in *. now transitivity s4.
Qed.

(** A pool of size 0 with a pending task starts nothing and never
    ends. *)
Lemma zero_pool_stuck s0 :
  fresh_start s0 -> poolSize (pool s0) = 0%nat -> tasks (pool s0) <> [] ->
  forall s, reachable s0 s ->
    control s <> Done /\ pool s = pool s0 /\ inflight s = []
    /\ world s = world s0.
Proof.
  intros Hfresh Hsize Hne s Hreach. unfold reachable in Hreach. revert s Hreach.
  apply rtc_ind_r.
  - split; [rewrite (fresh_control _ Hfresh); discriminate|].
    split; [reflexivity|]. split; [apply (fresh_inflight _ Hfresh)|reflexivity].
  - intros s1 s2 _ Hstep (Hc & Hp & Hi & Hw).
    destruct Hstep as
      [s Hc' Hwl | s now write_ok Hc' Hwl | s now Hc' Hcan | s Hc' Hcan | s Hc'
      | s i now env s' Hc' Hs | s i write_ok s' Hc' Hs | s i rm_ok s' Hc' Hs].
    + now repeat split.
    + exfalso. unfold work_left in Hwl. rewrite Hp in Hwl.
      destruct (tasks (pool s0)); [now apply Hne|discriminate].
    + exfalso. apply can_start_true in Hcan as [Hlt _].
      rewrite Hp, Hsize in Hlt. lia.
    + now repeat split.
    + now repeat split.
    + unfold settle in Hs. rewrite Hi, lookup_nil in Hs. discriminate.
    + unfold logged in Hs. rewrite Hi, lookup_nil in Hs. discriminate.
    + unfold removed in Hs. rewrite Hi, lookup_nil in Hs. discriminate.
Qed.

Lemma sample_start_fresh : fresh_start sample_start.
Proof.
  exact (proj1 (addTasks_fresh_start _ _ _ _ _ _ _ _ true 1722000001000
                  sample_added_eq)).
Qed.

(** X9. A run that starts afresh with at least one pending task can
    reach the end of [TaskPool.run] if and only if the pool size is at
    least 1: with room for one task there is a sequence of turns to the
    end (every started task can settle), and with pool size 0 no task is
    ever started and the loop never ends. *)
Theorem run_can_finish (s0 : System) :
  fresh_start s0 -> tasks (pool s0) <> [] ->
  ((exists s, reachable s0 s /\ control s = Done)
   <-> (1 <= poolSize (pool s0))%nat).
Proof.
  intros Hfresh Hne. split.
  - intros (s & Hreach & Hdone).
    destruct (poolSize (pool s0)) eqn:Hsize; [|lia].
    destruct (zero_pool_stuck _ Hfresh Hsize Hne _ Hreach) as [Hc _].
    contradiction.
  - intros Hsize.
    apply (run_finishes _ Hfresh Hsize _ s0 (rtc_refl _ _) eq_refl).
    + apply (fresh_control _ Hfresh).
    + apply (fresh_inflight _ Hfresh).
Qed.

Lemma run_can_finish_witness :
  (exists s, reachable sample_start s /\ control s = Done)
  <-> (1 <= poolSize (pool sample_start))%nat.
Proof.
  apply (run_can_finish sample_start sample_start_fresh).
  vm_compute. discriminate.
Defined.




(** *** A browser that does not come up *)

(** X11. For every task with an account whose browser launch fails
    (start-up timeout or connect failure) with message [msg]:
    [executeTask] returns, the task counts as failed (not as completed),
    the record handed to [logTaskResult] carries [msg], no duration and 1
    attempt, and it is appended unless the write fails; the spawned
    browser process is neither killed nor given a client; the account's
    profile folder is removed under it unless the removal fails; the
    account manager is untouched and the task has left the running
    set. *)
Theorem executeTask_launch_failed (start_time end_time : Z) (env : MainEnv)
    (write_ok rm_ok : bool) (task : Task) (a : AccountInfo) (msg : jsstring)
    (s : System) :
  account task = Some a ->
  launch env = LaunchFailed msg ->
  exists s',
    executeTask start_time end_time env write_ok rm_ok task s = Some s'
    /\ failedTasks (pool s') = S (failedTasks (pool s))
    /\ completedTasks (pool s') = completedTasks (pool s)
    /\ logFile (world s')
       = logFile (world s)
         ++ (if write_ok
             then [TaskLine {| result_email := email a; success := false;
                               result_error := Some msg; duration := None;
                               attempts := 1; timestamp := end_time |}]
             else [])
    /\ console (world s')
       = console (world s) ++ [Started (id task); FailedLine (id task) msg]
    /\ sessions (world s')
       = sessions (world s)
         ++ [{| session_email := email a; process_alive := true;
                client_open := false |}]
    /\ (rm_ok = true -> profile_folder (email a) ∉ profileDirs (world s'))
    /\ store s' = store s
    /\ inflight s' = inflight s
    /\ id task ∉ runningTasks (pool s').
Proof.
  intros Hacc Hlaunch.
  set (t1 := {| id := id task; status := RUNNING; startTime := Some start_time;
                endTime := endTime task; error := error task;
                account := account task |}).
  set (r := task_result end_time (Some msg) t1 a).
  set (w1 := set_sessions
               (sessions (world s)
                ++ [{| session_email := email a; process_alive := true;
                       client_open := false |}])
               (set_profileDirs ({[ profile_folder (email a) ]} ∪ profileDirs (world s))
                  (print (Started (id task)) (world s)))).
  set (p1 := count_outcome false
               (set_runningTasks ({[ id task ]} ∪ runningTasks (pool s)) (pool s))).
  set (w2 := print (FailedLine (id task) msg) w1).
  set (s2 := {| pool := p1; store := store s; world := w2;
                inflight := inflight s
                  ++ [{| act_task := settled_task end_time (Some msg) t1;
                         act_phase := InLog r |}];
                control := control s |}).
  set (s3 := {| pool := p1; store := store s;
                world := logTaskResult write_ok r w2;
                inflight := inflight s
                  ++ [{| act_task := settled_task end_time (Some msg) t1;
                         act_phase := InRemove (email a) |}];
                control := control s |}).
  set (s4 := {| pool := set_runningTasks (runningTasks p1 ∖ {[ id task ]}) p1;
                store := store s;
                world := removeAccountProfileFolder rm_ok (email a)
                           (logTaskResult write_ok r w2);
                inflight := inflight s;
                control := control s |}).
  assert (E1 : settle (length (inflight s)) end_time env
                 (executeTask_begin start_time task s) = Some s2).
  { unfold settle, executeTask_begin. cbn [inflight store world pool].
    rewrite lookup_last. fold t1. cbn [act_task act_phase].
    unfold main. replace (account t1) with (Some a) by (symmetry; exact Hacc).
    cbn [resolve_account]. rewrite Hlaunch.
    subst s2 w2 w1 p1 r. cbn [control]. rewrite insert_last. reflexivity. }
  assert (E2 : logged (length (inflight s)) write_ok s2 = Some s3).
  { unfold logged. subst s2. cbn [inflight]. rewrite lookup_last, insert_last.
    reflexivity. }
  assert (E3 : removed (length (inflight s)) rm_ok s3 = Some s4).
  { unfold removed. subst s3. cbn [inflight]. rewrite lookup_last, delete_last.
    reflexivity. }
  exists s4. unfold executeTask. rewrite E1. cbn [mbind option_bind].
  rewrite Hacc, E2. cbn [mbind option_bind]. rewrite E3.
  split; [reflexivity|].
  destruct (remove_folder_frame rm_ok (email a) (logTaskResult write_ok r w2))
    as (Hwc & Hwl & Hws).
  subst s4. cbn [world inflight pool store].
  split; [reflexivity|]. split; [reflexivity|].
  split; [rewrite Hwl; destruct write_ok; cbn; rewrite ?app_nil_r; reflexivity|].
  split; [rewrite Hwc; cbn; now rewrite <- app_assoc|].
  split; [rewrite Hws; reflexivity|].
  split; [|split; [reflexivity|split; [reflexivity|]]].
  - intros ->. unfold removeAccountProfileFolder.
    cbn [logTaskResult append_log print profileDirs w2 w1 set_sessions
         set_profileDirs].
    rewrite bool_decide_eq_true_2
      by (apply elem_of_union_l, elem_of_singleton; reflexivity).
    cbn [andb set_profileDirs profileDirs].
    rewrite elem_of_difference, elem_of_singleton. intros [_ H]. now apply H.
  - subst p1. cbn [set_runningTasks runningTasks count_outcome].
    rewrite elem_of_difference, elem_of_singleton. intros [_ H]. now apply H.
Qed.

Lemma executeTask_launch_failed_witness :
  exists s',
    executeTask 1722000001001 1722000121000 no_browser_env true true
      sample_task sample_start = Some s'
    /\ failedTasks (pool s') = 1%nat
    /\ sessions (world s')
       = [{| session_email := js "a@x.com"; process_alive := true;
             client_open := false |}].
Proof.
  destruct (executeTask_launch_failed 1722000001001 1722000121000
              no_browser_env true true sample_task sample_account
              (js "browser start-up timed out") sample_start
              eq_refl eq_refl)
    as (s' & E & Hf & _ & _ & _ & Hs & _).
  exists s'. split; [exact E|]. split; [exact Hf | exact Hs].
Defined.

End RunProps.

(** ** The login loop on a page that does not move *)
Module LoginLoopProps.
Import JS AccountManager GoogleLogin Shapes GoogleLoginFacts.

(** The first iteration on a page is never a stalled one, unless the URL
    is empty. *)
Lemma first_iteration account url offered st1 a :
  split_head 63%N url <> [] ->
  loop_body account initial_state url offered = Continue st1 a ->
  st1 = {| lastUrl := split_head 63%N url; retryCount := 0 |}.
Proof.
  intros Hne Hb. eapply loop_body_fresh; [|exact Hb].
  cbn [initial_state lastUrl]. now rewrite bool_decide_eq_false_2.
Qed.

(** Counted stalls: one second and one count each, up to 16. *)
Lemma stall_run account p url k : forall rc,
  split_head 63%N (page_url p) = url ->
  matches_noNeedCount url = false ->
  includes url (js "signin/identifier") = false ->
  0 <= rc -> rc + Z.of_nat k <= 16 ->
  run_loop account {| lastUrl := url; retryCount := rc |} (repeat p k)
  = (repeat (Sleep 1000) k,
     AtLoopHead {| lastUrl := url; retryCount := rc + Z.of_nat k |}).
Proof.
  induction k as [|k IH]; intros rc Hurl Hm Hid H0 H16.
  - cbn [repeat run_loop]. now rewrite Z.add_0_r.
  - cbn [repeat run_loop].
    rewrite loop_body_stalled by (cbn [lastUrl retryCount]; (exact Hurl || lia)).
    cbn [lastUrl retryCount]. rewrite Hm, Hid, andb_false_r.
    replace (rc >? 15) with false
      by (symmetry; rewrite Z.gtb_ltb; apply Z.ltb_ge; lia).
    cbn [negb perform].
    rewrite (IH (rc + 1)) by (assumption || lia).
    cbn [app]. do 3 f_equal. lia.
Qed.

(** Stalls on a URL that is exempt from counting: one second each, and
    the loop variables stay. *)
Lemma exempt_run account p url k :
  split_head 63%N (page_url p) = url ->
  matches_noNeedCount url = true ->
  run_loop account {| lastUrl := url; retryCount := 0 |} (repeat p k)
  = (repeat (Sleep 1000) k, AtLoopHead {| lastUrl := url; retryCount := 0 |}).
Proof.
  intros Hurl Hm. induction k as [|k IH]; [reflexivity|].
  cbn [repeat run_loop].
  rewrite loop_body_stalled by (cbn [lastUrl retryCount]; (exact Hurl || lia)).
  cbn [lastUrl retryCount]. rewrite Hm.
  cbn [Z.gtb Z.compare andb negb perform]. now rewrite IH.
Qed.

(** Seventeen answers on a URL that counts: 16 stalls, then the error. *)
Lemma stalls_to_failure account p url m :
  split_head 63%N (page_url p) = url ->
  matches_noNeedCount url = false ->
  includes url (js "signin/identifier") = false ->
  run_loop account {| lastUrl := url; retryCount := 0 |} (repeat p 16 ++ p :: m)
  = (repeat (Sleep 1000) 16, Failed (stall_error url)).
Proof.
  intros Hurl Hm Hid.
  rewrite (run_loop_app _ _ _ _ _ _
             (stall_run account p url 16 0 Hurl Hm Hid ltac:(lia) ltac:(lia))).
  change (0 + Z.of_nat 16) with 16.
  assert (E : run_loop account {| lastUrl := url; retryCount := 16 |} (p :: m)
              = ([], Failed (stall_error url))).
  { cbn [run_loop].
    rewrite loop_body_stalled by (cbn [lastUrl retryCount]; (exact Hurl || lia)).
    reflexivity. }
  rewrite E. cbn [fst snd]. now rewrite app_nil_r.
Qed.

Lemma run_loop_action account st p polls st1 a effects :
  loop_body account st (page_url p) (authenticator_offered p) = Continue st1 a ->
  (forall pat, a <> ManualWait pat) ->
  perform a p = inl effects ->
  run_loop account st (p :: polls)
  = (effects ++ fst (run_loop account st1 polls),
     snd (run_loop account st1 polls)).
Proof.
  intros Hb Hman Hp. cbn [run_loop]. rewrite Hb.
  destruct (run_loop account st1 polls) as [more out].
  destruct a; try (rewrite Hp; reflexivity).
  now destruct (Hman urlPattern).
Qed.

(** X12. A page that stays on one URL, which is not empty, not exempt
    from counting and not the identifier entry, and on which the first
    iteration performs a page action that goes through: the loop performs
    that action once, then sleeps one second 16 times, and at the 18th
    call of [page.url()] the flow fails with the error mapped from the
    URL, however many more answers the page would give. *)
Theorem frozen_url_fails (account : AccountInfo) (p : Poll) (st1 : DriverState)
    (a : Action) (n : nat) :
  split_head 63%N (page_url p) <> [] ->
  matches_noNeedCount (split_head 63%N (page_url p)) = false ->
  includes (split_head 63%N (page_url p)) (js "signin/identifier") = false ->
  loop_body account initial_state (page_url p) (authenticator_offered p)
  = Continue st1 a ->
  (forall pat, a <> ManualWait pat) ->
  action_error p = None ->
  (17 < n)%nat ->
  exists effects,
    perform a p = inl effects
    /\ run_loop account initial_state (repeat p n)
       = (effects ++ repeat (Sleep 1000) 16,
          Failed (stall_error (split_head 63%N (page_url p)))).
Proof.
  intros Hne Hm Hid Hb Hman Hok Hn.
  pose proof (first_iteration _ _ _ _ _ Hne Hb) as E1.
  assert (Hp : exists effects, perform a p = inl effects).
  { unfold perform. rewrite Hok. destruct a; eauto. }
  destruct Hp as [effects Hp]. exists effects. split; [exact Hp|].
  assert (En : repeat p n = p :: (repeat p 16 ++ p :: repeat p (n - 18))).
  { replace n with (1 + (16 + S (n - 18)))%nat at 1 by lia.
    now rewrite !repeat_app. }
  rewrite En, (run_loop_action _ _ _ _ _ _ _ Hb Hman Hp), E1.
  now rewrite (stalls_to_failure _ _ _ _ eq_refl Hm Hid).
Qed.

Lemma frozen_url_fails_witness :
  exists effects,
    perform PressContinue
      (frozen_poll (js "https://accounts.google.com/signin/oauth/id?authuser=0"))
    = inl effects
    /\ run_loop sample_account initial_state
         (repeat (frozen_poll (js "https://accounts.google.com/signin/oauth/id?authuser=0")) 40)
       = (effects ++ repeat (Sleep 1000) 16, Failed TooManyRetries).
Proof.
  apply (frozen_url_fails sample_account
           (frozen_poll (js "https://accounts.google.com/signin/oauth/id?authuser=0"))
           {| lastUrl := js "https://accounts.google.com/signin/oauth/id";
              retryCount := 0 |}
           PressContinue 40).
  - vm_compute. discriminate.
  - vm_compute. reflexivity.
  - vm_compute. reflexivity.
  - vm_compute. reflexivity.
  - discriminate.
  - reflexivity.
  - lia.
Defined.

(** The pass-through action is taken on exempt URLs only, and never in
    a stalled iteration. *)
Lemma pass_through_exempt account st url offered st1 :
  loop_body account st url offered = Continue st1 PassThrough ->
  matches_noNeedCount (split_head 63%N url) = true
  /\ st1 = {| lastUrl := split_head 63%N url; retryCount := 0 |}.
Proof.
  unfold loop_body.
  destruct (bool_decide _ && negb _).
  - repeat match goal with
           | |- context [if ?c then _ else _] => destruct c
           end; discriminate.
  - destruct (includes (split_head 63%N url) (js "accounts/SetSID")
              || includes (split_head 63%N url) (js "challenge/ipp/verify")) eqn:E;
      repeat match goal with
             | |- context [if ?c then _ else _] => destruct c
             end; try discriminate.
    all: intros [= <-]; split; [|reflexivity].
    all: unfold matches_noNeedCount; apply existsb_exists.
    all: apply orb_true_iff in E as [E|E];
      [exists (js "accounts/SetSID") | exists (js "challenge/ipp/verify")];
      (split; [cbn [noNeedCountUrlMatch In]; tauto | exact E]).
Qed.

(** X13. A page that stays on a pass-through redirect (accounts/SetSID
    or challenge/ipp/verify): however many times the loop asks, the flow
    neither fails nor succeeds; it sleeps one second per answer and the
    stall counter stays 0, so [performGoogleLogin] does not settle. *)
Theorem pass_through_never_settles (account : AccountInfo) (p : Poll)
    (st1 : DriverState) (n : nat) (after : option jsstring) :
  loop_body account initial_state (page_url p) (authenticator_offered p)
  = Continue st1 PassThrough ->
  run_loop account initial_state (repeat p (S n))
  = (repeat (Sleep 1000) n,
     AtLoopHead {| lastUrl := split_head 63%N (page_url p); retryCount := 0 |})
  /\ performGoogleLogin (Some account)
       {| before_error := None; polls := repeat p (S n); after_error := after |}
     = None.
Proof.
  intros Hb. destruct (pass_through_exempt _ _ _ _ _ Hb) as [Hm E1].
  assert (Hrun : run_loop account initial_state (repeat p (S n))
                 = (repeat (Sleep 1000) n,
                    AtLoopHead {| lastUrl := split_head 63%N (page_url p);
                                  retryCount := 0 |})).
  { cbn [repeat].
    rewrite (run_loop_action _ _ _ _ _ _ [] Hb) by (discriminate || reflexivity).
    rewrite E1, (exempt_run _ _ _ _ eq_refl Hm). reflexivity. }
  split; [exact Hrun|].
  unfold performGoogleLogin. cbn [before_error polls]. now rewrite Hrun.
Qed.

Lemma pass_through_never_settles_witness :
  performGoogleLogin (Some sample_account)
    {| before_error := None;
       polls := repeat (frozen_poll (js "https://accounts.google.com/accounts/SetSID?ssdc=1"))
                  (S 3600);
       after_error := None |}
  = None.
Proof.
  apply (pass_through_never_settles sample_account
           (frozen_poll (js "https://accounts.google.com/accounts/SetSID?ssdc=1"))
           {| lastUrl := js "https://accounts.google.com/accounts/SetSID";
              retryCount := 0 |}
           3600 None).
  vm_compute. reflexivity.
Defined.

Lemma loop_body_logged_in account st url offered :
  loop_body account st url offered = LoggedIn ->
  startsWith (split_head 63%N url) (js "https://accounts.google.com/") = false
  /\ includes (split_head 63%N url) (js "challenge/ipp/verify") = false
  /\ includes (split_head 63%N url) (js "accounts/SetSID") = false.
Proof.
  unfold loop_body.
  destruct (bool_decide _ && negb _).
  - repeat match goal with
           | |- context [if ?c then _ else _] => destruct c
           end; discriminate.
  - destruct (startsWith (split_head 63%N url) (js "https://accounts.google.com/"));
      [|destruct (includes (split_head 63%N url) (js "challenge/ipp/verify"));
        [|destruct (includes (split_head 63%N url) (js "accounts/SetSID"));
          [|auto]]];
      cbn [negb andb];
      repeat match goal with
             | |- context [if ?c then _ else _] => destruct c
             end; discriminate.
Qed.

(** The loop ends in success at an answer outside the login domain,
    and does not look at the answers after it. *)
Lemma run_loop_succeeded account polls : forall st effects,
  run_loop account st polls = (effects, Succeeded) ->
  exists l1 p l2,
    polls = l1 ++ p :: l2 /\ off_login_domain p
    /\ forall l2', run_loop account st (l1 ++ p :: l2') = (effects, Succeeded).
Proof.
  induction polls as [|p0 polls IH]; intros st effects H; cbn [run_loop] in H;
    [discriminate|].
  destruct (loop_body account st (page_url p0) (authenticator_offered p0))
    as [e| |st1 a] eqn:Eb; [discriminate| |].
  - injection H as <-. exists [], p0, polls. split; [reflexivity|].
    split; [exact (loop_body_logged_in _ _ _ _ Eb)|].
    intros l2'. cbn [app run_loop]. now rewrite Eb.
  - assert (Hnext : exists eff more,
               run_loop account st1 polls = (more, Succeeded)
               /\ effects = eff ++ more
               /\ forall l, run_loop account st (p0 :: l)
                            = (eff ++ fst (run_loop account st1 l),
                               snd (run_loop account st1 l))).
    { destruct a;
        try (destruct (perform _ p0) as [eff|e] eqn:Ep; [|discriminate H];
             destruct (run_loop account st1 polls) as [more out] eqn:E;
             injection H as <- ->; exists eff, more;
             split; [reflexivity|]; split; [reflexivity|];
             intros l; cbn [run_loop]; rewrite Eb, Ep;
             now destruct (run_loop account st1 l)).
      destruct (action_error p0) eqn:Ea; [discriminate H|].
      destruct (waitForManualVerification urlPattern (manual_answers p0))
        as [eff [rest|]] eqn:Ew; [|discriminate H].
      destruct (run_loop account st1 polls) as [more out] eqn:E.
      injection H as <- ->. exists eff, more.
      split; [reflexivity|]. split; [reflexivity|].
      intros l. cbn [run_loop]. rewrite Eb, Ea, Ew.
      now destruct (run_loop account st1 l). }
    destruct Hnext as (eff & more & Hrun & -> & Hcons).
    destruct (IH _ _ Hrun) as (l1 & p & l2 & -> & Hoff & Hany).
    exists (p0 :: l1), p, l2. split; [reflexivity|]. split; [exact Hoff|].
    intros l2'. cbn [app]. now rewrite Hcons, Hany.
Qed.

(** X14. [performGoogleLogin] returns normally only if an account was
    passed in, nothing threw before or after the loop, and some answer of
    [page.url()] was outside accounts.google.com (and neither of the two
    redirects); the answers after that one are never asked for. *)
Theorem login_succeeds_off_domain (accountInfo : option AccountInfo)
    (script : PageScript) :
  performGoogleLogin accountInfo script = Some None ->
  exists account l1 p l2,
    accountInfo = Some account
    /\ before_error script = None /\ after_error script = None
    /\ polls script = l1 ++ p :: l2
    /\ off_login_domain p
    /\ forall l2',
         performGoogleLogin accountInfo
           {| before_error := None; polls := l1 ++ p :: l2'; after_error := None |}
         = Some None.
Proof.
  unfold performGoogleLogin. destruct accountInfo as [account|]; [|discriminate].
  destruct (before_error script); [discriminate|].
  destruct (run_loop account initial_state (polls script)) as [effects out] eqn:E.
  cbn [snd]. destruct out; try discriminate.
  destruct (after_error script); [discriminate|]. intros _.
  destruct (run_loop_succeeded _ _ _ _ E) as (l1 & p & l2 & Hp & Hoff & Hany).
  exists account, l1, p, l2. repeat (split; [reflexivity || assumption|]).
  intros l2'. cbn [before_error polls after_error]. now rewrite Hany.
Qed.

Lemma login_succeeds_off_domain_witness :
  exists account l1 p l2,
    Some sample_account = Some account
    /\ before_error success_script = None /\ after_error success_script = None
    /\ polls success_script = l1 ++ p :: l2
    /\ off_login_domain p
    /\ forall l2',
         performGoogleLogin (Some sample_account)
           {| before_error := None; polls := l1 ++ p :: l2'; after_error := None |}
         = Some None.
Proof.
  apply (login_succeeds_off_domain (Some sample_account) success_script).
  vm_compute. reflexivity.
Defined.

End LoginLoopProps.

(** ** Starting a browser *)
Module BrowserStartProps.
Import JS Utils BrowserManager BrowserStart Logger Index Pool Shapes.

Lemma poll_port_fail checkPort M : forall fuel a,
  (a < Z.to_nat (Z.max 1 M))%nat ->
  (Z.to_nat (Z.max 1 M) - a <= fuel)%nat ->
  (forall j, (a <= j < Z.to_nat (Z.max 1 M))%nat -> checkPort j = false) ->
  poll_port fuel checkPort M (Z.of_nat a)
  = Some (false, (Z.to_nat (Z.max 1 M) - 1 - a)%nat).
Proof.
  induction fuel as [|fuel IH]; intros a Ha Hfuel Hall; [lia|].
  cbn [poll_port]. rewrite Nat2Z.id, (Hall a) by lia.
  destruct (Z.of_nat a + 1 <? M) eqn:E.
  - apply Z.ltb_lt in E.
    replace (Z.of_nat a + 1) with (Z.of_nat (S a)) by lia.
    rewrite IH by (try lia; intros j Hj; apply Hall; lia).
    do 2 f_equal. lia.
  - apply Z.ltb_ge in E. do 2 f_equal. lia.
Qed.

Lemma poll_port_success checkPort M : forall fuel a k,
  (a <= k < Z.to_nat (Z.max 1 M))%nat ->
  (k - a < fuel)%nat ->
  checkPort k = true ->
  (forall j, (a <= j < k)%nat -> checkPort j = false) ->
  poll_port fuel checkPort M (Z.of_nat a) = Some (true, (k - a)%nat).
Proof.
  induction fuel as [|fuel IH]; intros a k Hk Hfuel Htrue Hall; [lia|].
  cbn [poll_port]. rewrite Nat2Z.id.
  destruct (Nat.eq_dec a k) as [->|Hne].
  - rewrite Htrue. do 2 f_equal. lia.
  - rewrite (Hall a) by lia.
    replace (Z.of_nat a + 1 <? M) with true by (symmetry; apply Z.ltb_lt; lia).
    replace (Z.of_nat a + 1) with (Z.of_nat (S a)) by lia.
    rewrite (IH (S a) k) by (try lia; try assumption; intros j Hj; apply Hall; lia).
    do 2 f_equal. lia.
Qed.

(** Among the first [m] answers either all are negative or there is a
    first positive one. *)
Lemma first_success (checkPort : nat -> bool) m :
  (forall j, (j < m)%nat -> checkPort j = false)
  \/ exists k, (k < m)%nat /\ checkPort k = true
               /\ forall j, (j < k)%nat -> checkPort j = false.
Proof.
  induction m as [|m [IH|(k & Hk & Ht & Hf)]].
  - left. intros j Hj. lia.
  - destruct (checkPort m) eqn:E.
    + right. exists m. split; [lia|]. split; [exact E|exact IH].
    + left. intros j Hj. destruct (Nat.eq_dec j m) as [->|]; [exact E|].
      apply IH. lia.
  - right. exists k. split; [lia|]. now split.
Qed.

(** X15. [checkPortAvailable] always returns, after at most
    max(1, ceil(timeout/1000)) calls of [checkPort()], the first one
    without delay and one second of sleep before every later one. It
    returns true at the first positive answer among them (after as many
    sleeps as there were negative answers), and false, after one sleep
    less than there were calls, exactly if all of them are negative.
    Later answers are never asked for, and even a timeout of 0 or below
    gives one call. *)
Theorem checkPortAvailable_polls (checkPort : nat -> bool) (timeout : Z)
    (fuel : nat) :
  (probe_budget timeout <= fuel)%nat ->
  (forall k,
      (k < probe_budget timeout)%nat -> checkPort k = true ->
      (forall j, (j < k)%nat -> checkPort j = false) ->
      checkPortAvailable fuel checkPort timeout = Some (true, k))
  /\ ((forall j, (j < probe_budget timeout)%nat -> checkPort j = false) <->
      checkPortAvailable fuel checkPort timeout
      = Some (false, (probe_budget timeout - 1)%nat))
  /\ (exists r sleeps,
        checkPortAvailable fuel checkPort timeout = Some (r, sleeps)
        /\ (sleeps < probe_budget timeout)%nat)
  /\ (timeout <= 1000 -> probe_budget timeout = 1%nat)
  /\ (1000 < timeout ->
      1000 * (Z.of_nat (probe_budget timeout) - 1) < timeout
      <= 1000 * Z.of_nat (probe_budget timeout)).
Proof.
  intros Hfuel. unfold probe_budget, checkPortAvailable in *.
  set (M := maxAttempts timeout) in *. set (m := Z.to_nat (Z.max 1 M)) in *.
  assert (Hm : (1 <= m)%nat) by (subst m; lia).
  assert (Hsucc : forall k,
             (k < m)%nat -> checkPort k = true ->
             (forall j, (j < k)%nat -> checkPort j = false) ->
             poll_port fuel checkPort M 0 = Some (true, k)).
  { intros k Hk Ht Hf.
    change (poll_port fuel checkPort M 0)
      with (poll_port fuel checkPort M (Z.of_nat 0)).
    rewrite (poll_port_success checkPort M fuel 0 k) by
      (try (fold m; lia); try assumption; intros j Hj; apply Hf; lia).
    do 2 f_equal. lia. }
  assert (Hfail : (forall j, (j < m)%nat -> checkPort j = false) ->
                  poll_port fuel checkPort M 0 = Some (false, (m - 1)%nat)).
  { intros Hall.
    change (poll_port fuel checkPort M 0)
      with (poll_port fuel checkPort M (Z.of_nat 0)).
    rewrite (poll_port_fail checkPort M fuel 0) by
      (try (fold m; lia); intros j Hj; apply Hall; fold m in Hj; lia).
    fold m. do 2 f_equal. lia. }
  split; [exact Hsucc|]. split; [|split; [|split]].
  - split; [exact Hfail|]. intros E.
    destruct (first_success checkPort m) as [Hall|(k & Hk & Ht & Hf)];
      [exact Hall|].
    rewrite (Hsucc k Hk Ht Hf) in E. discriminate.
  - destruct (first_success checkPort m) as [Hall|(k & Hk & Ht & Hf)].
    + exists false, (m - 1)%nat. split; [now apply Hfail|lia].
    + exists true, k. split; [now apply Hsucc|exact Hk].
  - intros Ht. subst m M. unfold maxAttempts.
    assert (- timeout / 1000 >= -1) by (apply Z.le_ge, Z.div_le_lower_bound; lia).
    lia.
  - intros Ht. subst m M. unfold maxAttempts.
    pose proof (Z.div_mod (- timeout) 1000 ltac:(lia)) as Hd.
    pose proof (Z.mod_pos_bound (- timeout) 1000 ltac:(lia)) as Hb.
    lia.
Qed.

Lemma checkPortAvailable_polls_witness :
  checkPortAvailable 3 (fun k => (k =? 2)%nat) 2500 = Some (true, 2%nat).
Proof.
  refine (proj1 (checkPortAvailable_polls (fun k => (k =? 2)%nat) 2500 3 _)
            2%nat _ _ _).
  - vm_compute. lia.
  - vm_compute. lia.
  - reflexivity.
  - intros j Hj. destruct j as [|[|j]]; [reflexivity|reflexivity|lia].
Defined.

(** X16. [waitForBrowserReady] throws its start-up timeout error exactly
    if every answer of [checkPort()] within the budget of the configured
    timeout is negative. A missing [portCheck] setting and a setting of 0
    both mean 120000 ms, that is 120 calls; any other setting is taken as
    it is. *)
Theorem waitForBrowserReady_timeout (checkPort : nat -> bool)
    (portCheck : option Z) (fuel : nat) :
  (probe_budget (portCheck_timeout portCheck) <= fuel)%nat ->
  ((forall j, (j < probe_budget (portCheck_timeout portCheck))%nat ->
              checkPort j = false) <->
   exists sleeps, waitForBrowserReady fuel checkPort portCheck = Some (false, sleeps))
  /\ (portCheck = None \/ portCheck = Some 0 ->
      probe_budget (portCheck_timeout portCheck) = 120%nat)
  /\ (forall t, portCheck = Some t -> t <> 0 -> portCheck_timeout portCheck = t).
Proof.
  intros Hfuel. unfold waitForBrowserReady, checkPortAvailable.
  set (T := portCheck_timeout portCheck) in *. unfold probe_budget in *.
  set (M := maxAttempts T) in *.
  change (poll_port fuel checkPort M 0)
    with (poll_port fuel checkPort M (Z.of_nat 0)).
  split; [|split].
  - split.
    + intros Hall. eexists.
      apply (poll_port_fail checkPort M fuel 0); [lia|lia|].
      intros j Hj. apply Hall. lia.
    + intros [sleeps E].
      destruct (first_success checkPort (Z.to_nat (Z.max 1 M)))
        as [Hall|(k & Hk & Ht & Hf)]; [exact Hall|].
      rewrite (poll_port_success checkPort M fuel 0 k) in E;
        [discriminate|lia|lia|exact Ht|].
      intros j Hj. apply Hf. lia.
  - intros [->| ->]; vm_compute; reflexivity.
  - intros t -> Ht. subst T. unfold portCheck_timeout.
    apply Z.eqb_neq in Ht. now rewrite Ht.
Qed.

Lemma waitForBrowserReady_timeout_witness :
  exists sleeps,
    waitForBrowserReady 120 (fun _ => false) (Some 0) = Some (false, sleeps).
Proof.
  apply (proj1 (proj1 (waitForBrowserReady_timeout (fun _ => false) (Some 0) 120
                         ltac:(vm_compute; lia)))).
  reflexivity.
Defined.

(** X17. Whatever the port and the email, the window lands on one of 6
    columns and one of 3 rows: the x offsets 5, 6 and 7 are all cut to
    790, and the y offsets 2 to 5 are all cut to 260. *)
Theorem calculateWindowPosition_grid (port : Z) (email : option jsstring) :
  In (x (calculateWindowPosition port email)) [50; 200; 350; 500; 650; 790]
  /\ In (y (calculateWindowPosition port email)) [50; 170; 260].
Proof.
  unfold calculateWindowPosition, rem; cbn [x y].
  match goal with |- context [Z.rem (Z.abs ?h) 8] => set (hx := h) end.
  pose proof (Z.rem_bound_pos (Z.abs hx) 8 (Z.abs_nonneg _) eq_refl) as Hx.
  pose proof (Z.rem_bound_pos (Z.abs (sar hx 8)) 6 (Z.abs_nonneg _) eq_refl) as Hy.
  set (rx := Z.rem (Z.abs hx) 8) in *.
  set (ry := Z.rem (Z.abs (sar hx 8)) 6) in *.
  assert (Cx : rx = 0 \/ rx = 1 \/ rx = 2 \/ rx = 3 \/ rx = 4 \/ rx = 5
               \/ rx = 6 \/ rx = 7) by lia.
  assert (Cy : ry = 0 \/ ry = 1 \/ ry = 2 \/ ry = 3 \/ ry = 4 \/ ry = 5) by lia.
  clearbody rx ry. split.
  - destruct Cx as [->|[->|[->|[->|[->|[->|[->| ->]]]]]]]; vm_compute; tauto.
  - destruct Cy as [->|[->|[->|[->|[->| ->]]]]]; vm_compute; tauto.
Qed.

Lemma trimStart_incl s c : In c (trimStart s) -> In c s.
Proof.
  induction s as [|d s IH]; [tauto|]. cbn [trimStart].
  destruct (is_whitespace d); [right; now apply IH | tauto].
Qed.

Lemma trim_incl s c : In c (trim s) -> In c s.
Proof.
  unfold trim, trimEnd. intros H.
  apply trimStart_incl. apply in_rev. apply trimStart_incl. now apply in_rev in H.
Qed.

Lemma replaceAll_shape e1 e2 :
  same_folder_shape e1 e2 ->
  replaceAll 46%N 95%N (replaceAll 64%N 95%N e1)
  = replaceAll 46%N 95%N (replaceAll 64%N 95%N e2).
Proof.
  unfold replaceAll. induction 1 as [|c d e1 e2 Hcd _ IH]; [reflexivity|].
  cbn [map]. rewrite IH. f_equal.
  destruct Hcd as [->|[Hc Hd]]; [reflexivity|].
  unfold folder_blank in *.
  repeat match goal with
         | H : _ || _ = true |- _ => apply orb_true_iff in H as [H|H]
         | H : (_ =? _)%N = true |- _ => apply N.eqb_eq in H; subst
         end; reflexivity.
Qed.

(** X18. A profile folder name holds neither '@' nor '.'. Identifiers
    that differ only in where they have '@', '.' and '_' get the same
    folder, so removing the folder of one of them (which [executeTask]
    does when its task ends) removes the folder of the other. *)
Theorem profile_folder_shared (e1 e2 : jsstring) (w : World) :
  same_folder_shape e1 e2 ->
  profile_folder e1 = profile_folder e2
  /\ (profile_folder e2 ∉ profileDirs (removeAccountProfileFolder true e1 w))
  /\ ~ In 64%N (profile_folder e2) /\ ~ In 46%N (profile_folder e2).
Proof.
  intros Hs.
  assert (E : profile_folder e1 = profile_folder e2).
  { unfold profile_folder. now rewrite (replaceAll_shape _ _ Hs). }
  split; [exact E|]. split; [|split].
  - rewrite <- E. unfold removeAccountProfileFolder.
    destruct (bool_decide (profile_folder e1 ∈ profileDirs w)) eqn:Ed;
      cbn [andb set_profileDirs profileDirs].
    + rewrite elem_of_difference, elem_of_singleton. intros [_ H]. now apply H.
    + now apply bool_decide_eq_false in Ed.
  - intros H. apply trim_incl in H. unfold replaceAll in H.
    rewrite map_map in H. apply in_map_iff in H as (c & Hc & _).
    destruct (c =? 64)%N eqn:E1; [discriminate|].
    destruct (c =? 46)%N eqn:E2; [discriminate|].
    apply N.eqb_neq in E1. congruence.
  - intros H. apply trim_incl in H. unfold replaceAll in H.
    rewrite map_map in H. apply in_map_iff in H as (c & Hc & _).
    destruct (c =? 64)%N eqn:E1; [discriminate|].
    destruct (c =? 46)%N eqn:E2; [discriminate|].
    apply N.eqb_neq in E2. congruence.
Qed.

Lemma profile_folder_shared_witness :
  profile_folder (js "a.b@x.com") = profile_folder (js "a_b@x.com").
Proof.
  apply (profile_folder_shared (js "a.b@x.com") (js "a_b@x.com") empty_world).
  repeat (constructor; [first [left; reflexivity | right; split; reflexivity]|]).
  constructor.
Defined.

End BrowserStartProps.

(** ** The log file and its statistics *)
Module LogTextProps.
Import JS JSFacts AccountManager Logger LogText LogsScript Shapes.

Lemma startsWith_head s c pat :
  startsWith s (c :: pat) = true -> exists s', s = c :: s'.
Proof.
  destruct s as [|x s]; cbn [startsWith]; [discriminate|].
  intros H. apply andb_true_iff in H as [H _]. apply N.eqb_eq in H.
  subst. eauto.
Qed.

(** A text that includes a word holds the first character of the word. *)
Lemma includes_head_in s c pat : includes s (c :: pat) = true -> In c s.
Proof.
  induction s as [|x s IH]; cbn [includes].
  - cbn. discriminate.
  - intros H. apply orb_true_iff in H as [H|H].
    + apply startsWith_head in H as [s' E]. injection E as -> _. now left.
    + right. now apply IH.
Qed.

Lemma startsWith_snoc c : forall pat l,
  ~ In c pat -> pat <> [] ->
  startsWith (l ++ [c]) pat = startsWith l pat.
Proof.
  induction pat as [|p pat IH]; intros l Hc Hne; [congruence|].
  destruct l as [|x l]; cbn [app startsWith].
  - replace (p =? c)%N with false; [reflexivity|].
    symmetry. apply N.eqb_neq. intros ->. apply Hc. now left.
  - destruct pat as [|q pat].
    + now destruct (l ++ [c]), l.
    + rewrite IH; [reflexivity| |discriminate].
      intros H. apply Hc. now right.
Qed.

Lemma includes_snoc c pat l :
  ~ In c pat -> pat <> [] ->
  includes (l ++ [c]) pat = includes l pat.
Proof.
  intros Hc Hne. induction l as [|x l IH].
  - pose proof (startsWith_snoc c pat [] Hc Hne) as E. cbn [app] in E.
    cbn [app includes]. rewrite E. now destruct (startsWith [] pat).
  - cbn [app includes].
    rewrite <- IH. f_equal. apply (startsWith_snoc c pat (x :: l) Hc Hne).
Qed.

Lemma ws_not_key c : is_whitespace c = true -> is_key c = false.
Proof.
  intros H. unfold is_key.
  destruct (c =? 25191)%N eqn:E1;
    [apply N.eqb_eq in E1; subst; vm_compute in H; discriminate|].
  destruct (c =? 24320)%N eqn:E2;
    [apply N.eqb_eq in E2; subst; vm_compute in H; discriminate|].
  reflexivity.
Qed.

Lemma not_key_neq c :
  is_key c = false -> (25191 =? c)%N = false /\ (24320 =? c)%N = false.
Proof.
  unfold is_key. intros H. apply orb_false_iff in H as [H1 H2].
  now rewrite !(N.eqb_sym _ c).
Qed.

(** A character that is not a key character in front of a line changes
    nothing for [showStats]. *)
Lemma marks_cons x l : is_key x = false -> same_marks (x :: l) l.
Proof.
  intros H. destruct (not_key_neq _ H) as [H1 H2].
  unfold same_marks, success_mark, failure_mark, batch_mark.
  cbn [includes startsWith]. now rewrite H1, H2.
Qed.

Lemma marks_snoc c l : is_whitespace c = true -> same_marks (l ++ [c]) l.
Proof.
  intros H.
  assert (Hno : forall m, is_whitespace m = false -> c <> m) by congruence.
  unfold same_marks, success_mark, failure_mark, batch_mark.
  repeat split; apply includes_snoc; try discriminate;
    cbn [In]; intros Hin;
    repeat (destruct Hin as [Hin|Hin]; [symmetry in Hin; revert Hin; now apply Hno|]);
    exact Hin.
Qed.

Lemma same_marks_trans l1 l2 l3 :
  same_marks l1 l2 -> same_marks l2 l3 -> same_marks l1 l3.
Proof. unfold same_marks. intros (?&?&?) (?&?&?). repeat split; congruence. Qed.

Lemma marks_blank l : forallb is_whitespace l = true -> same_marks l [].
Proof.
  induction l as [|c l IH]; cbn [forallb]; [now repeat split|].
  intros H. apply andb_true_iff in H as [Hc Hl].
  eapply same_marks_trans; [apply marks_cons, ws_not_key, Hc | apply IH, Hl].
Qed.

Lemma tally_ext st l1 l2 : same_marks l1 l2 -> tally st l1 = tally st l2.
Proof. intros (H1 & H2 & H3). unfold tally. now rewrite H1, H2, H3. Qed.

Lemma tally_nil st : tally st [] = st.
Proof. reflexivity. Qed.

Lemma quiet_marks l :
  quiet l ->
  includes l success_mark = false /\ includes l failure_mark = false
  /\ includes l batch_mark = false.
Proof.
  intros Hq.
  assert (Hk : forall k pat, is_key k = true -> includes l (k :: pat) = false).
  { intros k pat Hk. destruct (includes l (k :: pat)) eqn:E; [|reflexivity].
    apply includes_head_in in E. unfold quiet in Hq.
    rewrite List.Forall_forall in Hq. rewrite (Hq _ E) in Hk. discriminate. }
  repeat split; apply Hk; reflexivity.
Qed.

Lemma tally_quiet st l : quiet l -> tally st l = st.
Proof.
  intros Hq. destruct (quiet_marks _ Hq) as (H1 & H2 & H3).
  unfold tally. now rewrite H1, H2, H3.
Qed.

Lemma fold_quiet_lines lines : forall st,
  Forall quiet lines -> fold_left tally lines st = st.
Proof.
  induction lines as [|l lines IH]; intros st H; [reflexivity|].
  inversion H; subst. cbn [fold_left]. rewrite tally_quiet by assumption.
  now apply IH.
Qed.

(** Blank lines count for nothing. *)
Lemma fold_filter_blank lines : forall st,
  fold_left tally (List.filter (fun line => truthy (trim line)) lines) st
  = fold_left tally lines st.
Proof.
  induction lines as [|l lines IH]; intros st; [reflexivity|].
  cbn [List.filter fold_left].
  destruct (trim l) as [|c t] eqn:E; cbn [truthy fold_left].
  - apply trim_nil in E.
    rewrite (tally_ext st l [] (marks_blank _ E)), tally_nil. apply IH.
  - apply IH.
Qed.

(** *** Lines of a text *)

Lemma split_nonempty sep s : exists piece pieces, split sep s = piece :: pieces.
Proof.
  pose proof (split_length sep s) as H.
  destruct (split sep s) as [|piece pieces]; [discriminate|eauto].
Qed.

Lemma split_cons_other sep x s piece pieces :
  (x =? sep)%N = false -> split sep s = piece :: pieces ->
  split sep (x :: s) = (x :: piece) :: pieces.
Proof. intros Hx E. cbn [split]. now rewrite Hx, E. Qed.

(** A text that ends a line splits into its lines and those of the rest. *)
Lemma split_app_sep sep a b :
  split sep (a ++ sep :: b) = split sep a ++ split sep b.
Proof.
  induction a as [|x a IH]; cbn [app split].
  - now rewrite N.eqb_refl.
  - destruct (x =? sep)%N; [now rewrite IH|].
    rewrite IH. destruct (split_nonempty sep a) as (piece & pieces & ->).
    reflexivity.
Qed.

Lemma split_snoc (sep c : jschar) (s : jsstring) :
  exists init last,
    split sep s = init ++ [last]
    /\ split sep (s ++ [c])
       = if (c =? sep)%N then init ++ [last; []] else init ++ [last ++ [c]].
Proof.
  induction s as [|x s (init & last & E1 & E2)].
  - exists [], []. split; [reflexivity|]. cbn [app split].
    now destruct (c =? sep)%N.
  - cbn [app split]. destruct (x =? sep)%N.
    + exists ([] :: init), last. rewrite E1, E2.
      split; [reflexivity|]. now destruct (c =? sep)%N.
    + rewrite E1, E2. destruct init as [|p init].
      * exists [], (x :: last). split; [reflexivity|].
        now destruct (c =? sep)%N.
      * exists ((x :: p) :: init), last. split; [reflexivity|].
        now destruct (c =? sep)%N.
Qed.

Lemma split_line_prefix sep m t hd tl :
  Forall (fun c => (c =? sep)%N = false) m ->
  split sep t = hd :: tl ->
  split sep (m ++ t) = (m ++ hd) :: tl.
Proof.
  intros Hm Ht. induction Hm as [|c m Hc _ IH]; [exact Ht|].
  cbn [app]. now apply split_cons_other.
Qed.

Lemma quiet_app s t : quiet s -> quiet t -> quiet (s ++ t).
Proof. unfold quiet. intros. now apply Forall_app. Qed.

Lemma split_quiet t : quiet t -> Forall quiet (split 10%N t).
Proof.
  induction 1 as [|c t Hc Ht IH]; [repeat constructor|].
  cbn [split]. destruct (c =? 10)%N; [constructor; [constructor|exact IH]|].
  destruct (split 10%N t) as [|piece pieces]; [repeat constructor; exact Hc|].
  inversion IH; subst. constructor; [|assumption]. now constructor.
Qed.

(** *** Counting over the lines of a text *)

Lemma fold_skip x s st :
  is_key x = false ->
  fold_left tally (split 10%N (x :: s)) st = fold_left tally (split 10%N s) st.
Proof.
  intros Hx. cbn [split]. destruct (x =? 10)%N; [reflexivity|].
  destruct (split_nonempty 10%N s) as (piece & pieces & ->).
  cbn [fold_left]. f_equal. apply tally_ext, marks_cons, Hx.
Qed.

Lemma fold_quiet_prefix pre t st :
  quiet pre ->
  fold_left tally (split 10%N (pre ++ t)) st = fold_left tally (split 10%N t) st.
Proof.
  induction 1 as [|x pre Hx _ IH]; [reflexivity|].
  cbn [app]. now rewrite fold_skip.
Qed.

Lemma fold_snoc (c : jschar) (s : jsstring) st :
  is_whitespace c = true ->
  fold_left tally (split 10%N (s ++ [c])) st = fold_left tally (split 10%N s) st.
Proof.
  intros Hc. destruct (split_snoc 10%N c s) as (init & last & -> & ->).
  destruct (c =? 10)%N; rewrite !fold_left_app; cbn [fold_left].
  - reflexivity.
  - apply tally_ext, marks_snoc, Hc.
Qed.

Lemma fold_trimStart s st :
  fold_left tally (split 10%N (trimStart s)) st = fold_left tally (split 10%N s) st.
Proof.
  induction s as [|c s IH]; [reflexivity|].
  cbn [trimStart]. destruct (is_whitespace c) eqn:E; [|reflexivity].
  rewrite IH. symmetry. apply fold_skip, ws_not_key, E.
Qed.

Lemma fold_trimEnd s st :
  fold_left tally (split 10%N (trimEnd s)) st = fold_left tally (split 10%N s) st.
Proof.
  unfold trimEnd. rewrite <- (rev_involutive s) at 2.
  induction (rev s) as [|c t IH]; [reflexivity|].
  cbn [trimStart rev]. destruct (is_whitespace c) eqn:E; [|reflexivity].
  rewrite IH. symmetry. now apply fold_snoc.
Qed.

(** Neither the outer [trim] nor the filter changes what is counted. *)
Lemma fold_log_lines content st :
  fold_left tally (log_lines content) st
  = fold_left tally (split 10%N content) st.
Proof.
  unfold log_lines, trim.
  now rewrite fold_filter_blank, fold_trimEnd, fold_trimStart.
Qed.

(** *** The lines the logger writes *)

Lemma quiet_dec s : forallb (fun c => negb (is_key c)) s = true -> quiet s.
Proof.
  intros H. apply List.Forall_forall. intros c Hc.
  rewrite forallb_forall in H. specialize (H c Hc). now apply negb_true_iff in H.
Qed.

Lemma quiet_digits d : quiet (digits_of_uint d).
Proof.
  induction d; cbn [digits_of_uint]; constructor; (reflexivity || assumption).
Qed.

Lemma quiet_Z z : quiet (string_of_Z z).
Proof.
  unfold string_of_Z, string_of_N. destruct (z <? 0).
  - constructor; [reflexivity | apply quiet_digits].
  - apply quiet_digits.
Qed.

Lemma quiet_padStart2 s : quiet s -> quiet (padStart2 s).
Proof.
  intros H. destruct s as [|c [|d s]]; cbn [padStart2]; [|inversion H; subst|exact H].
  - now repeat constructor.
  - now repeat constructor.
Qed.

Ltac solve_quiet :=
  repeat first
    [ assumption
    | apply quiet_digits
    | apply quiet_Z
    | apply quiet_padStart2
    | apply quiet_dec; reflexivity
    | apply quiet_app ].

Lemma quiet_timestamp d : quiet (formatTimestamp d).
Proof. unfold formatTimestamp, string_of_N. solve_quiet. Qed.

Lemma quiet_durationInfo r : quiet (durationInfo r).
Proof.
  unfold durationInfo. destruct (duration r) as [d|]; [|constructor].
  destruct (d =? 0); [constructor|]. solve_quiet.
Qed.

Lemma quiet_attemptsInfo r : quiet (attemptsInfo r).
Proof.
  unfold attemptsInfo. destruct (attempts r >? 1); [|constructor]. solve_quiet.
Qed.

Lemma quiet_errorMessage r :
  match result_error r with Some msg => quiet msg | None => True end ->
  quiet (errorMessage r).
Proof.
  unfold errorMessage. destruct (result_error r) as [[|c msg]|]; intros H;
    first [exact H | apply quiet_dec; reflexivity].
Qed.

Lemma startsWith_nil s : startsWith s [] = true.
Proof. now destruct s. Qed.

(** A word of [showStats] followed by quiet text counts as the word
    alone. *)
Lemma marks_quiet_suffix m hd :
  m = success_mark \/ m = failure_mark \/ m = batch_mark ->
  quiet hd -> same_marks (m ++ hd) m.
Proof.
  intros Hm Hq. destruct (quiet_marks _ Hq) as (H1 & H2 & H3).
  unfold same_marks, success_mark, failure_mark, batch_mark in *.
  destruct Hm as [->|[->| ->]]; cbn [app includes startsWith];
    rewrite H1, H2, H3, ?startsWith_nil; repeat split; vm_compute; reflexivity.
Qed.

Lemma mark_one_line m :
  m = success_mark \/ m = failure_mark \/ m = batch_mark ->
  Forall (fun c => (c =? 10)%N = false) m.
Proof. intros [->|[->| ->]]; repeat constructor. Qed.

(** One line of the log: quiet text, a word, quiet text, a line end. *)
Lemma fold_marked pre m post rest st :
  m = success_mark \/ m = failure_mark \/ m = batch_mark ->
  quiet pre -> quiet post ->
  fold_left tally (split 10%N ((pre ++ m ++ post ++ [10%N]) ++ rest)) st
  = fold_left tally (split 10%N rest) (tally st m).
Proof.
  intros Hm Hpre Hpost.
  rewrite <- !app_assoc, fold_quiet_prefix by exact Hpre.
  rewrite app_assoc. change ([10%N] ++ rest) with (10%N :: rest).
  rewrite split_app_sep, fold_left_app. f_equal.
  destruct (split_nonempty 10%N post) as (hd & tl & E).
  pose proof (split_quiet _ Hpost) as Hq. rewrite E in Hq. inversion Hq; subst.
  rewrite (split_line_prefix 10%N m post hd tl (mark_one_line m Hm) E).
  cbn [fold_left]. rewrite fold_quiet_lines by assumption.
  now apply tally_ext, marks_quiet_suffix.
Qed.

Lemma task_text_shape local r :
  task_text local r
  = (js "[" ++ formatTimestamp (local (timestamp r)) ++ js "] "
     ++ result_email r ++ js "  ")
    ++ (if success r then success_mark else failure_mark)
    ++ (if success r then durationInfo r ++ attemptsInfo r
        else [65306%N] ++ errorMessage r ++ attemptsInfo r)
    ++ [10%N].
Proof.
  unfold task_text. destruct (success r); rewrite <- !app_assoc; reflexivity.
Qed.

Lemma batch_start_text_shape now n :
  batch_start_text now n
  = ([10%N] ++ js "=== [" ++ formatTimestamp now ++ js "] ")
    ++ batch_mark
    ++ (js " (" ++ string_of_N (N.of_nat n) ++ [20010; 20219; 21153]%N
        ++ js ") ===")
    ++ [10%N].
Proof. unfold batch_start_text. rewrite <- !app_assoc. reflexivity. Qed.

Lemma quiet_batch_end now ok failed total : quiet (batch_end_text now ok failed total).
Proof.
  unfold batch_end_text, string_of_N.
  pose proof (quiet_timestamp now). solve_quiet.
Qed.

(** What one entry of the log adds to the counts of [showStats]. *)
Lemma fold_entry local e rest st :
  quiet_entry e ->
  fold_left tally (split 10%N (entry_text local e ++ rest)) st
  = fold_left tally (split 10%N rest) (count_entry st e).
Proof.
  destruct e as [now [r|n|ok failed total]]; cbn [entry_text quiet_entry count_entry].
  - intros [He Hm]. rewrite task_text_shape.
    pose proof (quiet_timestamp (local (timestamp r))) as Ht.
    pose proof (quiet_durationInfo r) as Hd.
    pose proof (quiet_attemptsInfo r) as Ha.
    pose proof (quiet_errorMessage r Hm) as Hmsg.
    destruct (success r); rewrite fold_marked by (auto; solve_quiet); reflexivity.
  - intros _. rewrite batch_start_text_shape.
    pose proof (quiet_timestamp now) as Ht.
    rewrite fold_marked by (auto; unfold string_of_N; solve_quiet). reflexivity.
  - intros _. apply fold_quiet_prefix, quiet_batch_end.
Qed.

Lemma fold_entries local entries : forall rest st,
  Forall quiet_entry entries ->
  fold_left tally (split 10%N (log_text local entries ++ rest)) st
  = fold_left tally (split 10%N rest) (fold_left count_entry entries st).
Proof.
  unfold log_text.
  induction entries as [|e entries IH]; intros rest st H; [reflexivity|].
  inversion H; subst. cbn [map concat fold_left].
  rewrite <- app_assoc, fold_entry by assumption. now apply IH.
Qed.

Lemma count_entries entries : forall st,
  successCount (fold_left count_entry entries st)
  = (successCount st + length (List.filter is_success_entry entries))%nat
  /\ failureCount (fold_left count_entry entries st)
     = (failureCount st + length (List.filter is_failure_entry entries))%nat
  /\ batchCount (fold_left count_entry entries st)
     = (batchCount st + length (List.filter is_batch_start entries))%nat.
Proof.
  induction entries as [|e entries IH]; intros st; cbn [fold_left List.filter].
  - cbn [length]. repeat split; lia.
  - destruct (IH (count_entry st e)) as (H1 & H2 & H3). rewrite H1, H2, H3.
    destruct e as [now [r|n|ok failed total]];
      cbn [count_entry is_success_entry is_failure_entry is_batch_start];
      [destruct (success r)|..];
      cbn [negb length successCount failureCount batchCount];
      repeat split; lia.
Qed.

(** X19. Reading back what the logger wrote: for every sequence of
    appends to an empty logs.txt (task results, batch starts, batch
    ends, with any dates) in which no account identifier and no error
    message holds one of the two characters the counted words begin
    with, [showStats] reports as successes the number of result records
    with [success], as failures the number of those without, and as
    batches the number of batch-start lines; error messages of several
    lines and empty ones included. *)
Theorem showStats_counts (local : Z -> DateFields)
    (entries : list (DateFields * LogEntry)) :
  Forall quiet_entry entries ->
  successCount (showStats (log_text local entries))
  = length (List.filter is_success_entry entries)
  /\ failureCount (showStats (log_text local entries))
     = length (List.filter is_failure_entry entries)
  /\ batchCount (showStats (log_text local entries))
     = length (List.filter is_batch_start entries).
Proof.
  intros Hq. unfold showStats.
  set (st := {| totalLines := length (log_lines (log_text local entries));
                successCount := 0; failureCount := 0; batchCount := 0 |}).
  rewrite fold_log_lines.
  pose proof (fold_entries local entries [] st Hq) as E.
  rewrite app_nil_r in E. rewrite E. cbn [split fold_left]. rewrite tally_nil.
  destruct (count_entries entries st) as (H1 & H2 & H3).
  rewrite H1, H2, H3. now cbn.
Qed.

Lemma showStats_counts_witness :
  successCount (showStats (log_text (fun _ => sample_date) sample_log)) = 2%nat
  /\ failureCount (showStats (log_text (fun _ => sample_date) sample_log)) = 1%nat
  /\ batchCount (showStats (log_text (fun _ => sample_date) sample_log)) = 1%nat.
Proof.
  assert (Hq : Forall quiet_entry sample_log).
  { vm_compute. repeat constructor. }
  destruct (showStats_counts (fun _ => sample_date) sample_log Hq)
    as (H1 & H2 & H3).
  split; [rewrite H1; vm_compute; reflexivity|].
  split; [rewrite H2; vm_compute; reflexivity|].
  rewrite H3. vm_compute. reflexivity.
Defined.

Lemma split_no_sep sep s : Forall (fun piece => ~ In sep piece) (split sep s).
Proof.
  induction s as [|c s IH]; [repeat constructor; tauto|].
  cbn [split]. destruct (c =? sep)%N eqn:E.
  - constructor; [tauto | exact IH].
  - destruct (split sep s) as [|piece pieces].
    + constructor; [|constructor].
      intros [->|[]]. now rewrite N.eqb_refl in E.
    + inversion IH; subst. constructor; [|assumption].
      intros [->|H]; [now rewrite N.eqb_refl in E | contradiction].
Qed.

(** X20. [getRecentLogs(lineCount)] with [lineCount] at least 1 returns
    the last [lineCount] non-blank lines of logs.txt, or all of them if
    there are fewer; with [lineCount] 0 it returns all lines, not none,
    and with a negative [lineCount] it drops that many lines from the
    front. Every line returned is non-blank and holds no line break; an
    unreadable file gives the empty list. *)
Theorem getRecentLogs_last_lines (content : jsstring) (lineCount : Z) :
  (1 <= lineCount ->
   getRecentLogs (Some content) lineCount
   = drop (length (log_lines content) - Z.to_nat lineCount) (log_lines content)
   /\ length (getRecentLogs (Some content) lineCount)
      = Nat.min (Z.to_nat lineCount) (length (log_lines content)))
  /\ (lineCount = 0 -> getRecentLogs (Some content) lineCount = log_lines content)
  /\ (lineCount < 0 ->
      getRecentLogs (Some content) lineCount
      = drop (Z.to_nat (- lineCount)) (log_lines content))
  /\ Forall (fun line => truthy (trim line) = true /\ ~ In 10%N line)
       (getRecentLogs (Some content) lineCount)
  /\ getRecentLogs None lineCount = [].
Proof.
  unfold getRecentLogs, slice_from. set (L := log_lines content).
  split; [|split; [|split; [|split; [|reflexivity]]]].
  - intros Hn. replace (- lineCount <? 0) with true by (symmetry; apply Z.ltb_lt; lia).
    assert (E : Z.to_nat (Z.max (Z.of_nat (length L) + - lineCount) 0)
                = (length L - Z.to_nat lineCount)%nat) by lia.
    rewrite E. split; [reflexivity|]. rewrite length_drop. lia.
  - intros ->. change (- 0 <? 0) with false. cbv iota.
    now rewrite Z.min_l by lia.
  - intros Hn. replace (- lineCount <? 0) with false by (symmetry; apply Z.ltb_ge; lia).
    destruct (Z.le_gt_cases (- lineCount) (Z.of_nat (length L))) as [Hle|Hgt].
    + now rewrite Z.min_l by exact Hle.
    + rewrite Z.min_r by lia. rewrite !drop_ge by lia. reflexivity.
  - apply Forall_drop. subst L. unfold log_lines.
    apply List.Forall_forall. intros line Hin. apply filter_In in Hin as [Hin Ht].
    split; [exact Ht|].
    pose proof (split_no_sep 10%N (trim content)) as Hs.
    rewrite List.Forall_forall in Hs. now apply Hs.
Qed.

Lemma getRecentLogs_last_lines_witness :
  getRecentLogs (Some (js "first" ++ [10%N] ++ js "second" ++ [10%N])) 1
  = [js "second"].
Proof.
  refine (proj1 (proj1 (getRecentLogs_last_lines
                          (js "first" ++ [10%N] ++ js "second" ++ [10%N]) 1) _)).
  lia.
Defined.

End LogTextProps.

(** ** More on the account file *)
Module AccountFileProps.
Import JS JSFacts AccountManager AccountFile Setup Shapes AccountManagerFacts.

Lemma trimStart_app_blank s t :
  forallb is_whitespace s = true -> trimStart (s ++ t) = trimStart t.
Proof.
  induction s as [|c s IH]; cbn [forallb app trimStart]; [reflexivity|].
  intros H. apply andb_true_iff in H as [Hc Hs]. rewrite Hc. now apply IH.
Qed.

Lemma trimStart_app_nonblank s t :
  forallb is_whitespace s = false -> trimStart (s ++ t) = trimStart s ++ t.
Proof.
  induction s as [|c s IH]; cbn [forallb app trimStart]; [discriminate|].
  destruct (is_whitespace c); cbn [andb]; [exact IH | reflexivity].
Qed.

(** A whitespace character at the end of a field is trimmed away. *)
Lemma trim_snoc_ws (s : list jschar) (c : jschar) :
  is_whitespace c = true -> trim (s ++ [c]) = trim s.
Proof.
  intros Hc. unfold trim.
  assert (Hend : forall t : list jschar, trimEnd (t ++ [c]) = trimEnd t).
  { intros t. unfold trimEnd. f_equal.
    transitivity (trimStart (c :: rev t)); [f_equal; apply rev_app_distr|].
    cbn [trimStart]. now rewrite Hc. }
  destruct (forallb is_whitespace s) eqn:E.
  - transitivity (trimEnd []); [f_equal | symmetry; f_equal].
    + etransitivity; [apply (trimStart_app_blank s [c] E)|].
      cbn [trimStart]. now rewrite Hc.
    + now apply trimStart_nil.
  - etransitivity; [|apply Hend].
    f_equal. apply (trimStart_app_nonblank s [c] E).
Qed.

Lemma trim_cons_nonws (s : list jschar) (c : jschar) :
  is_whitespace c = false -> exists t, trim (c :: s) = c :: t.
Proof.
  intros Hc. unfold trim. cbn [trimStart]. rewrite Hc. unfold trimEnd.
  destruct (forallb is_whitespace (rev s)) eqn:Er.
  - exists []. transitivity (rev [c]); [f_equal|reflexivity].
    etransitivity; [apply (trimStart_app_blank (rev s) [c] Er)|].
    cbn [trimStart]. now rewrite Hc.
  - exists (rev (trimStart (rev s))).
    transitivity (rev (trimStart (rev s) ++ [c]));
      [f_equal; apply (trimStart_app_nonblank (rev s) [c] Er)|].
    apply rev_app_distr.
Qed.

(** X21. The account file has no comment syntax: every line that begins
    with '#' and has at least three tab-separated fields yields an
    account, whose identifier begins with '#'. (The accounts.txt that
    setup.ts writes has such lines.) *)
Theorem comment_lines_are_accounts (content line : jsstring) :
  In line (split 10%N content) ->
  startsWith line (js "#") = true ->
  (3 <= field_count line)%nat ->
  In (credential_of line) (parseAccounts content)
  /\ startsWith (email (credential_of line)) (js "#") = true.
Proof.
  intros Hin Hhash Hf. change (js "#") with [35%N] in *.
  destruct (LogTextProps.startsWith_head _ _ _ Hhash) as [rest ->].
  split.
  - rewrite parseAccounts_spec. apply in_map, filter_In. split; [exact Hin|].
    unfold valid_line. apply andb_true_iff. split; [reflexivity|].
    now apply Nat.leb_le.
  - cbn [credential_of email]. unfold field. cbn [split].
    change (35 =? 9)%N with false. cbv iota.
    assert (E : forall piece : list jschar,
               startsWith (trim (35%N :: piece)) [35%N] = true).
    { intros piece. destruct (trim_cons_nonws piece 35%N eq_refl) as [t Et].
      transitivity (startsWith (35%N :: t) [35%N]); [f_equal; exact Et|].
      cbn [startsWith]. now rewrite LogTextProps.startsWith_nil. }
    destruct (split 9%N rest); cbn [nth]; apply E.
Qed.

Lemma comment_lines_are_accounts_witness :
  In (credential_of (js "# user@gmail.com" ++ [9%N] ++ js "password123" ++ [9%N]
                     ++ js "QEJA633DACRGZM25AD6PHHHYB3MWHACW"))
     (parseAccounts sampleAccounts).
Proof.
  apply (comment_lines_are_accounts sampleAccounts
           (js "# user@gmail.com" ++ [9%N] ++ js "password123" ++ [9%N]
            ++ js "QEJA633DACRGZM25AD6PHHHYB3MWHACW")).
  - vm_compute. tauto.
  - reflexivity.
  - vm_compute. lia.
Defined.

(** The sample file of setup.ts, left as it is, gives three accounts. *)
Example setup_sample_accounts :
  map (fun a => (email a, isTotp a)) (parseAccounts sampleAccounts)
  = [ (js "# " ++ [26684; 24335; 65306; 37038; 31665]%N, false);
      (js "# user@gmail.com", true);
      (js "# user2@gmail.com", false) ].
Proof. vm_compute. reflexivity. Qed.

(** *** Windows line ends *)

Lemma split_crlf content :
  Forall2 same_line (split 10%N content) (split 10%N (crlf content)).
Proof.
  induction content as [|c content IH]; cbn [crlf flat_map split].
  - repeat constructor.
  - destruct (c =? 10)%N eqn:E; cbn [app split].
    + change (13 =? 10)%N with false. change (10 =? 10)%N with true. cbv iota.
      constructor; [now right | exact IH].
    + rewrite E. fold (crlf content).
      destruct IH as [|l l' ls ls' Hl Hls]; [repeat constructor|].
      constructor; [|exact Hls].
      destruct Hl as [->| ->]; [now left | now right].
Qed.

Lemma non_empty_snoc_cr (l : jsstring) : non_empty (l ++ [13%N]) = non_empty l.
Proof.
  unfold non_empty. rewrite existsb_app. cbn [existsb].
  change (negb (is_whitespace 13%N)) with false. now rewrite !orb_false_r.
Qed.

Lemma field_count_snoc_cr (l : jsstring) : field_count (l ++ [13%N]) = field_count l.
Proof.
  unfold field_count. rewrite List.filter_app. cbn [List.filter].
  change (9 =? 13)%N with false. now rewrite app_nil_r.
Qed.

Lemma field_snoc_cr (l : jsstring) k :
  trim (field k (l ++ [13%N])) = trim (field k l).
Proof.
  unfold field.
  destruct (LogTextProps.split_snoc 9%N 13%N l) as (init & last & E1 & E2).
  change (13 =? 9)%N with false in E2. cbv iota in E2.
  transitivity (trim (nth k (init ++ [last ++ [13%N]]) []));
    [f_equal; f_equal; exact E2|].
  transitivity (trim (nth k (init ++ [last]) []));
    [|f_equal; f_equal; symmetry; exact E1].
  destruct (Nat.lt_trichotomy k (length init)) as [Hk|[->|Hk]].
  - now rewrite !app_nth1 by exact Hk.
  - rewrite !app_nth2, Nat.sub_diag by lia. cbn [nth].
    now apply trim_snoc_ws.
  - rewrite !app_nth2 by lia.
    destruct (k - length init)%nat as [|[|n]] eqn:E; [lia| |]; reflexivity.
Qed.

Lemma same_line_parse l l' :
  same_line l l' ->
  valid_line l' = valid_line l /\ credential_of l' = credential_of l.
Proof.
  intros [->| ->]; [now split|]. split.
  - unfold valid_line. now rewrite non_empty_snoc_cr, field_count_snoc_cr.
  - unfold credential_of. now rewrite !field_snoc_cr.
Qed.

(** X22. An account file saved with Windows line ends (a carriage return
    before every line break) gives the same accounts, field by field,
    as the file with plain line breaks. *)
Theorem parseAccounts_crlf (content : jsstring) :
  parseAccounts (crlf content) = parseAccounts content.
Proof.
  rewrite !parseAccounts_spec.
  induction (split_crlf content) as [|l l' ls ls' Hl _ IH]; [reflexivity|].
  destruct (same_line_parse _ _ Hl) as [Hv Hc].
  cbn [List.filter]. rewrite Hv. destruct (valid_line l); [|exact IH].
  cbn [map]. now rewrite Hc, IH.
Qed.

End AccountFileProps.

(** ** When [getNextAccount] answers null *)
Module NullAccountProps.
Import JS AccountManager Shapes AccountManagerFacts.

(** X23. [getNextAccount] answers null exactly when every account is
    marked used and either there is no account or the size of the
    used-set differs from the number of accounts. So on a non-empty
    store a null answer means that the identifiers are not pairwise
    distinct or that an identifier is marked which no account has. *)
Theorem getNextAccount_null_iff (st : Store) :
  (fst (getNextAccount st) = None <->
   (forall b, b ∈ accounts st -> email b ∈ usedAccounts st)
   /\ (accounts st = [] \/ size (usedAccounts st) <> length (accounts st)))
  /\ (accounts st <> [] -> fst (getNextAccount st) = None ->
      ~ distinct_identifiers st).
Proof.
  assert (Hiff : fst (getNextAccount st) = None <->
    (forall b, b ∈ accounts st -> email b ∈ usedAccounts st)
    /\ (accounts st = [] \/ size (usedAccounts st) <> length (accounts st))).
  { unfold getNextAccount.
    destruct (List.find (is_unused (usedAccounts st)) (accounts st)) as [a|] eqn:E.
    - cbn [fst]. split; [discriminate|]. intros [Hall _].
      apply find_unused_first in E as (l1 & l2 & El & _ & Hun).
      exfalso. apply Hun, Hall. rewrite El. apply elem_of_app. right. left.
    - pose proof (proj1 (find_unused_none _ _) E) as Hused. clear E.
      rename Hused into E.
      destruct (size (usedAccounts st) =? length (accounts st))%nat eqn:Es; cbn [fst].
      + apply Nat.eqb_eq in Es. destruct (accounts st) as [|a l]; cbn [head].
        * split; [intros _; split; [exact E | now left] | reflexivity].
        * split; [discriminate|]. intros [_ [H|H]]; [discriminate | contradiction].
      + apply Nat.eqb_neq in Es. split; [intros _; split; [exact E | now right]|].
        reflexivity. }
  split; [exact Hiff|].
  intros Hne Hnone Hd. apply Hiff in Hnone as [Hall [H|H]]; [contradiction|].
  apply H. now apply all_used_size.
Qed.

Lemma getNextAccount_null_iff_witness :
  fst (getNextAccount stale_store) = None.
Proof.
  apply (proj1 (getNextAccount_null_iff stale_store)). split.
  - intros b Hb. apply elem_of_cons in Hb as [->|Hb]; [|inversion Hb].
    apply elem_of_union_l, elem_of_singleton. reflexivity.
  - right. vm_compute. discriminate.
Defined.

End NullAccountProps.

(** ** One account in two tasks at once *)
Module ConcurrencyProps.
Import JS AccountManager Logger Index Pool Shapes PoolFacts PoolRunFacts.

(** The admission loop can start the first [m] pending tasks as long as
    they fit into the pool. *)
Lemma start_many s0 m : forall s,
  fresh_start s0 -> reachable s0 s -> control s = Admitting ->
  (m <= length (tasks (pool s)))%nat ->
  (length (inflight s) + m <= poolSize (pool s0))%nat ->
  exists s',
    reachable s0 s' /\ control s' = Admitting
    /\ tasks (pool s') = drop m (tasks (pool s))
    /\ inflight s' = inflight s ++ map (in_main 0) (take m (tasks (pool s))).
Proof.
  induction m as [|m IH]; intros s Hfresh Hreach Hc Hlen Hroom.
  - exists s. rewrite drop_0, take_0. cbn [map]. now rewrite app_nil_r.
  - destruct (tasks (pool s)) as [|task rest] eqn:Et; [cbn in Hlen; lia|].
    pose proof (reachable_inv _ _ Hfresh Hreach) as Hinv.
    assert (Hcan : can_start s = true).
    { apply can_start_true. split; [|eauto].
      rewrite (size_running_length _ _ Hinv), (inv_size _ _ Hinv). lia. }
    assert (Hnext : reachable s0 (start_next 0 s)).
    { eapply rtc_r; [exact Hreach|]. now constructor. }
    assert (E : start_next 0 s
                = executeTask_begin 0 task
                    {| pool := set_tasks rest (pool s); store := store s;
                       world := world s; inflight := inflight s;
                       control := control s |}).
    { unfold start_next. now rewrite Et. }
    destruct (IH (start_next 0 s) Hfresh Hnext) as (s' & R & C & T & I).
    + rewrite E. exact Hc.
    + rewrite E. cbn. cbn in Hlen. lia.
    + rewrite E. cbn [executeTask_begin inflight]. rewrite length_app.
      cbn [length]. lia.
    + exists s'. split; [exact R|]. split; [exact C|].
      rewrite E in T, I. cbn [executeTask_begin pool inflight set_runningTasks
                               set_tasks tasks] in T, I.
      split; [exact T|]. rewrite I, <- app_assoc. reflexivity.
Qed.

(** X24. The pool does not keep the tasks of one account apart: if two
    pending tasks with the same account both lie within the first
    [poolSize] places of the queue (as they do after [addTasks] has
    wrapped around with fewer accounts than the pool has room), then the
    run reaches a state in which both are running, each waiting in
    [main] with that account. *)
Theorem same_account_concurrently (s0 : System) (i j : nat) (ti tj : Task)
    (acc : AccountInfo) :
  fresh_start s0 ->
  (i < j)%nat -> (j < poolSize (pool s0))%nat ->
  tasks (pool s0) !! i = Some ti ->
  tasks (pool s0) !! j = Some tj ->
  account ti = Some acc -> account tj = Some acc ->
  exists s,
    reachable s0 s
    /\ inflight s !! i = Some (in_main 0 ti)
    /\ inflight s !! j = Some (in_main 0 tj)
    /\ id ti <> id tj
    /\ account (act_task (in_main 0 ti)) = Some acc
    /\ account (act_task (in_main 0 tj)) = Some acc
    /\ id ti ∈ runningTasks (pool s) /\ id tj ∈ runningTasks (pool s).
Proof.
  intros Hfresh Hij Hj Hi Htj Hai Haj.
  pose proof (lookup_lt_Some _ _ _ Htj) as Hlen.
  set (s1 := set_control Admitting s0).
  assert (R1 : reachable s0 s1).
  { apply rtc_once. constructor; [apply (fresh_control _ Hfresh)|].
    unfold work_left. destruct (tasks (pool s0)); [cbn in Hlen; lia|reflexivity]. }
  destruct (start_many s0 (S j) s1 Hfresh R1 eq_refl) as (s & R & _ & _ & I).
  { cbn [s1 set_control pool]. lia. }
  { cbn [s1 set_control inflight]. rewrite (fresh_inflight _ Hfresh).
    cbn [length]. lia. }
  cbn [s1 set_control inflight pool] in I.
  rewrite (fresh_inflight _ Hfresh) in I. cbn [app] in I.
  assert (Li : inflight s !! i = Some (in_main 0 ti)).
  { rewrite I, list_lookup_fmap, lookup_take_lt by lia. now rewrite Hi. }
  assert (Lj : inflight s !! j = Some (in_main 0 tj)).
  { rewrite I, list_lookup_fmap, lookup_take_lt by lia. now rewrite Htj. }
  pose proof (reachable_inv _ _ Hfresh R) as Hinv.
  assert (Hid : forall k t, inflight s !! k = Some (in_main 0 t) ->
                            id t ∈ runningTasks (pool s)).
  { intros k t Hk. rewrite (inv_running _ _ Hinv). apply elem_of_list_to_set.
    unfold inflight_ids. apply list_elem_of_lookup. exists k.
    now rewrite !list_lookup_fmap, Hk. }
  exists s. split; [exact R|]. split; [exact Li|]. split; [exact Lj|].
  split; [|split; [exact Hai|split; [exact Haj|split; eauto]]].
  intros Heq. pose proof (fresh_ids _ Hfresh) as Hnd.
  apply (NoDup_lookup _ i j (id ti)) in Hnd; [lia| |].
  - now rewrite list_lookup_fmap, Hi.
  - now rewrite list_lookup_fmap, Htj, Heq.
Qed.

Lemma crowded_added_eq :
  addTasks 3 (sample_add_env two_accounts_file) (new_TaskPool 3)
    empty_store empty_world
  = inr (crowded_added.1.1, crowded_added.1.2, crowded_added.2).
Proof. vm_compute. reflexivity. Qed.

Lemma same_account_concurrently_witness :
  exists s ti tj,
    reachable crowded_start s
    /\ inflight s !! 0%nat = Some (in_main 0 ti)
    /\ inflight s !! 2%nat = Some (in_main 0 tj)
    /\ id ti <> id tj
    /\ account ti = account tj.
Proof.
  destruct (tasks (pool crowded_start)) as [|ti [|tm [|tj rest]]] eqn:E;
    try (vm_compute in E; discriminate E).
  assert (Ha : exists acc, account ti = Some acc /\ account tj = Some acc).
  { vm_compute in E. injection E as <- _ <- _. eexists. split; reflexivity. }
  destruct Ha as (acc & Hi & Hj).
  destruct (same_account_concurrently crowded_start 0 2 ti tj acc)
    as (s & R & Li & Lj & Hne & _); try assumption.
  - exact (proj1 (addTasks_fresh_start _ _ _ _ _ _ _ _ true 1722000001000
                    crowded_added_eq)).
  - lia.
  - vm_compute. lia.
  - now rewrite E.
  - now rewrite E.
  - exists s, ti, tj. rewrite Hi, Hj. auto.
Defined.

End ConcurrencyProps.

(** ** Following the log *)
Module TailProps.
Import JS JSFacts AccountManager Logger LogText LogsScript Shapes.

Lemma utf8_length_app s t : utf8_length (s ++ t) = (utf8_length s + utf8_length t)%nat.
Proof. unfold utf8_length. now rewrite map_app, list_sum_app. Qed.

Lemma utf8_units_pos c : (1 <= utf8_units c)%nat.
Proof.
  unfold utf8_units.
  destruct (c <? 128)%N; [lia|]. destruct (c <? 2048)%N; [lia|].
  destruct (_ && _); lia.
Qed.

Lemma utf8_length_cons c s :
  utf8_length (c :: s) = (utf8_units c + utf8_length s)%nat.
Proof. reflexivity. Qed.

Lemma utf8_length_ge s : (length s <= utf8_length s)%nat.
Proof.
  induction s as [|c s IH]; [reflexivity|].
  rewrite utf8_length_cons. cbn [length]. pose proof (utf8_units_pos c). lia.
Qed.

Lemma utf8_length_ascii s :
  utf8_length s = length s <-> Forall (fun c => (c < 128)%N) s.
Proof.
  induction s as [|c s IH].
  - split; [constructor | reflexivity].
  - rewrite utf8_length_cons. cbn [length].
    pose proof (utf8_length_ge s) as Hs.
    pose proof (utf8_units_pos c) as Hc. split.
    + intros H. assert (Hc1 : utf8_units c = 1%nat) by lia.
      constructor; [|apply IH; lia].
      unfold utf8_units in Hc1. destruct (c <? 128)%N eqn:E;
        [now apply N.ltb_lt in E|].
      destruct (c <? 2048)%N; [discriminate|]. destruct (_ && _); discriminate.
    + intros H. inversion H as [|? ? Hc128 Hrest]; subst.
      apply IH in Hrest. unfold utf8_units.
      apply N.ltb_lt in Hc128. rewrite Hc128. lia.
Qed.

(** X25. When text is appended to logs.txt, the round of [tailLogs()]
    that notices it prints the non-blank lines of the new text without
    its first [n] code units, where [n] is the number of bytes by which
    the UTF-8 size of the old text exceeds its length; [n] is 0 only if
    the old text is pure ASCII. (Every line the logger writes holds
    characters of three bytes.) *)
Theorem tail_tick_skips (old new : jsstring) :
  new <> [] ->
  tail_tick (utf8_length old) (old ++ new)
  = (List.filter (fun line => truthy (trim line))
       (split 10%N (drop (utf8_length old - length old) new)),
     utf8_length (old ++ new))
  /\ (length old <= utf8_length old)%nat
  /\ (utf8_length old = length old <-> Forall (fun c => (c < 128)%N) old).
Proof.
  intros Hne. split; [|split; [apply utf8_length_ge | apply utf8_length_ascii]].
  unfold tail_tick. rewrite utf8_length_app.
  assert (Hnew : (1 <= utf8_length new)%nat).
  { destruct new as [|c new]; [congruence|].
    rewrite utf8_length_cons. pose proof (utf8_units_pos c). lia. }
  replace (utf8_length old <? utf8_length old + utf8_length new)%nat with true
    by (symmetry; apply Nat.ltb_lt; lia).
  now rewrite drop_app_ge by apply utf8_length_ge.
Qed.

Lemma tail_tick_skips_witness :
  tail_tick (utf8_length (js "a@x.com  " ++ success_mark ++ [10%N]))
    ((js "a@x.com  " ++ success_mark ++ [10%N])
     ++ (js "b@x.com  " ++ success_mark ++ [10%N]))
  = ([js " " ++ success_mark], 44%nat).
Proof.
  refine (eq_trans
            (proj1 (tail_tick_skips (js "a@x.com  " ++ success_mark ++ [10%N])
                      (js "b@x.com  " ++ success_mark ++ [10%N]) _)) _).
  - discriminate.
  - vm_compute. reflexivity.
Defined.

Lemma slice_last_ten {A} (l : list A) :
  slice_from (-10) l = drop (length l - 10) l.
Proof.
  unfold slice_from. change (-10 <? 0) with true. cbv iota. f_equal. lia.
Qed.

Lemma filter_length_lt {A} (f : A -> bool) l :
  Exists (fun x => f x = false) l ->
  (length (List.filter f l) < length l)%nat.
Proof.
  induction 1 as [x l Hx|x l _ IH]; cbn [List.filter length].
  - rewrite Hx. pose proof (PoolRunFacts.filter_length_le f l). lia.
  - destruct (f x); cbn [length]; lia.
Qed.

(** X26. What [tailLogs()] shows first is the end of what
    [getRecentLogs(10)] returns, and at most 10 lines; it takes the last
    ten lines before it drops the blank ones, so when one of them is
    blank (as the lines around the batch marks are) and the file has ten
    records or more, it shows fewer records than [getRecentLogs(10)]. *)
Theorem tail_first_suffix (content : jsstring) :
  (exists older, getRecentLogs (Some content) 10 = older ++ tail_first content)
  /\ (length (tail_first content) <= 10)%nat
  /\ ((10 <= length (log_lines content))%nat ->
      Exists (fun line => truthy (trim line) = false)
        (slice_from (-10) (split 10%N (trim content))) ->
      (length (tail_first content)
       < length (getRecentLogs (Some content) 10))%nat).
Proof.
  unfold getRecentLogs, tail_first, log_lines.
  set (L := split 10%N (trim content)).
  set (f := fun line : jsstring => truthy (trim line)).
  change (- (10)) with (-10). rewrite !slice_last_ten.
  set (k := (length L - 10)%nat).
  assert (E : List.filter f L
              = List.filter f (take k L) ++ List.filter f (drop k L)).
  { now rewrite <- List.filter_app, take_drop. }
  set (A := List.filter f (take k L)) in *.
  set (B := List.filter f (drop k L)) in *.
  assert (HB : (length B <= 10)%nat).
  { subst B. etransitivity; [apply PoolRunFacts.filter_length_le|].
    rewrite length_drop. lia. }
  rewrite E, length_app. split; [|split].
  - exists (drop (length A + length B - 10) A).
    apply drop_app_le. lia.
  - exact HB.
  - intros Hten Hblank. rewrite length_drop, length_app.
    pose proof (filter_length_lt f _ Hblank) as Hlt.
    fold B in Hlt. rewrite length_drop in Hlt. lia.
Qed.

Lemma tail_first_suffix_witness :
  exists older,
    getRecentLogs (Some (log_text (fun _ => sample_date) sample_log)) 10
    = older ++ tail_first (log_text (fun _ => sample_date) sample_log).
Proof.
  apply (tail_first_suffix (log_text (fun _ => sample_date) sample_log)).
Defined.

End TailProps.

(** ** [main] without an account *)
Module SingleModeProps.
Import JS AccountManager GoogleLogin Logger Index Shapes AccountManagerFacts.

Lemma getNextAccount_again st a st' :
  getNextAccount st = (Some a, st') ->
  getNextAccount st' = (Some a, st')
  /\ a ∈ accounts st' /\ accounts st' = accounts st
  /\ usedAccounts st' ⊆ usedAccounts st.
Proof.
  unfold getNextAccount.
  destruct (List.find (is_unused (usedAccounts st)) (accounts st)) as [b|] eqn:E.
  - intros [= -> <-]. rewrite E. split; [reflexivity|].
    apply find_some in E as [Hin _]. apply list_elem_of_In in Hin.
    now repeat split.
  - destruct (size (usedAccounts st) =? length (accounts st))%nat; [|discriminate].
    destruct (accounts st) as [|b l] eqn:Ea; cbn [head]; [discriminate|].
    intros [= -> <-]. cbn [accounts usedAccounts List.find].
    unfold is_unused at 1.
    rewrite bool_decide_eq_false_2 by apply not_elem_of_empty.
    cbn [negb]. split; [reflexivity|]. split; [left|].
    split; [reflexivity|]. apply empty_subseteq.
Qed.

(** X27. [main] called without an account takes the next account of the
    account manager but never marks it: once a call has picked an
    account, every later call without an account picks the same one
    (whatever accounts.txt holds by then), leaves the account manager as
    it is, and, when it settles, has launched a browser for that
    account. *)
Theorem main_same_account (env env' : MainEnv) (st st' : Store) (a : AccountInfo) :
  resolve_account None env st = (inl a, st') ->
  resolve_account None env' st' = (inl a, st')
  /\ a ∈ accounts st'
  /\ usedAccounts st' ⊆ usedAccounts st
  /\ forall w res st2 w2,
       main None env' st' w = Some (res, st2, w2) ->
       st2 = st'
       /\ exists session,
            sessions w2 = sessions w ++ [session]
            /\ session_email session = email a.
Proof.
  intros H. unfold resolve_account in H.
  assert (Hnext : exists st1,
             getNextAccount st1 = (Some a, st')
             /\ usedAccounts st1 = usedAccounts st).
  { destruct (getTotalAccountCount st =? 0)%nat.
    - destruct (accounts_file env) as [content|]; [|discriminate].
      exists (loadAccounts content st). split; [|reflexivity].
      destruct (getNextAccount (loadAccounts content st)) as [[b|] st2];
        [now injection H as -> ->|discriminate].
    - exists st. split; [|reflexivity].
      destruct (getNextAccount st) as [[b|] st2];
        [now injection H as -> ->|discriminate]. }
  destruct Hnext as (st1 & Hn & Hu).
  destruct (getNextAccount_again _ _ _ Hn) as (Hagain & Hin & _ & Hsub).
  assert (Hres : resolve_account None env' st' = (inl a, st')).
  { unfold resolve_account.
    replace (getTotalAccountCount st' =? 0)%nat with false.
    - now rewrite Hagain.
    - symmetry. apply Nat.eqb_neq. unfold getTotalAccountCount.
      destruct (accounts st'); [inversion Hin|discriminate]. }
  split; [exact Hres|]. split; [exact Hin|]. split; [now rewrite <- Hu|].
  intros w res st2 w2. unfold main. rewrite Hres.
  destruct (launch env').
  - destruct (performGoogleLogin (Some a) (script env')) as [[e|]|];
      intros [= <- <- <-] || discriminate;
      (split; [reflexivity|]); eexists; (split; [reflexivity|]); reflexivity.
  - intros [= <- <- <-]. split; [reflexivity|].
    eexists. split; reflexivity.
Qed.

Lemma main_same_account_witness :
  resolve_account None (env_of stuck_script)
    (loadAccounts two_accounts_file empty_store)
  = (inl sample_account, loadAccounts two_accounts_file empty_store).
Proof.
  apply (main_same_account
           {| accounts_file := Some two_accounts_file; launch := Launched;
              Index.script := success_script |}
           (env_of stuck_script) empty_store).
  vm_compute. reflexivity.
Defined.

End SingleModeProps.
